(** * Smart Task Analyzer: the scoring engine of [backend/tasks/scoring.py]

    A shallow embedding of the scoring engine (normalisation of untrusted
    task records, dependency graph and cycle detection, the four factor
    calculators, the strategy combiner and the ranker) together with the
    properties stated about it.

    Conventions of the embedding.
    - Python [int] is [Z]; Python [float] is idealised as a real number [R]
      (no rounding error, no infinities, no NaN); [math.log1p x] is
      [ln (1 + x)] with its domain error.
    - A [dict] is a [gmap]; where the code iterates over a dict, the
      insertion order of its keys is kept next to the map ([odict]).
      A [set] is a [gset].
    - Exceptions are values of [exc]; a function that may raise returns a
      [result]; [try ... except Exception] is [try_except].
    - Recursion and [while] loops whose termination is not structural take
      fuel and raise [OutOfFuel] when it is exhausted; the fuel given by the
      callers is proved sufficient. The recursion limit of the interpreter
      is not modelled.
    - A [str] is a [string] of code points below 256.
    - The library functions [str()] (on floats and containers), [float()]
      on strings, the date formats that [date.fromisoformat] accepts from
      Python 3.11 on, and [date.today()] are parameters ([Builtins]). *)

From Stdlib Require Import ZArith Reals Lra Lia List Ascii String Sorted.
From stdpp Require Import gmap strings list fin_maps pretty relations.

(* [naive_solver] and [set_solver] clear hypotheses by name. *)
#[local] Set Warnings "-clear-no-such-hyp".

Local Open Scope Z_scope.

(** ** Exceptions and the error monad *)

Inductive exc : Type :=
| ValueError
| TypeError
| KeyError
| IndexError
| OverflowError
| ZeroDivisionError
| OutOfFuel.

Inductive result (A : Type) : Type :=
| Ok (a : A)
| Raise (e : exc).
Arguments Ok {A} a.
Arguments Raise {A} e.

Definition bind {A B : Type} (m : result A) (f : A → result B) : result B :=
  match m with
  | Ok a => f a
  | Raise e => Raise e
  end.

Notation "'do' x <- m ; k" := (bind m (fun x => k))
  (at level 10, x name, m at level 100, k at level 200).
Notation "'do' ' p <- m ; k" := (bind m (fun x => let 'p := x in k))
  (at level 10, p pattern, m at level 100, k at level 200).

(** [try: m except Exception: h] *)
Definition try_except {A : Type} (m : result A) (h : exc → result A) : result A :=
  match m with
  | Ok a => Ok a
  | Raise e => h e
  end.

(** ** Calendar dates ([datetime.date])

    A [date] is a (year, month, day) triple accepted by the constructor of
    [datetime.date]: 1 <= year <= 9999, 1 <= month <= 12 and
    1 <= day <= days in that month. *)

Module Date.

Definition MINYEAR : Z := 1.
Definition MAXYEAR : Z := 9999.

Definition _is_leap (y : Z) : bool :=
  (y mod 4 =? 0) && (negb (y mod 100 =? 0) || (y mod 400 =? 0)).

Definition _DAYS_IN_MONTH (m : Z) : Z :=
  match m with
  | 1 => 31 | 2 => 28 | 3 => 31 | 4 => 30 | 5 => 31 | 6 => 30
  | 7 => 31 | 8 => 31 | 9 => 30 | 10 => 31 | 11 => 30 | 12 => 31
  | _ => -1
  end.

Definition _DAYS_BEFORE_MONTH (m : Z) : Z :=
  match m with
  | 1 => 0 | 2 => 31 | 3 => 59 | 4 => 90 | 5 => 120 | 6 => 151
  | 7 => 181 | 8 => 212 | 9 => 243 | 10 => 273 | 11 => 304 | 12 => 334
  | _ => -1
  end.

Definition _days_before_year (y : Z) : Z :=
  let y' := y - 1 in y' * 365 + y' / 4 - y' / 100 + y' / 400.

Definition _days_in_month (y m : Z) : Z :=
  if (m =? 2) && _is_leap y then 29 else _DAYS_IN_MONTH m.

Definition _days_before_month (y m : Z) : Z :=
  _DAYS_BEFORE_MONTH m + (if (2 <? m) && _is_leap y then 1 else 0).

Definition _ymd2ord (y m d : Z) : Z :=
  _days_before_year y + _days_before_month y m + d.

(** The range checks of the [date] constructor. *)
Definition valid_ymd (y m d : Z) : bool :=
  (MINYEAR <=? y) && (y <=? MAXYEAR) &&
  (1 <=? m) && (m <=? 12) &&
  (1 <=? d) && (d <=? _days_in_month y m).

Record date : Type := mkDate {
  year : Z;
  month : Z;
  day : Z;
  date_ok : Is_true (valid_ymd year month day)
}.

(** [date(y, m, d)]: raises [ValueError] outside the ranges. *)
Definition make_date (y m d : Z) : result date :=
  match decide (Is_true (valid_ymd y m d)) with
  | left H => Ok (mkDate y m d H)
  | right _ => Raise ValueError
  end.

Definition toordinal (a : date) : Z := _ymd2ord (year a) (month a) (day a).

(** [date.weekday()]: Monday is 0, Sunday is 6. *)
Definition weekday (a : date) : Z := (toordinal a + 6) mod 7.

(** Dates compare as their (year, month, day) triples. *)
Definition ltb (a b : date) : bool :=
  (year a <? year b) ||
  ((year a =? year b) &&
   ((month a <? month b) ||
    ((month a =? month b) && (day a <? day b)))).

Definition lt (a b : date) : Prop := Is_true (ltb a b).
Definition le (a b : date) : Prop := ¬ lt b a.

(** [a + timedelta(days=1)]: the day is incremented and carried into the
    month and the year; the result is range-checked and [OverflowError] is
    raised past 9999-12-31. *)
Definition next_ymd (a : date) : Z * Z * Z :=
  if day a <? _days_in_month (year a) (month a) then (year a, month a, day a + 1)
  else if month a <? 12 then (year a, month a + 1, 1)
  else (year a + 1, 1, 1).

Definition add_one_day (a : date) : result date :=
  let '(y, m, d) := next_ymd a in
  try_except (make_date y m d) (fun _ => Raise OverflowError).

End Date.

Abbreviation date := Date.date.

(** ** Strings

    A Python [str] is modelled as a [string] of code points below 256. *)

Module Str.

Definition ord (c : ascii) : Z := Z.of_nat (nat_of_ascii c).

(** [c.isspace()] on the code points below 256. *)
Definition is_space (c : ascii) : bool :=
  let n := ord c in
  ((9 <=? n) && (n <=? 13)) || ((28 <=? n) && (n <=? 32)) || (n =? 133) || (n =? 160).

Definition is_digit (c : ascii) : bool :=
  let n := ord c in (48 <=? n) && (n <=? 57).

Definition digit_val (c : ascii) : Z := ord c - 48.

Fixpoint lstrip (s : string) : string :=
  match s with
  | EmptyString => EmptyString
  | String c s' => if is_space c then lstrip s' else s
  end.

Definition rev (s : string) : string :=
  string_of_list_ascii (List.rev (list_ascii_of_string s)).

Definition rstrip (s : string) : string := rev (lstrip (rev s)).

(** [s.strip()] *)
Definition strip (s : string) : string := rstrip (lstrip s).

(** [c.lower()] on the code points below 256. *)
Definition lower_char (c : ascii) : ascii :=
  let n := ord c in
  if ((65 <=? n) && (n <=? 90)) || ((192 <=? n) && (n <=? 222) && negb (n =? 215))
  then ascii_of_nat (Z.to_nat (n + 32)) else c.

Fixpoint lower (s : string) : string :=
  match s with
  | EmptyString => EmptyString
  | String c s' => String (lower_char c) (lower s')
  end.

(** [p in s] for strings: [p] occurs in [s] as a contiguous substring. *)
Fixpoint contains (p s : string) : bool :=
  String.prefix p s ||
  match s with
  | EmptyString => false
  | String _ s' => contains p s'
  end.

(** The [n] least significant decimal digits of [z], most significant
    first: the format [%0nd] for 0 <= z < 10^n. *)
Definition digit_char (d : Z) : ascii := ascii_of_nat (Z.to_nat (48 + d)).

Fixpoint digits (n : nat) (z : Z) : string :=
  match n with
  | O => EmptyString
  | S n' => String (digit_char ((z / 10 ^ Z.of_nat n') mod 10)) (digits n' z)
  end.

(** [str(z)] for an [int]. *)
Definition of_Z (z : Z) : string := pretty.pretty z.

(** Decimal digits with single underscores between them, the body of an
    integer literal given to [int()]. *)
Fixpoint parse_digits (acc : Z) (after_digit : bool) (l : list ascii) : option Z :=
  match l with
  | [] => if after_digit then Some acc else None
  | c :: l' =>
      if is_digit c then parse_digits (10 * acc + digit_val c) true l'
      else if Ascii.eqb c "_"%char && after_digit then parse_digits acc false l'
      else None
  end.

(** [int(s)] for a string, base 10: surrounding whitespace, an optional
    sign, then the digits. The limit that recent interpreters put on the
    number of digits is not modelled. *)
Definition to_int (s : string) : result Z :=
  let body (l : list ascii) : result Z :=
    match parse_digits 0 false l with
    | Some z => Ok z
    | None => Raise ValueError
    end in
  match list_ascii_of_string (strip s) with
  | c :: l =>
      if Ascii.eqb c "-"%char then do z <- body l; Ok (- z)
      else if Ascii.eqb c "+"%char then body l
      else body (c :: l)
  | [] => Raise ValueError
  end.

End Str.

(** ** Real numbers standing for [float] *)

#[global] Instance Rle_decision (x y : R) : Decision (x <= y)%R := Rle_dec x y.
#[global] Instance Rlt_decision (x y : R) : Decision (x < y)%R := Rlt_dec x y.
#[global] Instance Req_decision : EqDecision R := Req_dec_T.

Module Float.

(** [math.floor] *)
Definition floor (x : R) : Z := Int_part x.

(** [int(x)] for a float: truncation towards zero. *)
Definition trunc (x : R) : Z :=
  if decide (0 <= x)%R then floor x else - floor (- x).

(** [round(x)]: the nearest integer, ties to the even one. *)
Definition round_half_even (x : R) : Z :=
  let f := floor x in
  let d := (x - IZR f)%R in
  if decide (d < 1 / 2)%R then f
  else if decide (1 / 2 < d)%R then f + 1
  else if Z.even f then f else f + 1.

(** [round(x, 2)] *)
Definition round2 (x : R) : R := (IZR (round_half_even (x * 100)) / 100)%R.

(** [math.log1p]: a domain error at or below -1. *)
Definition log1p (x : R) : result R :=
  if decide (x <= -1)%R then Raise ValueError else Ok (ln (1 + x)).

(** [x / y] *)
Definition div (x y : R) : result R :=
  if decide (y = 0)%R then Raise ZeroDivisionError else Ok (x / y)%R.

(** [min(a, b)] and [max(a, b)] of two floats: the first argument unless
    the second is strictly smaller (larger). *)
Definition min2 (a b : R) : R := if decide (b < a)%R then b else a.
Definition max2 (a b : R) : R := if decide (a < b)%R then b else a.

(** [max(l)] of a non-empty list: the first of the largest elements. *)
Definition max_list (l : list R) : result R :=
  match l with
  | [] => Raise ValueError
  | x :: l' => Ok (foldl max2 x l')
  end.

End Float.

(** ** Untyped input values

    The values a decoded JSON document (or a caller) can put in a raw task
    record. *)

#[warnings="-register-all"]
Inductive pyval : Type :=
| PNone
| PBool (b : bool)
| PInt (z : Z)
| PFloat (r : R)
| PStr (s : string)
| PList (l : list pyval)
| PDict (l : list (string * pyval))
| PDate (d : date).

(** The library functions that are taken as parameters of the embedding:
    - [repr_other]: [str(v)] for a float, a list, a dict or a date;
    - [str_to_float]: [float(s)] for a string ([None] for [ValueError]);
    - [fromisoformat_ext]: [date.fromisoformat(s)] on a string that starts
      with four digits and is not of the form [dddd-dd-dd] ([None] for
      [ValueError]); before Python 3.11 this is always [None];
    - [date_today]: [date.today()], the date at the time of the call. *)
Class Builtins : Type := {
  repr_other : pyval → string;
  str_to_float : string → option R;
  fromisoformat_ext : string → option date;
  date_today : date
}.

Section Values.
Context `{Builtins}.

(** [str(v)] *)
Definition py_str (v : pyval) : string :=
  match v with
  | PNone => "None"
  | PBool true => "True"
  | PBool false => "False"
  | PInt z => Str.of_Z z
  | PStr s => s
  | _ => repr_other v
  end.

(** [bool(v)] *)
Definition py_truthy (v : pyval) : bool :=
  match v with
  | PNone => false
  | PBool b => b
  | PInt z => negb (z =? 0)
  | PFloat r => bool_decide (r ≠ 0%R)
  | PStr s => negb (String.eqb s "")
  | PList l => match l with [] => false | _ => true end
  | PDict l => match l with [] => false | _ => true end
  | PDate _ => true
  end.

(** [v in (None, "")] *)
Definition in_none_empty (v : pyval) : bool :=
  match v with
  | PNone => true
  | PStr s => String.eqb s ""
  | _ => false
  end.

(** [v in (None, "", [])] *)
Definition in_none_empty_list (v : pyval) : bool :=
  match v with
  | PNone => true
  | PStr s => String.eqb s ""
  | PList [] => true
  | _ => false
  end.

(** [int(v)] *)
Definition py_int (v : pyval) : result Z :=
  match v with
  | PBool b => Ok (if b then 1 else 0)
  | PInt z => Ok z
  | PFloat r => Ok (Float.trunc r)
  | PStr s => Str.to_int s
  | _ => Raise TypeError
  end.

(** [float(v)]; an [int] of any size converts, the reals have no overflow. *)
Definition py_float (v : pyval) : result R :=
  match v with
  | PBool b => Ok (if b then 1%R else 0%R)
  | PInt z => Ok (IZR z)
  | PFloat r => Ok r
  | PStr s => match str_to_float s with Some r => Ok r | None => Raise ValueError end
  | _ => Raise TypeError
  end.

(** [date.fromisoformat(s)] *)
Definition fromisoformat (s : string) : result date :=
  let l := list_ascii_of_string s in
  let num2 (a b : ascii) : Z := 10 * Str.digit_val a + Str.digit_val b in
  if negb ((4 <=? length l)%nat && forallb Str.is_digit (take 4 l)) then Raise ValueError
  else
    match l with
    | [y1; y2; y3; y4; h1; m1; m2; h2; d1; d2] =>
        if Ascii.eqb h1 "-" && Ascii.eqb h2 "-" && forallb Str.is_digit [m1; m2; d1; d2]
        then Date.make_date (100 * num2 y1 y2 + num2 y3 y4) (num2 m1 m2) (num2 d1 d2)
        else match fromisoformat_ext s with Some d => Ok d | None => Raise ValueError end
    | _ => match fromisoformat_ext s with Some d => Ok d | None => Raise ValueError end
    end.

End Values.

(** [d.isoformat()]: [YYYY-MM-DD] *)
Definition isoformat (d : date) : string :=
  Str.digits 4 (Date.year d) +:+ "-" +:+ Str.digits 2 (Date.month d) +:+ "-" +:+
  Str.digits 2 (Date.day d).

(** ** Normalised tasks *)

Module Task.

Record NormalizedTask : Type := mkTask {
  id : Z;
  title : string;
  due_date : option date;
  estimated_hours : option R;
  importance : option Z;
  dependencies : list Z
}.

End Task.

Abbreviation NormalizedTask := Task.NormalizedTask.

(** What the normaliser guarantees about the optional fields of a task:
    the estimated hours are positive and the importance is within 1..10. *)
Definition task_ok (t : NormalizedTask) : Prop :=
  (∀ h, Task.estimated_hours t = Some h → (0 < h)%R) ∧
  (∀ v, Task.importance t = Some v → 1 <= v <= 10).

(** A raw task record: a [dict] with string keys. *)
Abbreviation RawTask := (gmap string pyval).

Section Normalizer.
Context `{Builtins}.

(** [t.get(key)] *)
Definition raw_get (t : RawTask) (key : string) : pyval := default PNone (t !! key).

Definition _parse_date (value : pyval) : result (option date) :=
  if in_none_empty_list value then Ok None
  else
    match value with
    | PDate d => Ok (Some d)
    | PStr s =>
        try_except (do d <- fromisoformat s; Ok (Some d))
          (fun e => match e with ValueError => Ok None | _ => Raise e end)
    | _ => Ok None
    end.

Definition _parse_float (value : pyval) : result (option R) :=
  if in_none_empty value then Ok None
  else
    try_except
      (do v <- py_float value; Ok (if decide (v <= 0)%R then None else Some v))
      (fun _ => Ok None).

Definition _clamp_int (value : pyval) (lo hi : Z) : result (option Z) :=
  if in_none_empty value then Ok None
  else
    try_except
      (do v <- py_int value; Ok (Some (Z.max lo (Z.min hi v))))
      (fun _ => Ok None).

(** The loop over [deps_raw]: the converted ids and the warnings. *)
Fixpoint convert_deps (tid : Z) (deps_raw : list pyval) : list Z * list string :=
  match deps_raw with
  | [] => ([], [])
  | d :: rest =>
      let '(deps, warns) := convert_deps tid rest in
      match py_int d with
      | Ok z => (z :: deps, warns)
      | Raise _ =>
          (deps,
           ("Task " +:+ Str.of_Z tid +:+ ": dependency '" +:+ py_str d +:+ "' invalid -> ignored")
             :: warns)
      end
  end.

(** The body of the loop of [normalize_tasks] for the record [t] at
    position [idx]: the normalised task and the warnings it appends. *)
Definition normalize_one (idx : Z) (t : RawTask) : result (NormalizedTask * list string) :=
  (* id *)
  let tid_raw := default (PInt (idx + 1)) (t !! "id") in
  do '(tid, w_id) <-
    try_except (do tid <- py_int tid_raw; Ok (tid, []))
      (fun _ =>
         let tid := idx + 1 in
         Ok (tid, ["Task at index " +:+ Str.of_Z idx +:+ ": invalid id '" +:+ py_str tid_raw
                     +:+ "' -> auto-assigned " +:+ Str.of_Z tid]));
  (* title *)
  let stripped := Str.strip (py_str (default (PStr "") (t !! "title"))) in
  let title := if String.eqb stripped "" then "Untitled Task " +:+ Str.of_Z tid else stripped in
  (* due_date *)
  do due <- _parse_date (raw_get t "due_date");
  let w_due :=
    if negb (in_none_empty_list (raw_get t "due_date")) && bool_decide (due = None)
    then ["Task " +:+ Str.of_Z tid +:+ ": invalid due_date -> treated as missing"] else [] in
  (* hours *)
  do hours <- _parse_float (raw_get t "estimated_hours");
  let w_hours :=
    if negb (in_none_empty_list (raw_get t "estimated_hours")) && bool_decide (hours = None)
    then ["Task " +:+ Str.of_Z tid
            +:+ ": estimated_hours must be a positive number -> treated as missing"] else [] in
  (* importance *)
  do importance <- _clamp_int (raw_get t "importance") 1 10;
  let w_imp :=
    if negb (in_none_empty_list (raw_get t "importance")) && bool_decide (importance = None)
    then ["Task " +:+ Str.of_Z tid +:+ ": invalid importance -> treated as missing"] else [] in
  (* dependencies *)
  let deps_raw := if py_truthy (raw_get t "dependencies") then raw_get t "dependencies" else PList [] in
  let '(deps_list, w_list) :=
    match deps_raw with
    | PList l => (l, [])
    | _ => ([], ["Task " +:+ Str.of_Z tid +:+ ": dependencies is not a list -> ignored"])
    end in
  let '(deps, w_deps) := convert_deps tid deps_list in
  Ok (Task.mkTask tid title due hours importance deps,
      w_id ++ w_due ++ w_hours ++ w_imp ++ w_list ++ w_deps).

(** [for idx, t in enumerate(raw_tasks)]: the tasks and the warnings are
    appended in input order. *)
Fixpoint normalize_from (idx : Z) (raw_tasks : list RawTask)
    : result (list NormalizedTask * list string) :=
  match raw_tasks with
  | [] => Ok ([], [])
  | t :: rest =>
      do '(task, warns) <- normalize_one idx t;
      do '(tasks, warnings) <- normalize_from (idx + 1) rest;
      Ok (task :: tasks, warns ++ warnings)
  end.

Definition normalize_tasks (raw_tasks : list RawTask)
    : result (list NormalizedTask * list string) :=
  normalize_from 0 raw_tasks.

End Normalizer.

(** ** Python containers *)

(** [for x in l: s = f(s, x)] where the body may raise. *)
Fixpoint foldM {A S : Type} (f : S → A → result S) (s : S) (l : list A) : result S :=
  match l with
  | [] => Ok s
  | x :: l' => do s' <- f s x; foldM f s' l'
  end.

(** A [dict] with integer keys that is iterated over: the keys in
    insertion order and the map. Assigning to a key that is present keeps
    its position. *)
Record odict (V : Type) : Type := mkOdict {
  od_keys : list Z;
  od_map : gmap Z V
}.
Arguments mkOdict {V} _ _.
Arguments od_keys {V} _.
Arguments od_map {V} _.

Definition od_empty {V : Type} : odict V := mkOdict [] ∅.

(** [k in d] *)
Definition od_mem {V : Type} (k : Z) (d : odict V) : bool :=
  bool_decide (is_Some (od_map d !! k)).

(** [d[k] = v] *)
Definition od_insert {V : Type} (k : Z) (v : V) (d : odict V) : odict V :=
  mkOdict (if od_mem k d then od_keys d else od_keys d ++ [k]) (<[k:=v]> (od_map d)).

(** [d[k]] *)
Definition od_getitem {V : Type} (d : odict V) (k : Z) : result V :=
  match od_map d !! k with
  | Some v => Ok v
  | None => Raise KeyError
  end.

(** [d.items()] *)
Definition od_items {V : Type} (d : odict V) : list (Z * V) :=
  omap (fun k => (fun v => (k, v)) <$> od_map d !! k) (od_keys d).

(** [l.pop()]: the last element is removed and returned. *)
Definition list_pop {A : Type} (l : list A) : result (list A * A) :=
  match List.rev l with
  | [] => Raise IndexError
  | x :: r => Ok (List.rev r, x)
  end.

(** [l.index(v)]: the position of the first occurrence. *)
Fixpoint list_index (v : Z) (l : list Z) : result nat :=
  match l with
  | [] => Raise ValueError
  | x :: l' => if x =? v then Ok O else do i <- list_index v l'; Ok (S i)
  end.

(** [v in l] *)
Definition list_mem (v : Z) (l : list Z) : bool := bool_decide (v ∈ l).

(** [l.sort(key=key)], where [ltb] is [<] on the keys. The sort is stable:
    an element is placed before the first element of the sorted rest whose
    key is not smaller than its own. *)
Section ListSort.
Context {A K : Type} (key : A → K) (ltb : K → K → bool).

Fixpoint sort_insert (x : A) (l : list A) : list A :=
  match l with
  | [] => [x]
  | y :: l' =>
      if ltb (key y) (key x) then y :: sort_insert x l'
      else x :: y :: l'
  end.

Definition list_sort (l : list A) : list A := foldr sort_insert [] l.

End ListSort.

(** ** Graph utilities *)

Section Graph.

(** [reverse[dep].append(tid)] *)
Definition reverse_append (tid : Z) (reverse : gmap Z (list Z)) (dep : Z)
    : result (gmap Z (list Z)) :=
  match reverse !! dep with
  | Some l => Ok (<[dep := l ++ [tid]]> reverse)
  | None => Raise KeyError
  end.

(** A dict comprehension [{t.id: f(t) for t in tasks}], starting from [d0]. *)
Definition comprehension {V : Type} (f : NormalizedTask → V) (d0 : odict V)
    (tasks : list NormalizedTask) : odict V :=
  foldl (fun d t => od_insert (Task.id t) (f t) d) d0 tasks.

(** [{t.id: t for t in tasks}] *)
Definition tasks_by_id_of (tasks : list NormalizedTask) : odict NormalizedTask :=
  comprehension (fun t => t) od_empty tasks.

(** [{t.id: [d for d in t.dependencies if d in tasks_by_id] for t in tasks}] *)
Definition forward_of (tasks : list NormalizedTask) : odict (list Z) :=
  comprehension
    (fun t => filter (fun d' => Is_true (od_mem d' (tasks_by_id_of tasks))) (Task.dependencies t))
    od_empty tasks.

(** [{t.id: [] for t in tasks}], starting from [m]. *)
Definition reverse_init (tasks : list NormalizedTask) (m : gmap Z (list Z)) : gmap Z (list Z) :=
  foldl (fun m t => <[Task.id t := []]> m) m tasks.

Definition _build_graph (tasks : list NormalizedTask)
    : result (odict NormalizedTask * odict (list Z) * gmap Z (list Z)) :=
  let tasks_by_id := tasks_by_id_of tasks in
  (* forward edges: task -> its dependencies *)
  let forward := forward_of tasks in
  (* reverse edges: dep -> tasks that depend on dep *)
  do reverse <-
    foldM (fun rv '(tid, deps) => foldM (reverse_append tid) rv deps)
      (reverse_init tasks ∅) (od_items forward);
  Ok (tasks_by_id, forward, reverse).

(** The variables [state], [stack] and [cycles] that the closure [dfs]
    of [detect_cycles] updates. *)
Record dfs_state : Type := mkDfs {
  state : gmap Z Z;  (* 0=unvisited, 1=visiting, 2=visited *)
  stack : list Z;
  cycles : list (list Z)
}.

(** [state.get(v, 0)] *)
Definition state_get (s : dfs_state) (v : Z) : Z := default 0 (state s !! v).

(** The [for v in tasks_by_id[u].dependencies] loop of [dfs]; [rec] is the
    recursive call. *)
Fixpoint dfs_edges (rec : Z → dfs_state → result dfs_state)
    (tasks_by_id : odict NormalizedTask) (vs : list Z) (s : dfs_state) : result dfs_state :=
  match vs with
  | [] => Ok s
  | v :: vs' =>
      if negb (od_mem v tasks_by_id) then dfs_edges rec tasks_by_id vs' s
      else if state_get s v =? 0 then
        do s' <- rec v s; dfs_edges rec tasks_by_id vs' s'
      else if bool_decide (state s !! v = Some 1) && list_mem v (stack s) then
        do i <- list_index v (stack s);
        dfs_edges rec tasks_by_id vs'
          (mkDfs (state s) (stack s) (cycles s ++ [drop i (stack s) ++ [v]]))
      else dfs_edges rec tasks_by_id vs' s
  end.

Fixpoint dfs (fuel : nat) (tasks_by_id : odict NormalizedTask) (u : Z) (s : dfs_state)
    : result dfs_state :=
  match fuel with
  | O => Raise OutOfFuel
  | S fuel' =>
      let s1 := mkDfs (<[u:=1]> (state s)) (stack s ++ [u]) (cycles s) in
      do t <- od_getitem tasks_by_id u;
      do s2 <- dfs_edges (dfs fuel' tasks_by_id) tasks_by_id (Task.dependencies t) s1;
      do '(stack', _) <- list_pop (stack s2);
      Ok (mkDfs (<[u:=2]> (state s2)) stack' (cycles s2))
  end.

(** Return cycles in the dependency graph using DFS. The recursion depth
    of [dfs] is at most the number of ids, which is the fuel given to each
    root. *)
Definition detect_cycles (tasks_by_id : odict NormalizedTask) : result (list (list Z)) :=
  let fuel := length (od_keys tasks_by_id) in
  do s <-
    foldM (fun s tid => if state_get s tid =? 0 then dfs fuel tasks_by_id tid s else Ok s)
      (mkDfs ∅ [] []) (od_keys tasks_by_id);
  Ok (cycles s).

Definition _cycle_nodes (cycles : list (list Z)) : gset Z :=
  foldl (fun s c => foldl (fun s x => {[x]} ∪ s) s c) ∅ cycles.

(** [reverse.get(u, [])] *)
Definition reverse_get (reverse : gmap Z (list Z)) (u : Z) : list Z :=
  default [] (reverse !! u).

(** The [while stack:] loop of [_downstream_block_count]. *)
Fixpoint downstream_loop (fuel : nat) (reverse : gmap Z (list Z)) (seen : gset Z)
    (stack : list Z) : result (gset Z) :=
  match stack with
  | [] => Ok seen
  | _ =>
      match fuel with
      | O => Raise OutOfFuel
      | S fuel' =>
          do '(stack', u) <- list_pop stack;
          if bool_decide (u ∈ seen) then downstream_loop fuel' reverse seen stack'
          else downstream_loop fuel' reverse ({[u]} ∪ seen) (stack' ++ reverse_get reverse u)
      end
  end.

(** Every iteration pops one id and only an id seen for the first time
    pushes its dependents, so the loop runs at most as often as the
    initial stack and all the lists of [reverse] are long. *)
Definition downstream_fuel (reverse : gmap Z (list Z)) (stack : list Z) : nat :=
  (length stack + sum_list (length <$> (map_to_list reverse).*2))%nat.

(** The set [seen] at the end of [_downstream_block_count]. *)
Definition downstream_seen (task_id : Z) (reverse : gmap Z (list Z)) : result (gset Z) :=
  let stack := reverse_get reverse task_id in
  downstream_loop (downstream_fuel reverse stack) reverse ∅ stack.

(** Count tasks that (directly or transitively) depend on task_id. *)
Definition _downstream_block_count (task_id : Z) (reverse : gmap Z (list Z)) : result Z :=
  do seen <- downstream_seen task_id reverse;
  Ok (Z.of_nat (size seen)).

End Graph.

(** ** Strategy weights *)

Record StrategyWeights : Type := mkWeights {
  w_urgency : R;
  w_importance : R;
  w_quickwin : R;
  w_blocker : R
}.

Definition STRATEGY_WEIGHTS : gmap string StrategyWeights :=
  list_to_map
    [ ("fastest_wins", mkWeights 0.15 0.15 0.60 0.10);
      ("high_impact", mkWeights 0.15 0.65 0.05 0.15);
      ("deadline_driven", mkWeights 0.75 0.20 0.03 0.02);
      ("smart_balance", mkWeights 0.40 0.35 0.15 0.10) ]%R.

Definition DEFAULT_STRATEGY : string := "smart_balance".

Definition INDIA_HOLIDAYS_FIXED : gset (Z * Z) :=
  {[ (1, 1); (1, 26); (5, 1); (8, 15); (10, 2); (12, 25) ]}.

(** ** Scoring components (0..1) *)

Section Scoring.
Context `{Builtins}.

Definition _is_non_working_day (candidate : date) : bool :=
  (5 <=? Date.weekday candidate) ||
  bool_decide ((Date.month candidate, Date.day candidate) ∈ INDIA_HOLIDAYS_FIXED).

(** The [while cursor < due] loop of [_working_days_until]. *)
Fixpoint working_days_loop (fuel : nat) (cursor due : date) (days : Z) : result Z :=
  if Date.ltb cursor due then
    match fuel with
    | O => Raise OutOfFuel
    | S fuel' =>
        let days' := if negb (_is_non_working_day cursor) then days + 1 else days in
        do cursor' <- Date.add_one_day cursor;
        working_days_loop fuel' cursor' due days'
    end
  else Ok days.

(** The loop runs once for each day from [today] up to [due], which is the
    fuel it is given. *)
Definition _working_days_until (due : date) (today : option date) : result Z :=
  let today := default date_today today in
  if Date.ltb due today then Ok (-1)
  else working_days_loop (Z.to_nat (Date.toordinal due - Date.toordinal today)) today due 0.

Definition _urgency (due : option date) (today : option date) : result R :=
  let today := default date_today today in
  match due with
  | None => Ok 0.25%R
  | Some due =>
      do working_days <- _working_days_until due (Some today);
      if working_days <? 0 then Ok 1%R
      else
        let k := 5%R in
        Float.div 1 (1 + IZR working_days / k)
  end.

Definition _importance (imp : option Z) : R :=
  let v := default 5 imp in
  (IZR (v - 1) / 9)%R.

Definition _quickwin (hours : option R) (max_hours : R) : result R :=
  let hours := default 4%R hours in
  if decide (max_hours <= 0)%R then Ok 0.6%R
  else
    do a <- Float.log1p hours;
    do b <- Float.log1p max_hours;
    do x <- Float.div a b;
    Ok (Float.max2 0 (Float.min2 1 (1 - x))).

Definition _blocker_score (block_count : Z) (cap : Z) : result R :=
  do q <- Float.div (IZR block_count) (IZR cap);
  Ok (Float.max2 0 (Float.min2 1 q)).

(** ** Main scoring *)

(** A scored record, the dict appended to [scored]. *)
Record ScoredTask : Type := mkScored {
  s_id : Z;
  s_title : string;
  s_due_date : option string;
  s_estimated_hours : option R;
  s_importance : Z;
  s_dependencies : list Z;
  s_dependents : Z;
  s_score : R;
  s_explanation : string
}.

(** The values computed by one iteration of the loop of [score_tasks]. *)
Record Factors : Type := mkFactors {
  f_u : R;
  f_im : R;
  f_qw : R;
  f_downstream : Z;
  f_bl : R;
  f_base : R;
  f_cycle_penalty : R;
  f_final : R
}.

(** [t.estimated_hours or 0] *)
Definition hours_or_0 (t : NormalizedTask) : R :=
  match Task.estimated_hours t with
  | Some h => if decide (h = 0)%R then 0%R else h
  | None => 0%R
  end.

Definition max_hours_of (tasks : list NormalizedTask) : result R :=
  Float.max_list ((hours_or_0 <$> tasks) ++ [1%R]).

Definition task_factors (weights : StrategyWeights) (max_hours : R)
    (reverse : gmap Z (list Z)) (cycle_set : gset Z) (today : option date)
    (t : NormalizedTask) : result Factors :=
  do u <- _urgency (Task.due_date t) today;
  let im := _importance (Task.importance t) in
  do qw <- _quickwin (Task.estimated_hours t) max_hours;
  do downstream <- _downstream_block_count (Task.id t) reverse;
  do bl <- _blocker_score downstream 8;
  let base :=
    (w_urgency weights * u + w_importance weights * im
     + w_quickwin weights * qw + w_blocker weights * bl)%R in
  (* 15% reduction if part of any cycle *)
  let cycle_penalty := if bool_decide (Task.id t ∈ cycle_set) then 0.15%R else 0%R in
  let final := (base * (1 - cycle_penalty))%R in
  Ok (mkFactors u im qw downstream bl base cycle_penalty final).

Definition percent (x : R) : string := Str.of_Z (Float.round_half_even (x * 100)).

Definition scored_record (strategy_key : string) (t : NormalizedTask) (f : Factors)
    : ScoredTask :=
  mkScored (Task.id t) (Task.title t)
    (isoformat <$> Task.due_date t)
    (Task.estimated_hours t)
    (default 5 (Task.importance t))
    (Task.dependencies t)
    (f_downstream f)
    (Float.round2 (f_final f * 100))
    ("U=" +:+ percent (f_u f) +:+ "%, I=" +:+ percent (f_im f) +:+ "%, QW="
       +:+ percent (f_qw f) +:+ "%, Block=" +:+ Str.of_Z (f_downstream f) +:+ " ("
       +:+ percent (f_bl f) +:+ "%), cycle_penalty="
       +:+ Str.of_Z (Float.trunc (f_cycle_penalty f * 100)) +:+ "% (strategy="
       +:+ strategy_key +:+ ")").

(** The key of [_sort_key]: [(-score, due, -importance)]. *)
Definition _sort_key (x : ScoredTask) : R * string * Z :=
  let due :=
    match s_due_date x with
    | Some s => if String.eqb s "" then "9999-12-31" else s
    | None => "9999-12-31"
    end in
  ((- s_score x)%R, due, - (if s_importance x =? 0 then 5 else s_importance x)).

(** [k1 < k2] for two such tuples: the first components that differ decide. *)
Definition key_ltb (k1 k2 : R * string * Z) : bool :=
  let '(a1, b1, c1) := k1 in
  let '(a2, b2, c2) := k2 in
  if negb (bool_decide (a1 = a2)) then bool_decide (a1 < a2)%R
  else if negb (String.eqb b1 b2) then String.ltb b1 b2
  else c1 <? c2.

Definition sort_scored (l : list ScoredTask) : list ScoredTask :=
  list_sort _sort_key key_ltb l.

Record ScoreOutput : Type := mkOutput {
  out_tasks : list ScoredTask;
  out_cycles : list (list Z);
  out_strategy_used : string
}.

(** The scored records in input order, before [scored.sort]. *)
Fixpoint score_loop (strategy_key : string) (weights : StrategyWeights) (max_hours : R)
    (reverse : gmap Z (list Z)) (cycle_set : gset Z) (today : option date)
    (tasks : list NormalizedTask) : result (list ScoredTask) :=
  match tasks with
  | [] => Ok []
  | t :: rest =>
      do f <- task_factors weights max_hours reverse cycle_set today t;
      do scored <- score_loop strategy_key weights max_hours reverse cycle_set today rest;
      Ok (scored_record strategy_key t f :: scored)
  end.

Definition strategy_key_of (strategy : string) : string :=
  Str.lower (Str.strip (if String.eqb strategy "" then DEFAULT_STRATEGY else strategy)).

Definition weights_of (strategy_key : string) : result StrategyWeights :=
  do dflt <- match STRATEGY_WEIGHTS !! DEFAULT_STRATEGY with
             | Some w => Ok w
             | None => Raise KeyError
             end;
  Ok (default dflt (STRATEGY_WEIGHTS !! strategy_key)).

Definition score_tasks (tasks : list NormalizedTask) (strategy : string)
    (today : option date) : result ScoreOutput :=
  let strategy_key := strategy_key_of strategy in
  do weights <- weights_of strategy_key;
  do '(tasks_by_id, _forward, reverse) <- _build_graph tasks;
  do cycles <- detect_cycles tasks_by_id;
  let cycle_set := _cycle_nodes cycles in
  (* for quickwin normalization *)
  do max_hours <- max_hours_of tasks;
  do scored <- score_loop strategy_key weights max_hours reverse cycle_set today tasks;
  Ok (mkOutput (sort_scored scored) cycles strategy_key).

End Scoring.

(** ** Definitions that follow the wording of the specification

    They are compared with the definitions above in the theorems. *)

Module Spec.

(** The [n] consecutive calendar days that start with [d]. *)
Fixpoint days_from (n : nat) (d : date) : list date :=
  match n with
  | O => []
  | S n' =>
      d :: match Date.add_one_day d with
           | Ok d' => days_from n' d'
           | Raise _ => []
           end
  end.

(** The calendar days from the reference date up to, but not including,
    the due date. *)
Definition calendar_days (today due : date) : list date :=
  days_from (Z.to_nat (Date.toordinal due - Date.toordinal today)) today.

(** Saturday is weekday 5 and Sunday is weekday 6. *)
Definition is_weekend (d : date) : bool :=
  (Date.weekday d =? 5) || (Date.weekday d =? 6).

Definition FIXED_HOLIDAYS : list (Z * Z) :=
  [(1, 1); (1, 26); (5, 1); (8, 15); (10, 2); (12, 25)].

Definition is_holiday (d : date) : bool :=
  bool_decide ((Date.month d, Date.day d) ∈ FIXED_HOLIDAYS).

Definition is_working_day (d : date) : bool :=
  negb (is_weekend d) && negb (is_holiday d).

(** The number of working days among the calendar days from [today] up to,
    but not including, [due]. *)
Definition working_days (today due : date) : Z :=
  Z.of_nat (length (filter (fun d => Is_true (is_working_day d)) (calendar_days today due))).

(** [1 / (1 + w/5)] *)
Definition urgency_decay (w : Z) : R := (1 / (1 + IZR w / 5))%R.

(** The task [t] with the due date [d]: identical in all other fields. *)
Definition with_due (t : NormalizedTask) (d : date) : NormalizedTask :=
  Task.mkTask (Task.id t) (Task.title t) (Some d) (Task.estimated_hours t)
    (Task.importance t) (Task.dependencies t).

(** The maximum estimated hours over the batch, absent hours contributing
    0, floored at 1.0. *)
Definition batch_max_hours (tasks : list NormalizedTask) : R :=
  Rmax 1 (fold_right Rmax 0%R ((fun t => default 0%R (Task.estimated_hours t)) <$> tasks)).

(** [max(0, min(1, 1 - ln(1+h)/ln(1+max_hours)))] *)
Definition quickwin_formula (h max_hours : R) : R :=
  Rmax 0 (Rmin 1 (1 - ln (1 + h) / ln (1 + max_hours))).

(** The weights of [smart_balance], the default strategy. *)
Definition smart_balance_weights : StrategyWeights := mkWeights 0.40 0.35 0.15 0.10.

(** The weights used for a strategy key: those of the key if it names a
    strategy, those of [smart_balance] otherwise. *)
Definition weights_for (strategy_key : string) : StrategyWeights :=
  default smart_balance_weights (STRATEGY_WEIGHTS !! strategy_key).

(** [a] depends on [b]: [b] is one of the dependencies kept for [a]. *)
Definition depends (forward : odict (list Z)) (a b : Z) : Prop :=
  ∃ l, od_map forward !! a = Some l ∧ b ∈ l.

(** [b] is a direct dependent of [a]. *)
Definition dependent_of (reverse : gmap Z (list Z)) (a b : Z) : Prop :=
  b ∈ reverse_get reverse a.

(** 9999-12-31, the largest date. *)
Definition date_max : date := Date.mkDate 9999 12 31 I.

(** A task with the factors computed for it. *)
Definition Ranked : Type := NormalizedTask * Factors.

(** The scored record of a task and its factors. *)
Definition record_of (strategy_key : string) (a : Ranked) : ScoredTask :=
  scored_record strategy_key a.1 a.2.

Definition rank_score (a : Ranked) : R := Float.round2 (f_final a.2 * 100).
Definition rank_importance (a : Ranked) : Z := default 5 (Task.importance a.1).

(** The due date with a missing one taken as the largest date. *)
Definition due_or_max (a : Ranked) : date := default date_max (Task.due_date a.1).

(** [a] has to come before [b]: a higher score, then an earlier due date
    (a missing one as 9999-12-31), then a higher importance (a missing one
    as 5). *)
Definition outranks (a b : Ranked) : Prop :=
  (rank_score b < rank_score a)%R ∨
  (rank_score a = rank_score b ∧
   (Date.lt (due_or_max a) (due_or_max b) ∨
    (due_or_max a = due_or_max b ∧ rank_importance b < rank_importance a))).

(** The due dates ordered with a task without a due date after every task
    with one. *)
Definition due_before_claimed (d1 d2 : option date) : Prop :=
  match d1, d2 with
  | Some a, Some b => Date.lt a b
  | Some _, None => True
  | None, _ => False
  end.

(** [outranks] with the due dates ordered by [due_before_claimed]. *)
Definition outranks_claimed (a b : Ranked) : Prop :=
  (rank_score b < rank_score a)%R ∨
  (rank_score a = rank_score b ∧
   (due_before_claimed (Task.due_date a.1) (Task.due_date b.1) ∨
    (Task.due_date a.1 = Task.due_date b.1 ∧ rank_importance b < rank_importance a))).

(** Neither of [a] and [b] has to come before the other. *)
Definition unordered (outranks : Ranked → Ranked → Prop) (a b : Ranked) : Prop :=
  ¬ outranks a b ∧ ¬ outranks b a.

End Spec.

Section SpecRun.
Context `{Builtins}.

(** The id given to the record [t] at position [idx]: the integer value of
    its id, or [idx + 1] when it has none or [int()] rejects it. *)
Definition assigned_id (idx : Z) (t : RawTask) : Z :=
  match py_int (default (PInt (idx + 1)) (t !! "id")) with
  | Ok z => z
  | Raise _ => idx + 1
  end.

(** The record [t] gets its id from its position. *)
Definition auto_assigned (t : RawTask) : Prop :=
  match t !! "id" with
  | None => True
  | Some v => ∃ e, py_int v = Raise e
  end.

(** The values of one run of [score_tasks]: its result [out], the reverse
    edges and the factors of the tasks, in input order. *)
Definition scoring_run (tasks : list NormalizedTask) (strategy : string)
    (today : option date) (out : ScoreOutput) (reverse : gmap Z (list Z))
    (fs : list Factors) : Prop :=
  score_tasks tasks strategy today = Ok out ∧
  _build_graph tasks = Ok (tasks_by_id_of tasks, forward_of tasks, reverse) ∧
  detect_cycles (tasks_by_id_of tasks) = Ok (out_cycles out) ∧
  max_hours_of tasks = Ok (Spec.batch_max_hours tasks) ∧
  Forall2 (fun t f =>
             task_factors (Spec.weights_for (strategy_key_of strategy))
               (Spec.batch_max_hours tasks) reverse (_cycle_nodes (out_cycles out))
               today t = Ok f) tasks fs ∧
  out_tasks out =
    sort_scored (zip_with (scored_record (strategy_key_of strategy)) tasks fs).

(** What it means that [score_tasks] ranks a batch by [outranks]: its
    result is the list of the scored records of [ranked], which holds the
    tasks of the batch, each with its factors, sorted by [outranks], tasks
    between which [outranks] does not decide staying in input order. *)
Definition ranked_output (outranks : Spec.Ranked → Spec.Ranked → Prop)
    `{∀ a b, Decision (outranks a b)}
    (tasks : list NormalizedTask) (strategy : string) (today : option date) : Prop :=
  ∃ out reverse fs ranked,
    scoring_run tasks strategy today out reverse fs ∧
    out_tasks out = Spec.record_of (strategy_key_of strategy) <$> ranked ∧
    ranked ≡ₚ zip tasks fs ∧
    StronglySorted (fun a b => ¬ outranks b a) ranked ∧
    ∀ a, filter (Spec.unordered outranks a) ranked =
         filter (Spec.unordered outranks a) (zip tasks fs).

End SpecRun.

(** ** Concrete inputs

    The batches and the environment on which the definitions are evaluated
    in the examples. *)

Module Examples.
Import Spec.

Fixpoint before_dot (l : list ascii) : list ascii :=
  match l with
  | [] => []
  | c :: l' => if Ascii.eqb c "." then [] else c :: before_dot l'
  end.

Fixpoint after_dot (l : list ascii) : list ascii :=
  match l with
  | [] => []
  | c :: l' => if Ascii.eqb c "." then l' else after_dot l'
  end.

(** [float(s)] for a plain decimal literal [digits] or [digits.digits]. *)
Definition simple_float (s : string) : option R :=
  let l := list_ascii_of_string (Str.strip s) in
  let ip := before_dot l in
  let fp := after_dot l in
  match Str.parse_digits 0 false ip with
  | Some i =>
      match fp with
      | [] => Some (IZR i)
      | _ =>
          match Str.parse_digits 0 false fp with
          | Some f => Some (IZR i + IZR f / IZR (10 ^ Z.of_nat (length fp)))%R
          | None => None
          end
      end
  | None => None
  end.

(** An environment for the examples: the call is made on 2025-11-30 by an
    interpreter older than Python 3.11. None of the examples converts a
    float, a list or a dict to a string. *)
Definition env : Builtins :=
  {| repr_other := fun _ => "";
     str_to_float := simple_float;
     fromisoformat_ext := fun _ => None;
     date_today := Date.mkDate 2025 11 30 I |}.

(** A task with the id, the due date and the dependencies given, and
    without estimated hours and importance. *)
Definition task (i : Z) (due : option date) (deps : list Z) : NormalizedTask :=
  Task.mkTask i "Task" due None None deps.

Definition d_9999_12_10 : date := Date.mkDate 9999 12 10 I.

(** An undated task followed by a task due on 9999-12-31. *)
Definition tie_batch : list NormalizedTask := [task 1 None []; task 2 (Some date_max) []].

(** The batch [1 -> [2], 2 -> [1]]; the other fields are arbitrary. *)
Definition two_cycle (title1 title2 : string) (due1 due2 : option date)
    (hours1 hours2 : option R) (imp1 imp2 : option Z) : list NormalizedTask :=
  [Task.mkTask 1 title1 due1 hours1 imp1 [2]; Task.mkTask 2 title2 due2 hours2 imp2 [1]].

(** The batch [1 -> [], 2 -> []]. *)
Definition no_edges (title1 title2 : string) (due1 due2 : option date)
    (hours1 hours2 : option R) (imp1 imp2 : option Z) : list NormalizedTask :=
  [Task.mkTask 1 title1 due1 hours1 imp1 []; Task.mkTask 2 title2 due2 hours2 imp2 []].

(** A batch in which task 1 lies on two cycles. *)
Definition two_cycles_through_1 : list NormalizedTask :=
  [task 1 None [2; 3]; task 2 None [1]; task 3 None [1]].

(** The malformed record of the normalisation scenario. *)
Definition garbage : RawTask :=
  {[ "id" := PStr "100"; "due_date" := PStr "Tomorrow"; "estimated_hours" := PInt (-5);
     "importance" := PStr "High"; "dependencies" := PStr "None" ]}.

Definition garbage_task : NormalizedTask :=
  Task.mkTask 100 "Untitled Task 100" None None None [].

Definition garbage_warnings : list string :=
  ["Task 100: invalid due_date -> treated as missing";
   "Task 100: estimated_hours must be a positive number -> treated as missing";
   "Task 100: invalid importance -> treated as missing";
   "Task 100: dependencies is not a list -> ignored"].

(** A record with the id 2 followed by a record without an id. *)
Definition clash : list RawTask := [{[ "id" := PInt 2 ]}; ∅].

Definition sample_task : NormalizedTask :=
  Task.mkTask 1 "Holiday Crunch" None (Some 2%R) (Some 5) [].

Definition d_2025_10_01 : date := Date.mkDate 2025 10 1 I.
Definition d_2025_10_03 : date := Date.mkDate 2025 10 3 I.
Definition d_2025_11_05 : date := Date.mkDate 2025 11 5 I.
Definition d_2025_11_07 : date := Date.mkDate 2025 11 7 I.

End Examples.

(** ** The scored records as Python values *)

(** The dict that [score_tasks] appends to [scored], as a record of
    Python values. *)
Definition scored_dict (x : ScoredTask) : RawTask :=
  {[ "id" := PInt (s_id x);
     "title" := PStr (s_title x);
     "due_date" := from_option PStr PNone (s_due_date x);
     "estimated_hours" := from_option PFloat PNone (s_estimated_hours x);
     "importance" := PInt (s_importance x);
     "dependencies" := PList (PInt <$> s_dependencies x);
     "dependents" := PInt (s_dependents x);
     "score" := PFloat (s_score x);
     "explanation" := PStr (s_explanation x) ]}.

(** ** Definitions used to state further properties *)

(** The fields of a scored record but its explanation. *)
Definition without_explanation (x : ScoredTask)
    : Z * string * option string * option R * Z * list Z * Z * R :=
  (s_id x, s_title x, s_due_date x, s_estimated_hours x, s_importance x,
   s_dependencies x, s_dependents x, s_score x).

(** The task [t] with a missing importance replaced by 5. *)
Definition explicit_importance (t : NormalizedTask) : NormalizedTask :=
  Task.mkTask (Task.id t) (Task.title t) (Task.due_date t) (Task.estimated_hours t)
    (Some (default 5 (Task.importance t))) (Task.dependencies t).

(** The batch [1 -> [3; 2]], [2 -> [3]], [3 -> [1]]: the id 2 is on the
    cycle [1 -> 2 -> 3 -> 1], which the search does not record. *)
Definition missed_cycle : list NormalizedTask :=
  [ Task.mkTask 1 "a" None None None [3; 2];
    Task.mkTask 2 "b" None None None [3];
    Task.mkTask 3 "c" None None None [1] ].

(** The tasks of [missed_cycle] in the order 2, 3, 1. *)
Definition missed_cycle_rotated : list NormalizedTask :=
  [ Task.mkTask 2 "b" None None None [3];
    Task.mkTask 3 "c" None None None [1];
    Task.mkTask 1 "a" None None None [3; 2] ].

(** The batch [1 -> [2]], [2 -> []]. *)
Definition chain_batch : list NormalizedTask :=
  [ Task.mkTask 1 "a" None None None [2];
    Task.mkTask 2 "b" None None None [] ].

(** ** The REST views ([backend/tasks/views.py])

    [request.data] is the decoded JSON body; a list is taken to hold JSON
    objects. The global [LAST_SCORED] is passed in and returned. *)

Module Views.

Inductive RequestData : Type :=
| DataList (tasks : list RawTask)
| DataOther.

Inductive Response : Type :=
| BadRequest (error : string)
| Analyzed (result : ScoreOutput) (warnings : list string)
| TopTasks (tasks : list ScoredTask).

Section Views.
Context `{Builtins}.

Definition analyze_tasks (data : RequestData) (strategy_param : option string)
    (LAST_SCORED : option (list ScoredTask))
    : result (Response * option (list ScoredTask)) :=
  match data with
  | DataOther => Ok (BadRequest "Expected a JSON array (list) of tasks.", LAST_SCORED)
  | DataList raw =>
      let strategy := default DEFAULT_STRATEGY strategy_param in
      do '(tasks, warnings) <- normalize_tasks raw;
      do result <- score_tasks tasks strategy None;
      Ok (Analyzed result warnings, Some (out_tasks result))
  end.

Definition suggest_tasks (LAST_SCORED : option (list ScoredTask)) : Response :=
  match LAST_SCORED with
  | None | Some [] =>
      BadRequest "No tasks analyzed yet. Call POST /api/tasks/analyze/ first."
  | Some scored => TopTasks (take 3 scored)
  end.

End Views.

End Views.

(** ** The API layer of [scoring.py]

    The request models are taken as the framework hands them to the
    endpoint functions, after its validation of the field types. *)

Module Api.

Record TaskPayload : Type := mkPayload {
  title : option string;
  due_date : option string;
  estimated_hours : option R;
  importance : option Z;
  dependencies : list Z;
  id : option Z
}.

(** [task.dict()] *)
Definition dict (task : TaskPayload) : RawTask :=
  {[ "title" := from_option PStr PNone (title task);
     "due_date" := from_option PStr PNone (due_date task);
     "estimated_hours" := from_option PFloat PNone (estimated_hours task);
     "importance" := from_option PInt PNone (importance task);
     "dependencies" := PList (PInt <$> dependencies task);
     "id" := from_option PInt PNone (id task) ]}.

Record AnalyzeRequest : Type := mkRequest {
  tasks : list TaskPayload;
  strategy : option string;
  today : option date
}.

(** The validator of [AnalyzeRequest.strategy]. *)
Definition validate_strategy (value : option string) : result string :=
  match value with
  | None => Ok DEFAULT_STRATEGY
  | Some value =>
      let value := Str.lower (Str.strip value) in
      if bool_decide (is_Some (STRATEGY_WEIGHTS !! value)) then Ok value
      else Raise ValueError
  end.

(** The JSON response of [analyze_tasks]: the result of [score_tasks] and
    the warnings. *)
Record AnalyzeResponse : Type := mkResponse {
  scored : ScoreOutput;
  warnings : list string
}.

Inductive HTTPException : Type :=
| Http400 (detail : string)
| Http422 (warnings : list string).

Record SuggestionResponse : Type := mkSuggestion {
  sg_id : Z;
  sg_title : string;
  sg_score : R;
  sg_due_date : option string;
  sg_importance : Z;
  sg_estimated_hours : option R;
  sg_dependents : Z;
  sg_dependencies : list Z;
  sg_explanation : string
}.

(** [sep.join(parts)] *)
Fixpoint join (sep : string) (parts : list string) : string :=
  match parts with
  | [] => ""
  | [p] => p
  | p :: rest => p +:+ sep +:+ join sep rest
  end.

(** [l[:n]] *)
Definition slice_to {A : Type} (n : Z) (l : list A) : list A :=
  if 0 <=? n then take (Z.to_nat n) l else take (Z.to_nat (Z.of_nat (length l) + n)) l.

Section Api.
Context `{Builtins}.

Definition analyze_tasks (payload : AnalyzeRequest) : result AnalyzeResponse :=
  let raw_tasks := dict <$> tasks payload in
  do '(tasks, warnings) <- normalize_tasks raw_tasks;
  let strategy :=
    match strategy payload with
    | Some s => if String.eqb s "" then DEFAULT_STRATEGY else s
    | None => DEFAULT_STRATEGY
    end in
  do scored <- score_tasks tasks strategy (today payload);
  let warnings :=
    match out_cycles scored with
    | [] => warnings
    | _ => warnings ++ ["Dependency cycles detected; scores include a penalty."]
    end in
  Ok (mkResponse scored warnings).

Definition _reason_for_task (task : ScoredTask) : result string :=
  let parts := ["Priority " +:+ py_str (PFloat (s_score task)) +:+ "/100"] in
  do due_date_value <-
    match s_due_date task with
    | Some due_str =>
        if String.eqb due_str "" then Ok None
        else
          try_except (do d <- fromisoformat due_str; Ok (Some d))
            (fun e => match e with ValueError => Ok None | _ => Raise e end)
    | None => Ok None
    end;
  do parts <-
    match due_date_value with
    | Some d =>
        do workdays <- _working_days_until d None;
        if workdays <? 0 then Ok (parts ++ ["overdue since " +:+ isoformat d])
        else
          Ok (parts ++ ["due in " +:+ Str.of_Z workdays
                          +:+ " working day(s) (weekends and India holidays skipped)"])
    | None => Ok parts
    end;
  let parts :=
    if negb (s_importance task =? 0)
    then parts ++ ["importance " +:+ Str.of_Z (s_importance task) +:+ "/10"] else parts in
  let parts :=
    match s_estimated_hours task with
    | Some h => parts ++ ["~" +:+ py_str (PFloat h) +:+ "h effort"]
    | None => parts
    end in
  let dependents := if s_dependents task =? 0 then 0 else s_dependents task in
  let parts :=
    if negb (dependents =? 0)
    then parts ++ ["unblocks " +:+ Str.of_Z dependents +:+ " downstream task(s)"] else parts in
  let parts :=
    match s_dependencies task with
    | [] => parts
    | deps => parts ++ ["needs " +:+ Str.of_Z (Z.of_nat (length deps)) +:+ " prerequisite task(s)"]
    end in
  let detail := s_explanation task in
  let parts := if String.eqb detail "" then parts else parts ++ ["details: " +:+ detail] in
  Ok (join "; " (filter (fun p => p ≠ "") parts)).

(** The list comprehension that builds the suggestions. *)
Fixpoint suggestions_of (sorted_tasks : list ScoredTask) : result (list SuggestionResponse) :=
  match sorted_tasks with
  | [] => Ok []
  | t :: rest =>
      do explanation <- _reason_for_task t;
      do suggestions <- suggestions_of rest;
      Ok (mkSuggestion (s_id t) (s_title t) (s_score t) (s_due_date t) (s_importance t)
            (s_estimated_hours t) (s_dependents t) (s_dependencies t) explanation
          :: suggestions)
  end.

(** [suggest_tasks] after [json.loads] has decoded the query parameter
    [tasks]; a raised [HTTPException] is the left alternative. *)
Definition suggest_tasks (parsed_tasks : Views.RequestData) (strategy : string) (limit : Z)
    : result (HTTPException + list SuggestionResponse) :=
  match parsed_tasks with
  | Views.DataOther => Ok (inl (Http400 "Tasks payload must be a JSON array"))
  | Views.DataList raw =>
      do '(normalized, warnings) <- normalize_tasks raw;
      do scored <- score_tasks normalized strategy None;
      let sorted_tasks := slice_to limit (out_tasks scored) in
      match warnings with
      | _ :: _ => Ok (inl (Http422 warnings))
      | [] =>
          do suggestions <- suggestions_of sorted_tasks;
          Ok (inr suggestions)
      end
  end.

End Api.

End Api.


(** * Properties of the embedding *)

(** ** Dates *)

Module DateFacts.
Import Date.

Lemma date_eq (a b : date) :
  year a = year b → month a = month b → day a = day b → a = b.
Proof.
  destruct a as [y m d H], b as [y' m' d' H']; simpl.
  intros -> -> ->. f_equal. apply proof_irrel.
Qed.

#[global] Instance date_eq_dec : EqDecision date.
Proof.
  intros a b.
  destruct (decide (year a = year b ∧ month a = month b ∧ day a = day b))
    as [(? & ? & ?) | Hn].
  - left. by apply date_eq.
  - right. intros ->. by apply Hn.
Defined.

Lemma valid_ymd_spec (y m d : Z) :
  Is_true (valid_ymd y m d) ↔
  1 <= y <= 9999 ∧ 1 <= m <= 12 ∧ 1 <= d <= _days_in_month y m.
Proof.
  unfold valid_ymd, MINYEAR, MAXYEAR.
  rewrite !andb_True, !Is_true_true, !Z.leb_le. lia.
Qed.

Lemma date_bounds (a : date) :
  1 <= year a <= 9999 ∧ 1 <= month a <= 12 ∧
  1 <= day a <= _days_in_month (year a) (month a).
Proof. apply valid_ymd_spec, date_ok. Qed.

Lemma days_before_year_succ (y : Z) :
  _days_before_year (y + 1) = _days_before_year y + 365 + (if _is_leap y then 1 else 0).
Proof.
  unfold _days_before_year, _is_leap.
  replace (y + 1 - 1) with y by lia.
  destruct (Z.eqb_spec (y mod 4) 0), (Z.eqb_spec (y mod 100) 0), (Z.eqb_spec (y mod 400) 0);
    simpl; Z.div_mod_to_equations; lia.
Qed.

Lemma days_before_year_mono (y y' : Z) :
  y <= y' → _days_before_year y <= _days_before_year y'.
Proof.
  intros Hle. unfold _days_before_year. Z.div_mod_to_equations. lia.
Qed.

Ltac month_cases m :=
  let Hc := fresh "Hc" in
  assert (m = 1 ∨ m = 2 ∨ m = 3 ∨ m = 4 ∨ m = 5 ∨ m = 6 ∨ m = 7 ∨ m = 8 ∨ m = 9 ∨
          m = 10 ∨ m = 11 ∨ m = 12) as Hc by lia;
  repeat (destruct Hc as [-> | Hc]); [.. | subst m].

Lemma days_in_month_cases (y m : Z) :
  1 <= m <= 12 →
  _days_before_month y m + _days_in_month y m =
    if m =? 12 then 365 + (if _is_leap y then 1 else 0) else _days_before_month y (m + 1).
Proof.
  intros Hm. unfold _days_before_month, _days_in_month.
  destruct (_is_leap y); month_cases m; reflexivity.
Qed.

Lemma days_in_month_pos (y m : Z) : 1 <= m <= 12 → 28 <= _days_in_month y m <= 31.
Proof.
  intros Hm. unfold _days_in_month. destruct (_is_leap y); month_cases m; simpl; lia.
Qed.

Lemma days_before_month_mono (y m m' : Z) :
  1 <= m → m <= m' → m' <= 12 → _days_before_month y m <= _days_before_month y m'.
Proof.
  intros H1 H2 H3. unfold _days_before_month.
  destruct (_is_leap y); month_cases m; month_cases m'; simpl; lia.
Qed.

Lemma days_before_month_bounds (y m : Z) :
  1 <= m <= 12 →
  0 <= _days_before_month y m ∧
  _days_before_month y m + _days_in_month y m <= 365 + (if _is_leap y then 1 else 0).
Proof.
  intros Hm. unfold _days_before_month, _days_in_month.
  destruct (_is_leap y); month_cases m; simpl; lia.
Qed.

Lemma next_ymd_ord (a : date) :
  let '(y, m, d) := next_ymd a in _ymd2ord y m d = toordinal a + 1.
Proof.
  pose proof (date_bounds a) as (Hy & Hm & Hd).
  pose proof (days_in_month_cases (year a) (month a) Hm) as Hc.
  unfold next_ymd, toordinal.
  destruct (Z.ltb_spec (day a) (_days_in_month (year a) (month a))).
  { unfold _ymd2ord; lia. }
  destruct (Z.ltb_spec (month a) 12).
  { unfold _ymd2ord. destruct (Z.eqb_spec (month a) 12); lia. }
  assert (month a = 12) as Hm12 by lia. rewrite Hm12 in *. simpl in Hc.
  unfold _ymd2ord. rewrite days_before_year_succ.
  change (_days_before_month (year a + 1) 1) with 0. lia.
Qed.

Lemma ltb_spec (a b : date) :
  Is_true (ltb a b) ↔
  year a < year b ∨
  (year a = year b ∧ (month a < month b ∨ (month a = month b ∧ day a < day b))).
Proof.
  unfold ltb. rewrite !orb_True, !andb_True, !orb_True, !andb_True, !Is_true_true.
  rewrite !Z.ltb_lt, !Z.eqb_eq. reflexivity.
Qed.

Lemma toordinal_mono (a b : date) : lt a b → toordinal a < toordinal b.
Proof.
  unfold lt. rewrite ltb_spec.
  pose proof (date_bounds a) as (Hya & Hma & Hda).
  pose proof (date_bounds b) as (Hyb & Hmb & Hdb).
  pose proof (days_before_month_bounds (year a) (month a) Hma) as [Ha0 Ha1].
  pose proof (days_before_month_bounds (year b) (month b) Hmb) as [Hb0 Hb1].
  unfold toordinal, _ymd2ord.
  intros [Hy | [Hy [Hm | [Hm Hd]]]].
  - pose proof (days_before_year_mono (year a + 1) (year b) ltac:(lia)) as Hmono.
    rewrite days_before_year_succ in Hmono. lia.
  - rewrite <- Hy in *.
    pose proof (days_in_month_cases (year a) (month a) Hma) as Hc.
    destruct (Z.eqb_spec (month a) 12); [lia |].
    pose proof (days_before_month_mono (year a) (month a + 1) (month b)
                  ltac:(lia) ltac:(lia) ltac:(lia)). lia.
  - rewrite Hy, Hm. lia.
Qed.

Lemma lt_trichotomy (a b : date) : lt a b ∨ a = b ∨ lt b a.
Proof.
  unfold lt. rewrite !ltb_spec.
  destruct (Z.lt_trichotomy (year a) (year b)) as [? | [Hy | ?]]; [lia | | lia].
  destruct (Z.lt_trichotomy (month a) (month b)) as [? | [Hm | ?]]; [lia | | lia].
  destruct (Z.lt_trichotomy (day a) (day b)) as [? | [Hd | ?]]; [lia | | lia].
  right; left. by apply date_eq.
Qed.

Lemma lt_toordinal (a b : date) : lt a b ↔ toordinal a < toordinal b.
Proof.
  split; [apply toordinal_mono |].
  intros Hlt. destruct (lt_trichotomy a b) as [? | [-> | Hba]]; [done | lia |].
  apply toordinal_mono in Hba. lia.
Qed.

Lemma le_toordinal (a b : date) : le a b ↔ toordinal a <= toordinal b.
Proof. unfold le. rewrite lt_toordinal. lia. Qed.

Lemma toordinal_inj (a b : date) : toordinal a = toordinal b → a = b.
Proof.
  intros Heq. destruct (lt_trichotomy a b) as [Hl | [-> | Hl]]; [| done |];
    apply toordinal_mono in Hl; lia.
Qed.

Lemma ltb_toordinal (a b : date) : ltb a b = (toordinal a <? toordinal b).
Proof.
  destruct (Z.ltb_spec (toordinal a) (toordinal b)) as [Hlt | Hge].
  - apply Is_true_true, lt_toordinal, Hlt.
  - destruct (ltb a b) eqn:E; [| done].
    apply Is_true_true, lt_toordinal in E. lia.
Qed.

(** Adding one day succeeds on every date that has a later date. *)
Lemma add_one_day_ok (a b : date) :
  lt a b → ∃ a', add_one_day a = Ok a' ∧ toordinal a' = toordinal a + 1.
Proof.
  intros Hlt. pose proof (next_ymd_ord a) as Hord.
  unfold add_one_day. destruct (next_ymd a) as [[y m] d] eqn:Hn.
  assert (Is_true (valid_ymd y m d)) as Hv.
  { apply valid_ymd_spec.
    pose proof (date_bounds a) as (Hya & Hma & Hda).
    pose proof (date_bounds b) as (Hyb & Hmb & Hdb).
    pose proof (days_in_month_pos (year b) (month b) Hmb).
    unfold lt in Hlt. rewrite ltb_spec in Hlt.
    unfold next_ymd in Hn.
    destruct (Z.ltb_spec (day a) (_days_in_month (year a) (month a))).
    { inversion Hn; subst. lia. }
    destruct (Z.ltb_spec (month a) 12).
    { inversion Hn; subst.
      pose proof (days_in_month_pos (year a) (month a + 1) ltac:(lia)). lia. }
    inversion Hn; subst.
    pose proof (days_in_month_pos (year a + 1) 1 ltac:(lia)).
    destruct Hlt as [? | [Hy [? | [Hm ?]]]]; [lia | lia |].
    rewrite Hy, Hm in *. lia. }
  unfold make_date. destruct (decide _) as [Hv' | []]; [| done].
  simpl. eexists; split; [done |]. exact Hord.
Qed.

End DateFacts.

(** ** Working days and urgency *)

Section UrgencyFacts.
Context `{Builtins}.
Import DateFacts.

Lemma weekday_range (d : date) : 0 <= Date.weekday d < 7.
Proof. unfold Date.weekday. apply Z.mod_pos_bound. lia. Qed.

Lemma is_non_working_day_spec (d : date) :
  _is_non_working_day d = negb (Spec.is_working_day d).
Proof.
  unfold _is_non_working_day, Spec.is_working_day, Spec.is_weekend, Spec.is_holiday.
  rewrite negb_andb, !negb_involutive. f_equal.
  - pose proof (weekday_range d).
    destruct (Z.leb_spec 5 (Date.weekday d)), (Z.eqb_spec (Date.weekday d) 5),
      (Z.eqb_spec (Date.weekday d) 6); simpl; try reflexivity; lia.
  - apply bool_decide_ext. unfold INDIA_HOLIDAYS_FIXED, Spec.FIXED_HOLIDAYS.
    rewrite !elem_of_union, !elem_of_singleton, !elem_of_cons, elem_of_nil. tauto.
Qed.

Lemma days_from_toordinal (n : nat) (d due : date) :
  Date.toordinal due - Date.toordinal d = Z.of_nat n →
  ∀ x, x ∈ Spec.days_from n d ↔ Date.le d x ∧ Date.lt x due.
Proof.
  revert d. induction n as [| n IH]; intros d Hn x; simpl.
  - rewrite le_toordinal, lt_toordinal. split; [by intros ?%elem_of_nil | lia].
  - assert (Date.lt d due) as Hlt by (apply lt_toordinal; lia).
    destruct (add_one_day_ok d due Hlt) as (d' & -> & Hd').
    rewrite elem_of_cons, IH by lia.
    rewrite !le_toordinal, !lt_toordinal. split.
    + intros [-> | ?]; lia.
    + intros [Hle Hx]. destruct (decide (Date.toordinal d = Date.toordinal x)) as [E | E].
      * left. symmetry. by apply toordinal_inj.
      * right. lia.
Qed.

(** The calendar days have consecutive ordinals, from that of [today] on. *)
Lemma days_from_ordinals (n : nat) :
  ∀ d due : date,
    Date.toordinal due - Date.toordinal d = Z.of_nat n →
    Date.toordinal <$> Spec.days_from n d =
      (fun i => Date.toordinal d + Z.of_nat i) <$> seq 0 n.
Proof.
  induction n as [| n IH]; intros d due Hn; [done |].
  assert (Date.lt d due) as Hlt by (apply lt_toordinal; lia).
  destruct (add_one_day_ok d due Hlt) as (d' & Hd' & Hord).
  simpl Spec.days_from. rewrite Hd'. rewrite fmap_cons, (IH d' due) by lia.
  simpl seq. rewrite fmap_cons, <- fmap_S_seq, <- list_fmap_compose.
  f_equal; [lia |]. apply list_fmap_ext. intros i x _. simpl. lia.
Qed.

Lemma calendar_days_ordinals (today due : date) :
  Date.toordinal <$> Spec.calendar_days today due =
    (fun i => Date.toordinal today + Z.of_nat i)
      <$> seq 0 (Z.to_nat (Date.toordinal due - Date.toordinal today)).
Proof.
  unfold Spec.calendar_days.
  destruct (Z.le_gt_cases (Date.toordinal today) (Date.toordinal due)).
  - apply (days_from_ordinals _ today due). lia.
  - by replace (Z.to_nat (Date.toordinal due - Date.toordinal today)) with 0%nat by lia.
Qed.

(** No calendar day is counted twice. *)
Lemma calendar_days_NoDup (today due : date) : NoDup (Spec.calendar_days today due).
Proof.
  apply (NoDup_fmap_1 Date.toordinal). rewrite calendar_days_ordinals.
  apply NoDup_fmap_2; [| apply NoDup_seq]. intros i j ?. lia.
Qed.

(** The calendar days are exactly the dates from [today] up to, but not
    including, [due]. *)
Lemma calendar_days_spec (today due x : date) :
  Date.le today due →
  x ∈ Spec.calendar_days today due ↔ Date.le today x ∧ Date.lt x due.
Proof.
  intros Hle%le_toordinal. apply days_from_toordinal. lia.
Qed.

Lemma working_days_loop_count (n : nat) :
  ∀ (fuel : nat) (cursor due : date) (days : Z),
    Date.toordinal due - Date.toordinal cursor = Z.of_nat n →
    (n <= fuel)%nat →
    working_days_loop fuel cursor due days =
      Ok (days + Z.of_nat (length (filter (fun d => Is_true (Spec.is_working_day d))
                                     (Spec.days_from n cursor)))).
Proof.
  induction n as [| n IH]; intros fuel cursor due days Hn Hfuel.
  - assert (Date.ltb cursor due = false) as Hlt.
    { rewrite ltb_toordinal. apply Z.ltb_ge. lia. }
    destruct fuel; simpl; rewrite Hlt; f_equal; lia.
  - assert (Date.lt cursor due) as Hlt by (apply lt_toordinal; lia).
    destruct fuel as [| fuel]; [lia |]. simpl.
    rewrite (Is_true_true_1 _ Hlt).
    destruct (add_one_day_ok cursor due Hlt) as (c' & -> & Hc'). simpl.
    rewrite (IH fuel c' due) by lia. f_equal.
    rewrite is_non_working_day_spec, negb_involutive.
    rewrite filter_cons. destruct (Spec.is_working_day cursor); simpl; lia.
Qed.

Lemma working_days_until_total (due : date) (today : option date) :
  _working_days_until due today =
    Ok (let today := default date_today today in
        if Date.ltb due today then -1 else Spec.working_days today due).
Proof.
  unfold _working_days_until. destruct (Date.ltb due _) eqn:E; [done |].
  set (t := default date_today today) in *.
  assert (Date.toordinal t <= Date.toordinal due) as Hle.
  { rewrite ltb_toordinal in E. by apply Z.ltb_ge in E. }
  rewrite (working_days_loop_count (Z.to_nat (Date.toordinal due - Date.toordinal t)))
    by lia.
  reflexivity.
Qed.

Lemma working_days_nonneg (today due : date) : 0 <= Spec.working_days today due.
Proof. unfold Spec.working_days. lia. Qed.

Lemma urgency_total (due : option date) (today : option date) :
  _urgency due today =
    Ok (let today := default date_today today in
        match due with
        | None => 0.25
        | Some d =>
            if Date.ltb d today then 1
            else Spec.urgency_decay (Spec.working_days today d)
        end)%R.
Proof.
  unfold _urgency. destruct due as [d |]; [| done].
  rewrite working_days_until_total. simpl.
  destruct (Date.ltb d _) eqn:E; [done |].
  pose proof (working_days_nonneg (default date_today today) d) as Hw.
  destruct (Z.ltb_spec (Spec.working_days (default date_today today) d) 0); [lia |].
  unfold Float.div. apply IZR_le in Hw.
  rewrite decide_False; [done |]. lra.
Qed.

End UrgencyFacts.

(** ** The normaliser *)

Section NormalizerFacts.
Context `{Builtins}.

Lemma make_date_raises (y m d : Z) (e : exc) :
  Date.make_date y m d = Raise e → e = ValueError.
Proof. unfold Date.make_date. destruct (decide _); congruence. Qed.

Lemma fromisoformat_raises (s : string) (e : exc) :
  fromisoformat s = Raise e → e = ValueError.
Proof.
  unfold fromisoformat.
  repeat match goal with
         | |- context [match ?x with _ => _ end] =>
             lazymatch x with
             | Date.make_date _ _ _ => fail
             | _ => destruct x eqn:?
             end
         end; try congruence.
  apply make_date_raises.
Qed.

Lemma parse_date_ok (value : pyval) : ∃ r, _parse_date value = Ok r.
Proof.
  unfold _parse_date. destruct (in_none_empty_list value); [by eexists |].
  destruct value; try by eexists.
  destruct (fromisoformat s) as [d | e] eqn:E; simpl; [by eexists |].
  apply fromisoformat_raises in E as ->. by eexists.
Qed.

Lemma parse_float_ok (value : pyval) :
  ∃ r, _parse_float value = Ok r ∧ ∀ h, r = Some h → (0 < h)%R.
Proof.
  unfold _parse_float. destruct (in_none_empty value); [by eexists |].
  destruct (py_float value) as [v | e]; simpl.
  - destruct (decide (v <= 0)%R); eexists; split; try done.
    intros h [= <-]. lra.
  - by eexists.
Qed.

Lemma clamp_int_ok (value : pyval) (lo hi : Z) :
  lo <= hi →
  ∃ r, _clamp_int value lo hi = Ok r ∧ ∀ v, r = Some v → lo <= v <= hi.
Proof.
  intros Hlh. unfold _clamp_int. destruct (in_none_empty value); [by eexists |].
  destruct (py_int value) as [v | e]; simpl; eexists; split; try done.
  intros ? [= <-]. lia.
Qed.

Lemma normalize_one_ok (idx : Z) (t : RawTask) :
  ∃ task warns,
    normalize_one idx t = Ok (task, warns) ∧
    Task.id task = assigned_id idx t ∧ task_ok task.
Proof.
  unfold normalize_one, assigned_id.
  destruct (py_int _) as [tid | e]; simpl;
    destruct (parse_date_ok (raw_get t "due_date")) as [due ->]; simpl;
    destruct (parse_float_ok (raw_get t "estimated_hours")) as (hours & -> & Hh); simpl;
    destruct (clamp_int_ok (raw_get t "importance") 1 10 ltac:(lia)) as (imp & -> & Hi); simpl;
    repeat match goal with
           | |- context [let '(_, _) := ?x in _] => destruct x
           end;
    eexists _, _; (split; [reflexivity |]); simpl; (split; [reflexivity |]);
    split; simpl; auto.
Qed.

Lemma normalize_from_ok (raw : list RawTask) :
  ∀ idx, ∃ tasks warns,
    normalize_from idx raw = Ok (tasks, warns) ∧
    Task.id <$> tasks = imap (fun i t => assigned_id (idx + Z.of_nat i) t) raw ∧
    Forall task_ok tasks.
Proof.
  induction raw as [| t raw IH]; intros idx; simpl.
  - by eexists [], [].
  - destruct (normalize_one_ok idx t) as (task & w & -> & Hid & Hok). simpl.
    destruct (IH (idx + 1)) as (tasks & ws & -> & Hids & Hall). simpl.
    eexists _, _. split; [reflexivity |]. split; [| by constructor].
    rewrite fmap_cons, Hid, Hids. simpl. rewrite Z.add_0_r. f_equal.
    apply imap_ext. intros i x _. simpl. f_equal. lia.
Qed.

Lemma normalize_tasks_ok (raw : list RawTask) :
  ∃ tasks warns,
    normalize_tasks raw = Ok (tasks, warns) ∧
    Task.id <$> tasks = imap (fun i t => assigned_id (Z.of_nat i) t) raw ∧
    Forall task_ok tasks.
Proof. apply (normalize_from_ok raw 0). Qed.

Lemma normalize_tasks_length (raw : list RawTask) tasks warns :
  normalize_tasks raw = Ok (tasks, warns) → length tasks = length raw.
Proof.
  intros Hn. destruct (normalize_tasks_ok raw) as (tasks' & ws & Hn' & Hids & _).
  rewrite Hn in Hn'. injection Hn' as <- <-.
  apply (f_equal length) in Hids. by rewrite length_fmap, length_imap in Hids.
Qed.

End NormalizerFacts.

(** ** Ordered dictionaries *)

Section OdictFacts.
Context {V : Type}.
Implicit Types (d : odict V) (k : Z).

Definition od_wf d : Prop :=
  NoDup (od_keys d) ∧ ∀ k, k ∈ od_keys d ↔ is_Some (od_map d !! k).

Lemma od_mem_spec k d : Is_true (od_mem k d) ↔ is_Some (od_map d !! k).
Proof. unfold od_mem. apply bool_decide_spec. Qed.

Lemma od_mem_keys k d : od_wf d → Is_true (od_mem k d) ↔ k ∈ od_keys d.
Proof. intros [_ Hk]. rewrite od_mem_spec. symmetry. apply Hk. Qed.

Lemma od_empty_wf : od_wf (@od_empty V).
Proof.
  split; [constructor |]. intros k. simpl. rewrite lookup_empty.
  split; [by intros ?%elem_of_nil | by intros [? ?]].
Qed.

Lemma od_insert_wf k (v : V) d : od_wf d → od_wf (od_insert k v d).
Proof.
  intros [Hnd Hk]. unfold od_insert. split; simpl.
  - destruct (od_mem k d) eqn:E; [done |].
    apply NoDup_app. split_and!; [done | | apply NoDup_singleton].
    intros x Hx ->%list_elem_of_singleton.
    apply Hk, od_mem_spec in Hx. by rewrite E in Hx.
  - intros k'. rewrite lookup_insert_is_Some.
    destruct (od_mem k d) eqn:E.
    + rewrite Hk. split; [tauto |].
      intros [<- | [_ ?]]; [| done]. apply od_mem_spec. by rewrite E.
    + rewrite elem_of_app, list_elem_of_singleton, Hk.
      destruct (decide (k = k')); naive_solver.
Qed.

Lemma od_getitem_ok k d : od_wf d → k ∈ od_keys d → ∃ v, od_getitem d k = Ok v.
Proof.
  intros [_ Hk] [v Hv]%Hk. unfold od_getitem. rewrite Hv. by eexists.
Qed.

Lemma od_items_spec k (v : V) d :
  od_wf d → (k, v) ∈ od_items d ↔ od_map d !! k = Some v.
Proof.
  intros [_ Hk]. unfold od_items. rewrite list_elem_of_omap. split.
  - intros (k' & _ & Hf). destruct (od_map d !! k') eqn:E; simpl in Hf; [| done].
    by injection Hf as -> ->.
  - intros Hv. exists k. split; [apply Hk; by eexists |]. by rewrite Hv.
Qed.

End OdictFacts.

(** A dict comprehension [{t.id: f(t) for t in tasks}]. *)
Section Comprehension.
Context {V : Type} (f : NormalizedTask → V).

Lemma comprehension_cons t tasks (d0 : odict V) :
  comprehension f d0 (t :: tasks) = comprehension f (od_insert (Task.id t) (f t) d0) tasks.
Proof. reflexivity. Qed.

Lemma comprehension_wf tasks : ∀ d0, od_wf d0 → od_wf (comprehension f d0 tasks).
Proof.
  induction tasks as [| t tasks IH]; intros d0 Hwf; [done |].
  rewrite comprehension_cons. apply IH. by apply od_insert_wf.
Qed.

Lemma comprehension_dom tasks :
  ∀ d0 k,
    is_Some (od_map (comprehension f d0 tasks) !! k) ↔
    is_Some (od_map d0 !! k) ∨ k ∈ Task.id <$> tasks.
Proof.
  induction tasks as [| t tasks IH]; intros d0 k.
  - rewrite fmap_nil, elem_of_nil. unfold comprehension. simpl. tauto.
  - rewrite comprehension_cons, IH, fmap_cons. unfold od_insert at 1. simpl.
    rewrite lookup_insert_is_Some, elem_of_cons.
    destruct (decide (Task.id t = k)); naive_solver.
Qed.

Lemma comprehension_lookup tasks :
  ∀ d0 k v,
    od_map (comprehension f d0 tasks) !! k = Some v →
    od_map d0 !! k = Some v ∨ ∃ t, t ∈ tasks ∧ Task.id t = k ∧ v = f t.
Proof.
  induction tasks as [| t tasks IH]; intros d0 k v; [by left |].
  rewrite comprehension_cons.
  intros [Hv | (t' & Ht' & ? & ?)]%IH.
  - simpl in Hv. apply lookup_insert_Some in Hv as [[<- <-] | [_ Hv]]; [| by left].
    right. exists t. split_and!; [by left | done | done].
  - right. exists t'. split_and!; [by right | done | done].
Qed.

End Comprehension.

(** ** The dependency graph *)

Section BuildGraphFacts.

Lemma tasks_by_id_wf tasks : od_wf (tasks_by_id_of tasks).
Proof. apply comprehension_wf, od_empty_wf. Qed.

Lemma forward_wf tasks : od_wf (forward_of tasks).
Proof. apply comprehension_wf, od_empty_wf. Qed.

Lemma tasks_by_id_keys tasks k :
  k ∈ od_keys (tasks_by_id_of tasks) ↔ k ∈ Task.id <$> tasks.
Proof.
  destruct (tasks_by_id_wf tasks) as [_ ->].
  unfold tasks_by_id_of. rewrite comprehension_dom. simpl. rewrite lookup_empty.
  split; [intros [[? ?] | ?]; done | by right].
Qed.

Lemma tasks_by_id_lookup tasks k t :
  od_map (tasks_by_id_of tasks) !! k = Some t → t ∈ tasks ∧ Task.id t = k.
Proof.
  intros [Hv | (t' & ? & ? & ->)]%comprehension_lookup; [| done].
  simpl in Hv. by rewrite lookup_empty in Hv.
Qed.

Lemma forward_lookup tasks k l d :
  od_map (forward_of tasks) !! k = Some l → d ∈ l → d ∈ Task.id <$> tasks.
Proof.
  intros [Hv | (t' & ? & ? & ->)]%comprehension_lookup Hd.
  - simpl in Hv. by rewrite lookup_empty in Hv.
  - apply list_elem_of_filter in Hd as [Hd _].
    apply od_mem_keys in Hd; [| apply tasks_by_id_wf]. by apply tasks_by_id_keys.
Qed.

Lemma reverse_init_lookup tasks :
  ∀ m k,
    reverse_init tasks m !! k =
      if decide (k ∈ Task.id <$> tasks) then Some [] else m !! k.
Proof.
  induction tasks as [| t tasks IH]; intros m k.
  - destruct (decide _) as [[]%elem_of_nil |]; done.
  - change (reverse_init (t :: tasks) m) with (reverse_init tasks (<[Task.id t := []]> m)).
    rewrite IH, fmap_cons.
    destruct (decide (k ∈ Task.id <$> tasks)) as [Hin | Hnin].
    + rewrite decide_True; [done | by right].
    + destruct (decide (Task.id t = k)) as [<- | Hne].
      * rewrite lookup_insert_eq, decide_True; [done | by left].
      * rewrite lookup_insert_ne by done. rewrite decide_False; [done |].
        intros [? | ?]%elem_of_cons; congruence.
Qed.

Lemma reverse_append_loop tid deps :
  ∀ rv,
    (∀ d, d ∈ deps → is_Some (rv !! d)) →
    ∃ rv',
      foldM (reverse_append tid) rv deps = Ok rv' ∧
      (∀ k, is_Some (rv' !! k) ↔ is_Some (rv !! k)) ∧
      (∀ v u, u ∈ reverse_get rv' v ↔ u ∈ reverse_get rv v ∨ (u = tid ∧ v ∈ deps)).
Proof.
  induction deps as [| d deps IH]; intros rv Hin; simpl.
  - exists rv. split_and!; [done | done |].
    intros v u. rewrite elem_of_nil. tauto.
  - destruct (Hin d ltac:(left)) as [l Hl]. unfold reverse_append at 1. rewrite Hl. simpl.
    destruct (IH (<[d := l ++ [tid]]> rv)) as (rv' & -> & Hdom & Hrv).
    { intros d' Hd'. rewrite lookup_insert_is_Some.
      destruct (decide (d = d')); [by left | right; split; [done |]].
      apply Hin. by right. }
    exists rv'. split_and!; [done | |].
    + intros k. rewrite Hdom, lookup_insert_is_Some.
      destruct (decide (d = k)) as [<- | ?]; [| naive_solver].
      split; [by eexists | by left].
    + intros v u. rewrite Hrv, elem_of_cons. unfold reverse_get.
      destruct (decide (d = v)) as [<- | Hne].
      * rewrite lookup_insert_eq, Hl. simpl. rewrite elem_of_app, list_elem_of_singleton.
        naive_solver.
      * rewrite lookup_insert_ne by done. naive_solver.
Qed.

Lemma reverse_loop (items : list (Z * list Z)) :
  ∀ rv,
    (∀ tid deps d, (tid, deps) ∈ items → d ∈ deps → is_Some (rv !! d)) →
    ∃ rv',
      foldM (fun rv '(tid, deps) => foldM (reverse_append tid) rv deps) rv items = Ok rv' ∧
      (∀ k, is_Some (rv' !! k) ↔ is_Some (rv !! k)) ∧
      (∀ v u, u ∈ reverse_get rv' v ↔
              u ∈ reverse_get rv v ∨ ∃ deps, (u, deps) ∈ items ∧ v ∈ deps).
Proof.
  induction items as [| [tid deps] items IH]; intros rv Hin; simpl.
  - exists rv. split_and!; [done | done |].
    intros v u. split; [by left |]. intros [? | (? & []%elem_of_nil & _)]. done.
  - destruct (reverse_append_loop tid deps rv) as (rv1 & -> & Hdom1 & Hrv1).
    { intros d Hd. eapply Hin; [by left | done]. }
    simpl. destruct (IH rv1) as (rv' & -> & Hdom & Hrv).
    { intros tid' deps' d Hi Hd. apply Hdom1. eapply Hin; [by right | done]. }
    exists rv'. split_and!; [done | |].
    + intros k. by rewrite Hdom, Hdom1.
    + intros v u. rewrite Hrv, Hrv1. split.
      * intros [[? | [-> ?]] | (deps' & ? & ?)]; [by left | |].
        -- right. exists deps. split; [by left | done].
        -- right. exists deps'. split; [by right | done].
      * intros [? | (deps' & [[= -> ->] | ?]%elem_of_cons & ?)];
          [by left; left | by left; right |].
        right. by exists deps'.
Qed.

(** [_build_graph] never raises: every dependency kept in [forward] is a
    key of [reverse]. The reverse edges are the forward edges turned
    round. *)
Lemma build_graph_ok (tasks : list NormalizedTask) :
  ∃ reverse,
    _build_graph tasks = Ok (tasks_by_id_of tasks, forward_of tasks, reverse) ∧
    (∀ v u, u ∈ reverse_get reverse v ↔ Spec.depends (forward_of tasks) u v).
Proof.
  unfold _build_graph.
  destruct (reverse_loop (od_items (forward_of tasks)) (reverse_init tasks ∅))
    as (rv & -> & _ & Hrv).
  { intros tid deps d Hi Hd. apply od_items_spec in Hi; [| apply forward_wf].
    rewrite reverse_init_lookup, decide_True; [by eexists |].
    by eapply forward_lookup. }
  exists rv. split; [done |].
  intros v u. rewrite Hrv. unfold reverse_get at 1.
  rewrite reverse_init_lookup, lookup_empty.
  assert (default [] (if decide (v ∈ Task.id <$> tasks) then Some [] else None) = @nil Z)
    as -> by (by destruct (decide _)).
  unfold Spec.depends. split.
  - intros [[]%elem_of_nil | (deps & Hi & ?)].
    exists deps. split; [| done]. by apply od_items_spec in Hi; [| apply forward_wf].
  - intros (l & Hl & ?). right. exists l. split; [| done].
    apply od_items_spec; [apply forward_wf | done].
Qed.

End BuildGraphFacts.

(** ** Termination of the cycle detector *)

Lemma list_pop_snoc {A : Type} (l : list A) (x : A) : list_pop (l ++ [x]) = Ok (l, x).
Proof. unfold list_pop. rewrite rev_app_distr. simpl. by rewrite rev_involutive. Qed.

Lemma list_index_ok (v : Z) (l : list Z) : v ∈ l → ∃ i, list_index v l = Ok i.
Proof.
  induction l as [| x l IH]; [by intros ?%elem_of_nil |]. simpl.
  destruct (Z.eqb_spec x v) as [-> | Hne]; [by eexists |].
  intros [? | Hin]%elem_of_cons; [congruence |].
  destruct (IH Hin) as [i ->]. by eexists.
Qed.

Lemma filter_length_mono {A : Type} (P Q : A → Prop)
    `{∀ x, Decision (P x)} `{∀ x, Decision (Q x)} (l : list A) :
  (∀ x, x ∈ l → P x → Q x) → (length (filter P l) <= length (filter Q l))%nat.
Proof.
  induction l as [| x l IH]; intros Himp; [done |].
  rewrite !filter_cons.
  assert (length (filter P l) <= length (filter Q l))%nat as Hle.
  { apply IH. intros y ?. apply Himp. by right. }
  destruct (decide (P x)) as [HP | HP], (decide (Q x)) as [HQ | HQ]; simpl; try lia.
  exfalso. apply HQ, Himp; [by left | done].
Qed.

Lemma filter_length_lt {A : Type} (P Q : A → Prop)
    `{∀ x, Decision (P x)} `{∀ x, Decision (Q x)} (l : list A) (x0 : A) :
  (∀ x, x ∈ l → P x → Q x) → x0 ∈ l → Q x0 → ¬ P x0 →
  (length (filter P l) < length (filter Q l))%nat.
Proof.
  induction l as [| x l IH]; intros Himp Hin HQ0 HP0; [by apply elem_of_nil in Hin |].
  rewrite !filter_cons.
  assert (length (filter P l) <= length (filter Q l))%nat as Hle.
  { apply filter_length_mono. intros y ?. apply Himp. by right. }
  apply elem_of_cons in Hin as [<- | Hin].
  - rewrite decide_False, decide_True by done. simpl. lia.
  - assert (length (filter P l) < length (filter Q l))%nat as Hlt.
    { apply IH; try done. intros y ?. apply Himp. by right. }
    destruct (decide (P x)) as [HP | HP], (decide (Q x)) as [HQ | HQ]; simpl; try lia.
    exfalso. apply HQ, Himp; [by left | done].
Qed.

Section DfsFacts.
Variable tasks_by_id : odict NormalizedTask.
Hypothesis tb_wf : od_wf tasks_by_id.

(** The ids that [dfs] has not entered yet. *)
Definition unvisited (s : dfs_state) : list Z :=
  filter (fun k => state_get s k = 0) (od_keys tasks_by_id).

(** An id that has been entered stays entered. *)
Definition state_mono (s s' : dfs_state) : Prop :=
  ∀ k, state_get s k ≠ 0 → state_get s' k ≠ 0.

Lemma state_mono_unvisited s s' :
  state_mono s s' → (length (unvisited s') <= length (unvisited s))%nat.
Proof.
  intros Hm. apply filter_length_mono. intros k _ Hk.
  destruct (decide (state_get s k = 0)) as [| Hne]; [done |]. by apply Hm in Hne.
Qed.

Lemma state_get_insert (s : dfs_state) (u k c : Z) st cy :
  state_get (mkDfs (<[u:=c]> (state s)) st cy) k = if decide (u = k) then c else state_get s k.
Proof.
  unfold state_get. simpl. destruct (decide (u = k)) as [<- | ?].
  - by rewrite lookup_insert_eq.
  - by rewrite lookup_insert_ne.
Qed.

(** What a call of [dfs] on an unvisited id guarantees. *)
Definition dfs_post (u : Z) (s s' : dfs_state) : Prop :=
  state_mono s s' ∧ state_get s' u ≠ 0 ∧ stack s' = stack s.

Lemma dfs_edges_ok (fuel : nat) :
  (∀ v s, v ∈ od_keys tasks_by_id → state_get s v = 0 →
          (length (unvisited s) <= fuel)%nat →
          ∃ s', dfs fuel tasks_by_id v s = Ok s' ∧ dfs_post v s s') →
  ∀ vs s,
    (length (unvisited s) <= fuel)%nat →
    ∃ s', dfs_edges (dfs fuel tasks_by_id) tasks_by_id vs s = Ok s' ∧
          state_mono s s' ∧ stack s' = stack s.
Proof.
  intros Hrec. induction vs as [| v vs IH]; intros s Hfuel; simpl.
  - exists s. split_and!; [done | by intros k | done].
  - destruct (od_mem v tasks_by_id) eqn:Hmem; simpl; [| by apply IH].
    destruct (Z.eqb_spec (state_get s v) 0) as [Hz | Hnz].
    + destruct (Hrec v s) as (s1 & -> & Hm1 & _ & Hst1); [| done | done |].
      { apply od_mem_keys; [done | by rewrite Hmem]. }
      simpl. destruct (IH s1) as (s2 & -> & Hm2 & Hst2).
      { pose proof (state_mono_unvisited s s1 Hm1). lia. }
      exists s2. split_and!; [done | | congruence].
      intros k Hk. by apply Hm2, Hm1.
    + destruct (bool_decide (state s !! v = Some 1) && list_mem v (stack s)) eqn:Hc;
        [| by apply IH].
      apply andb_true_iff in Hc as [_ Hin]. apply bool_decide_eq_true in Hin.
      destruct (list_index_ok v (stack s) Hin) as [i ->]. simpl.
      apply (IH (mkDfs (state s) (stack s) _)). done.
Qed.

Lemma dfs_ok (fuel : nat) :
  ∀ u s,
    u ∈ od_keys tasks_by_id → state_get s u = 0 →
    (length (unvisited s) <= fuel)%nat →
    ∃ s', dfs fuel tasks_by_id u s = Ok s' ∧ dfs_post u s s'.
Proof.
  induction fuel as [| fuel IH]; intros u s Hu Hz Hfuel.
  - exfalso.
    assert (length (unvisited s) < length (unvisited s))%nat; [| lia].
    apply (filter_length_lt _ _ _ u); [done | done | done |].
    unfold unvisited in Hfuel.
    assert (u ∈ filter (fun k => state_get s k = 0) (od_keys tasks_by_id)) as Hin
      by (by apply list_elem_of_filter).
    destruct (filter _ _); [by apply elem_of_nil in Hin | simpl in Hfuel; lia].
  - simpl. destruct (od_getitem_ok u tasks_by_id tb_wf Hu) as [t ->]. simpl.
    set (s1 := mkDfs (<[u:=1]> (state s)) (stack s ++ [u]) (cycles s)).
    assert (state_mono s s1) as Hm1.
    { intros k Hk. unfold s1. rewrite state_get_insert. by destruct (decide _). }
    assert (length (unvisited s1) < length (unvisited s))%nat as Hlt.
    { apply (filter_length_lt _ _ _ u); [| done | done |].
      - intros k _ Hk. destruct (decide (state_get s k = 0)); [done |]. by apply Hm1 in Hk.
      - unfold s1. rewrite state_get_insert, decide_True; done. }
    destruct (dfs_edges_ok fuel IH (Task.dependencies t) s1) as (s2 & -> & Hm2 & Hst2);
      [lia |].
    simpl. rewrite Hst2. unfold s1 at 1. simpl. rewrite list_pop_snoc. simpl.
    eexists. split; [reflexivity |]. split_and!.
    + intros k Hk. rewrite state_get_insert. destruct (decide _); [done |].
      by apply Hm2, Hm1.
    + rewrite state_get_insert, decide_True; done.
    + done.
Qed.

Lemma detect_cycles_roots (fuel : nat) (roots : list Z) :
  (length (od_keys tasks_by_id) <= fuel)%nat →
  (∀ k, k ∈ roots → k ∈ od_keys tasks_by_id) →
  ∀ s, ∃ s',
    foldM (fun s tid => if state_get s tid =? 0 then dfs fuel tasks_by_id tid s else Ok s)
      s roots = Ok s'.
Proof.
  intros Hfuel. induction roots as [| r roots IH]; intros Hin s; simpl; [by eexists |].
  destruct (Z.eqb_spec (state_get s r) 0) as [Hz | Hnz]; simpl.
  - destruct (dfs_ok fuel r s) as (s1 & -> & _); [apply Hin; by left | done | |].
    { pose proof (length_filter (fun k => state_get s k = 0) (od_keys tasks_by_id)).
      unfold unvisited. lia. }
    simpl. apply IH. intros k ?. apply Hin. by right.
  - apply IH. intros k ?. apply Hin. by right.
Qed.

Lemma detect_cycles_ok : ∃ cycles, detect_cycles tasks_by_id = Ok cycles.
Proof.
  unfold detect_cycles.
  destruct (detect_cycles_roots (length (od_keys tasks_by_id)) (od_keys tasks_by_id)
              ltac:(lia) ltac:(done) (mkDfs ∅ [] [])) as [s ->].
  by eexists.
Qed.

End DfsFacts.

(** ** The traversal of [_downstream_block_count] *)

Section DownstreamFacts.
Variable reverse : gmap Z (list Z).

(** The number of ids that ids outside [seen] can still push. *)
Definition pending_in (L : list (Z * list Z)) (seen : gset Z) : nat :=
  sum_list (length <$> (filter (fun kv => kv.1 ∉ seen) L).*2).

Definition pending (seen : gset Z) : nat := pending_in (map_to_list reverse) seen.

Lemma pending_in_cons k l L seen :
  pending_in ((k, l) :: L) seen =
    ((if decide (k ∉ seen) then length l else 0) + pending_in L seen)%nat.
Proof.
  unfold pending_in. rewrite filter_cons. simpl. by destruct (decide (k ∉ seen)).
Qed.

Lemma pending_in_mono L seen u :
  (pending_in L ({[u]} ∪ seen) <= pending_in L seen)%nat.
Proof.
  induction L as [| [k l] L IH]; [done |]. rewrite !pending_in_cons.
  destruct (decide (k ∉ {[u]} ∪ seen)) as [Hk | Hk], (decide (k ∉ seen)) as [Hk' | Hk'];
    try lia.
  exfalso. apply Hk'. intros ?. apply Hk. set_solver.
Qed.

Lemma pending_in_step L seen u l :
  NoDup L.*1 → u ∉ seen → (u, l) ∈ L →
  (pending_in L ({[u]} ∪ seen) + length l <= pending_in L seen)%nat.
Proof.
  induction L as [| [k lk] L IH]; intros Hnd Hu Hin; [by apply elem_of_nil in Hin |].
  rewrite fmap_cons in Hnd. apply NoDup_cons in Hnd as [Hk Hnd]. simpl in Hk.
  rewrite !pending_in_cons.
  apply elem_of_cons in Hin as [[= <- <-] | Hin].
  - pose proof (pending_in_mono L seen u).
    rewrite decide_False by set_solver. rewrite decide_True by done. lia.
  - assert (k ≠ u) as Hne.
    { intros ->. apply Hk. apply list_elem_of_fmap. by exists (u, l). }
    specialize (IH Hnd Hu Hin).
    destruct (decide (k ∉ {[u]} ∪ seen)) as [Hk1 | Hk1], (decide (k ∉ seen)) as [Hk2 | Hk2];
      try lia.
    exfalso. apply Hk1. set_solver.
Qed.

Lemma pending_step seen u :
  u ∉ seen →
  (pending ({[u]} ∪ seen) + length (reverse_get reverse u) <= pending seen)%nat.
Proof.
  intros Hu. unfold reverse_get, pending.
  destruct (reverse !! u) as [l |] eqn:E; simpl.
  - apply pending_in_step; [apply NoDup_fst_map_to_list | done |].
    by apply elem_of_map_to_list.
  - pose proof (pending_in_mono (map_to_list reverse) seen u). lia.
Qed.

Lemma pending_empty : pending ∅ = sum_list (length <$> (map_to_list reverse).*2).
Proof.
  unfold pending, pending_in. f_equal. f_equal. f_equal.
  induction (map_to_list reverse) as [| kv L IH]; [done |].
  rewrite filter_cons, decide_True by set_solver. by f_equal.
Qed.

Lemma list_snoc_cases {A : Type} (l : list A) : l = [] ∨ ∃ l' x, l = l' ++ [x].
Proof.
  destruct l as [| a l] using rev_ind; [by left |]. right. by exists l, a.
Qed.

(** One iteration of the loop: the last id is popped. *)
Lemma downstream_loop_snoc (fuel : nat) (seen : gset Z) (stack : list Z) (u : Z) :
  downstream_loop (S fuel) reverse seen (stack ++ [u]) =
    if bool_decide (u ∈ seen) then downstream_loop fuel reverse seen stack
    else downstream_loop fuel reverse ({[u]} ∪ seen) (stack ++ reverse_get reverse u).
Proof.
  transitivity
    (do '(stack', u') <- list_pop (stack ++ [u]);
     if bool_decide (u' ∈ seen) then downstream_loop fuel reverse seen stack'
     else downstream_loop fuel reverse ({[u']} ∪ seen) (stack' ++ reverse_get reverse u')).
  - by destruct stack.
  - by rewrite list_pop_snoc.
Qed.

(** The loop ends before the fuel does. *)
Lemma downstream_loop_ok (fuel : nat) :
  ∀ seen stack,
    (length stack + pending seen <= fuel)%nat →
    ∃ seen', downstream_loop fuel reverse seen stack = Ok seen'.
Proof.
  induction fuel as [| fuel IH]; intros seen stack Hfuel.
  - destruct stack; [by eexists | simpl in Hfuel; lia].
  - destruct (list_snoc_cases stack) as [-> | (stack' & u & ->)]; [by eexists |].
    rewrite downstream_loop_snoc. rewrite length_app in Hfuel. simpl in Hfuel.
    destruct (bool_decide (u ∈ seen)) eqn:E.
    + apply IH. lia.
    + apply bool_decide_eq_false in E. apply IH.
      pose proof (pending_step seen u E). rewrite length_app. lia.
Qed.

Lemma downstream_seen_ok (task_id : Z) : ∃ seen, downstream_seen task_id reverse = Ok seen.
Proof.
  unfold downstream_seen, downstream_fuel. apply downstream_loop_ok.
  by rewrite pending_empty.
Qed.

(** The ids in [seen] have all their direct dependents in [seen] or on
    the stack. *)
Definition closed_upto (seen : gset Z) (stack : list Z) : Prop :=
  ∀ x y, x ∈ seen → Spec.dependent_of reverse x y → y ∈ seen ∨ y ∈ stack.

Lemma downstream_loop_complete (fuel : nat) :
  ∀ seen stack seen',
    closed_upto seen stack →
    downstream_loop fuel reverse seen stack = Ok seen' →
    seen ⊆ seen' ∧ (∀ x, x ∈ stack → x ∈ seen') ∧ closed_upto seen' [].
Proof.
  induction fuel as [| fuel IH]; intros seen stack seen' Hcl Hrun.
  - destruct stack; [| done]. injection Hrun as <-.
    split_and!; [done | by intros ? ?%elem_of_nil | done].
  - destruct (list_snoc_cases stack) as [-> | (stack' & u & ->)].
    { injection Hrun as <-. split_and!; [done | by intros ? ?%elem_of_nil | done]. }
    rewrite downstream_loop_snoc in Hrun.
    destruct (bool_decide (u ∈ seen)) eqn:E.
    + apply bool_decide_eq_true in E.
      apply IH in Hrun as (Hsub & Hst & Hc).
      * split_and!; [done | | done].
        intros x [? | ->%list_elem_of_singleton]%elem_of_app; [by apply Hst | by apply Hsub].
      * intros x y Hx Hy. destruct (Hcl x y Hx Hy) as [? | Hin]; [by left |].
        apply elem_of_app in Hin as [? | ->%list_elem_of_singleton]; [by right | by left].
    + apply IH in Hrun as (Hsub & Hst & Hc).
      * split_and!; [set_solver | | done].
        intros x [? | ->%list_elem_of_singleton]%elem_of_app.
        -- apply Hst, elem_of_app. by left.
        -- apply Hsub. set_solver.
      * intros x y Hx Hy. apply elem_of_union in Hx as [->%elem_of_singleton | Hx].
        -- right. apply elem_of_app. by right.
        -- destruct (Hcl x y Hx Hy) as [? | Hin]; [left; set_solver |].
           apply elem_of_app in Hin as [? | ->%list_elem_of_singleton].
           ++ right. apply elem_of_app. by left.
           ++ left. set_solver.
Qed.

Lemma downstream_loop_sound (fuel : nat) (P : Z → Prop) :
  (∀ x y, P x → Spec.dependent_of reverse x y → P y) →
  ∀ seen stack seen',
    (∀ x, x ∈ seen → P x) → (∀ x, x ∈ stack → P x) →
    downstream_loop fuel reverse seen stack = Ok seen' →
    ∀ x, x ∈ seen' → P x.
Proof.
  intros HP. induction fuel as [| fuel IH]; intros seen stack seen' Hseen Hstack Hrun.
  - destruct stack; [| done]. by injection Hrun as <-.
  - destruct (list_snoc_cases stack) as [-> | (stack' & u & ->)].
    { by injection Hrun as <-. }
    rewrite downstream_loop_snoc in Hrun.
    assert (P u) as Hu by (apply Hstack, elem_of_app; right; by left).
    assert (∀ x, x ∈ stack' → P x) as Hst' by (intros; apply Hstack, elem_of_app; by left).
    destruct (bool_decide (u ∈ seen)).
    + by eapply IH.
    + eapply IH; [| | exact Hrun].
      * intros x [->%elem_of_singleton | ?]%elem_of_union; [done | by apply Hseen].
      * intros x [? | Hx]%elem_of_app; [by apply Hst' |]. by eapply HP.
Qed.

(** [seen] ends as the set of the ids reachable from [task_id] over one or
    more dependent edges. *)
Lemma downstream_seen_spec (task_id : Z) :
  ∃ seen,
    downstream_seen task_id reverse = Ok seen ∧
    ∀ x, x ∈ seen ↔ tc (Spec.dependent_of reverse) task_id x.
Proof.
  destruct (downstream_seen_ok task_id) as [seen Hrun]. exists seen. split; [done |].
  unfold downstream_seen in Hrun. intros x. split.
  - revert x. eapply (downstream_loop_sound _ (tc (Spec.dependent_of reverse) task_id)); [| | | exact Hrun].
    + intros a b Ha Hb. eapply tc_r; done.
    + by intros a ?%elem_of_empty.
    + intros a Ha. by apply tc_once.
  - apply downstream_loop_complete in Hrun as (_ & Hst & Hcl);
      [| by intros a b ?%elem_of_empty].
    assert (∀ a b, (a ∈ seen ∨ a = task_id) → Spec.dependent_of reverse a b → b ∈ seen) as Hstep.
    { intros a b [Ha | ->] Hab; [| by apply Hst].
      destruct (Hcl a b Ha Hab) as [? | ?%elem_of_nil]; done. }
    assert (∀ a b, tc (Spec.dependent_of reverse) a b → (a ∈ seen ∨ a = task_id) → b ∈ seen) as Hgen.
    { intros a b Htc. induction Htc as [a b Hab | a b c Hab _ IH]; intros Ha.
      - by eapply Hstep.
      - apply IH. left. by eapply Hstep. }
    intros Htc. eapply Hgen; [done | by right].
Qed.

End DownstreamFacts.

(** ** The factor calculators *)

Section FactorFacts.

Lemma max2_Rmax (a b : R) : Float.max2 a b = Rmax a b.
Proof.
  unfold Float.max2, Rmax. destruct (decide (a < b)%R), (Rle_dec a b); try lra; done.
Qed.

Lemma min2_Rmin (a b : R) : Float.min2 a b = Rmin a b.
Proof.
  unfold Float.min2, Rmin. destruct (decide (b < a)%R), (Rle_dec a b); try lra; done.
Qed.

Ltac Rmax_cases := unfold Rmax; repeat destruct (Rle_dec _ _); lra.

Lemma fold_right_Rmax_init (l : list R) (x y : R) :
  fold_right Rmax (Rmax x y) l = Rmax y (fold_right Rmax x l).
Proof.
  induction l as [| z l IH]; simpl; [apply Rmax_comm |].
  rewrite IH. generalize (fold_right Rmax x l). intros A. Rmax_cases.
Qed.

Lemma foldl_max2 (l : list R) : ∀ x, foldl Float.max2 x l = fold_right Rmax x l.
Proof.
  induction l as [| y l IH]; intros x; simpl; [done |].
  by rewrite IH, max2_Rmax, fold_right_Rmax_init.
Qed.

Lemma fold_right_Rmax_app (l : list R) (x y : R) :
  fold_right Rmax x (l ++ [y]) = Rmax y (fold_right Rmax x l).
Proof.
  induction l as [| z l IH]; simpl; [done |].
  rewrite IH. generalize (fold_right Rmax x l). intros A. Rmax_cases.
Qed.

Lemma fold_right_Rmax_floor (l : list R) (a : R) :
  Rmax 1 (fold_right Rmax a l) = Rmax 1 (Rmax a (fold_right Rmax 0%R l)).
Proof.
  induction l as [| z l IH]; simpl; [Rmax_cases |].
  revert IH. generalize (fold_right Rmax a l) (fold_right Rmax 0%R l). intros A B.
  Rmax_cases.
Qed.

Lemma max_list_floor (l : list R) :
  Float.max_list (l ++ [1%R]) = Ok (Rmax 1 (fold_right Rmax 0%R l)).
Proof.
  destruct l as [| a l]; simpl.
  - f_equal. Rmax_cases.
  - f_equal. by rewrite foldl_max2, fold_right_Rmax_app, fold_right_Rmax_floor.
Qed.

Lemma hours_or_0_default (t : NormalizedTask) :
  hours_or_0 t = default 0%R (Task.estimated_hours t).
Proof.
  unfold hours_or_0. destruct (Task.estimated_hours t) as [h |]; [| done].
  simpl. by destruct (decide (h = 0%R)).
Qed.

Lemma max_hours_of_spec (tasks : list NormalizedTask) :
  max_hours_of tasks = Ok (Spec.batch_max_hours tasks) ∧
  (1 <= Spec.batch_max_hours tasks)%R.
Proof.
  split; [| apply Rmax_l].
  unfold max_hours_of, Spec.batch_max_hours. rewrite max_list_floor.
  do 3 f_equal. apply list_fmap_ext. intros ? t _. apply hours_or_0_default.
Qed.

Lemma quickwin_ok (hours : option R) (max_hours : R) :
  (∀ h, hours = Some h → (-1 < h)%R) → (0 < max_hours)%R →
  _quickwin hours max_hours = Ok (Spec.quickwin_formula (default 4%R hours) max_hours).
Proof.
  intros Hh HM. unfold _quickwin, Spec.quickwin_formula.
  rewrite decide_False by lra.
  assert (-1 < default 4 hours)%R as Hh'.
  { destruct hours as [h |]; simpl; [by apply Hh | lra]. }
  unfold Float.log1p. rewrite !decide_False by lra. simpl.
  unfold Float.div. rewrite decide_False.
  - simpl. by rewrite max2_Rmax, min2_Rmin.
  - assert (0 < ln (1 + max_hours))%R; [| lra].
    rewrite <- ln_1. apply ln_increasing; lra.
Qed.

Lemma quickwin_formula_range (h M : R) : (0 <= Spec.quickwin_formula h M <= 1)%R.
Proof.
  unfold Spec.quickwin_formula. split; [apply Rmax_l |].
  apply Rmax_lub; [lra |]. apply Rmin_l.
Qed.

Lemma quickwin_total (hours : option R) (max_hours : R) :
  (∀ h, hours = Some h → (-1 < h)%R) →
  ∃ qw, _quickwin hours max_hours = Ok qw.
Proof.
  intros Hh. destruct (decide (max_hours <= 0)%R) as [Hle | Hgt].
  - unfold _quickwin. rewrite decide_True by done. by eexists.
  - rewrite quickwin_ok; [by eexists | done | lra].
Qed.

Lemma blocker_score_ok (block_count : Z) :
  _blocker_score block_count 8 = Ok (Rmax 0 (Rmin 1 (IZR block_count / 8))).
Proof.
  unfold _blocker_score, Float.div. rewrite decide_False by lra. simpl.
  by rewrite max2_Rmax, min2_Rmin.
Qed.

End FactorFacts.

(** ** The stable sort *)

Section SortFacts.
Context {A K : Type} (key : A → K) (ltb : K → K → bool).

Lemma sort_insert_perm (x : A) (l : list A) : sort_insert key ltb x l ≡ₚ x :: l.
Proof.
  induction l as [| y l IH]; simpl; [done |].
  destruct (ltb (key y) (key x)); [| done].
  rewrite IH. apply Permutation_swap.
Qed.

Lemma list_sort_perm (l : list A) : list_sort key ltb l ≡ₚ l.
Proof.
  induction l as [| x l IH]; simpl; [done |].
  by rewrite sort_insert_perm, IH.
Qed.

(** [x] does not have to come after [y]. *)
Definition not_after (x y : A) : Prop := ltb (key y) (key x) = false.

Hypothesis ltb_asym : ∀ a b, ltb a b = true → ltb b a = false.

Lemma sort_insert_sorted (x : A) (l : list A) :
  Sorted not_after l → Sorted not_after (sort_insert key ltb x l).
Proof.
  induction l as [| y l IH]; intros Hs; simpl.
  - repeat constructor.
  - destruct (ltb (key y) (key x)) eqn:E.
    + apply Sorted_inv in Hs as [Hs Hhd]. constructor; [by apply IH |].
      destruct l as [| z l]; simpl.
      * constructor. by apply ltb_asym.
      * destruct (ltb (key z) (key x)); constructor; [by inversion Hhd | by apply ltb_asym].
    + constructor; [done |]. by constructor.
Qed.

Lemma list_sort_sorted (l : list A) : Sorted not_after (list_sort key ltb l).
Proof.
  induction l as [| x l IH]; simpl; [constructor | by apply sort_insert_sorted].
Qed.

(** Stability: the elements with one key keep their order. *)
Lemma sort_insert_stable `{EqDecision K} (k : K) (x : A) (l : list A) :
  filter (fun y => key y = k) (sort_insert key ltb x l) =
  filter (fun y => key y = k) (x :: l).
Proof.
  induction l as [| y l IH]; simpl; [done |].
  destruct (ltb (key y) (key x)) eqn:E; [| done].
  rewrite (filter_cons _ y), IH, !filter_cons.
  destruct (decide (key y = k)) as [Hy | Hy], (decide (key x = k)) as [Hx | Hx]; try done.
  exfalso. rewrite Hy, Hx in E. pose proof (ltb_asym k k E). congruence.
Qed.

Lemma list_sort_stable `{EqDecision K} (k : K) (l : list A) :
  filter (fun y => key y = k) (list_sort key ltb l) = filter (fun y => key y = k) l.
Proof.
  induction l as [| x l IH]; simpl; [done |].
  by rewrite sort_insert_stable, !filter_cons, IH.
Qed.

End SortFacts.

Lemma sort_insert_fmap {A B K : Type} (g : A → B) (key : B → K) (ltb : K → K → bool)
    (x : A) (m : list A) :
  sort_insert key ltb (g x) (g <$> m) = g <$> sort_insert (key ∘ g) ltb x m.
Proof.
  induction m as [| y m IHm]; [done |].
  rewrite fmap_cons. simpl sort_insert.
  destruct (ltb (key (g y)) (key (g x))); [| done].
  by rewrite fmap_cons, IHm.
Qed.

Lemma list_sort_fmap {A B K : Type} (g : A → B) (key : B → K) (ltb : K → K → bool)
    (l : list A) :
  list_sort key ltb (g <$> l) = g <$> list_sort (key ∘ g) ltb l.
Proof.
  unfold list_sort. induction l as [| x l IH]; [done |].
  rewrite fmap_cons. simpl foldr. by rewrite IH, sort_insert_fmap.
Qed.

Lemma Sorted_impl_in {A : Type} (R R' : A → A → Prop) (l : list A) :
  (∀ x y, x ∈ l → y ∈ l → R x y → R' x y) → Sorted R l → Sorted R' l.
Proof.
  induction l as [| x l IH]; intros Himp Hs; [constructor |].
  apply Sorted_inv in Hs as [Hs Hhd]. constructor.
  - apply IH; [| done]. intros a b Ha Hb. apply Himp; by right.
  - destruct Hhd as [| y l Hxy]; constructor.
    apply Himp; [by left | right; by left | done].
Qed.

(** ** The main scoring function *)

Section ScoreFacts.
Context `{Builtins}.

Lemma weights_of_ok (strategy_key : string) :
  weights_of strategy_key = Ok (Spec.weights_for strategy_key).
Proof. reflexivity. Qed.

(** The factors of a task are determined by its working days, its hours
    and the set [seen] of its transitive dependents. *)
Lemma task_factors_ok weights max_hours reverse cycle_set today t :
  task_ok t →
  ∃ u qw seen,
    _urgency (Task.due_date t) today = Ok u ∧
    _quickwin (Task.estimated_hours t) max_hours = Ok qw ∧
    downstream_seen (Task.id t) reverse = Ok seen ∧
    task_factors weights max_hours reverse cycle_set today t =
      Ok (let im := _importance (Task.importance t) in
          let downstream := Z.of_nat (size seen) in
          let bl := Rmax 0 (Rmin 1 (IZR downstream / 8)) in
          let base := (w_urgency weights * u + w_importance weights * im
                       + w_quickwin weights * qw + w_blocker weights * bl)%R in
          let cycle_penalty :=
            if bool_decide (Task.id t ∈ cycle_set) then 0.15%R else 0%R in
          mkFactors u im qw downstream bl base cycle_penalty (base * (1 - cycle_penalty))).
Proof.
  intros [Hh _]. unfold task_factors.
  rewrite urgency_total.
  destruct (quickwin_total (Task.estimated_hours t) max_hours) as [qw Hqw].
  { intros h Hs. apply Hh in Hs. lra. }
  destruct (downstream_seen_ok reverse (Task.id t)) as [seen Hseen].
  eexists _, qw, seen. split_and!; [reflexivity | done | done |].
  rewrite Hqw. unfold _downstream_block_count. rewrite Hseen. simpl.
  by rewrite blocker_score_ok.
Qed.

Lemma score_loop_ok strategy_key weights max_hours reverse cycle_set today tasks :
  Forall task_ok tasks →
  ∃ fs,
    Forall2 (fun t f => task_factors weights max_hours reverse cycle_set today t = Ok f)
      tasks fs ∧
    score_loop strategy_key weights max_hours reverse cycle_set today tasks =
      Ok (zip_with (scored_record strategy_key) tasks fs).
Proof.
  induction 1 as [| t tasks Ht _ (fs & Hfs & IH)]; simpl.
  - exists []. by split; [constructor |].
  - destruct (task_factors_ok weights max_hours reverse cycle_set today t Ht)
      as (u & qw & seen & _ & _ & _ & Hf).
    rewrite Hf, IH. simpl. eexists (_ :: fs). split; [by constructor |]. done.
Qed.

(** [score_tasks] returns for every batch of tasks that the normaliser can
    produce. *)
Lemma score_tasks_run (tasks : list NormalizedTask) (strategy : string) (today : option date) :
  Forall task_ok tasks →
  ∃ out reverse fs, scoring_run tasks strategy today out reverse fs.
Proof.
  intros Hok.
  destruct (build_graph_ok tasks) as (reverse & Hg & _).
  destruct (detect_cycles_ok (tasks_by_id_of tasks) (tasks_by_id_wf tasks)) as [cycles Hc].
  destruct (max_hours_of_spec tasks) as [HM _].
  destruct (score_loop_ok (strategy_key_of strategy)
              (Spec.weights_for (strategy_key_of strategy))
              (Spec.batch_max_hours tasks) reverse (_cycle_nodes cycles) today tasks Hok)
    as (fs & Hfs & Hloop).
  exists (mkOutput
            (sort_scored (zip_with (scored_record (strategy_key_of strategy)) tasks fs))
            cycles (strategy_key_of strategy)), reverse, fs.
  unfold scoring_run. split_and!; try done.
  unfold score_tasks. rewrite weights_of_ok. simpl.
  rewrite Hg. simpl. rewrite Hc. simpl. rewrite HM. simpl. by rewrite Hloop.
Qed.

Lemma scoring_run_length tasks strategy today out reverse fs :
  scoring_run tasks strategy today out reverse fs →
  length fs = length tasks ∧
  out_tasks out ≡ₚ zip_with (scored_record (strategy_key_of strategy)) tasks fs.
Proof.
  intros (_ & _ & _ & _ & Hfs & ->). split.
  - symmetry. by eapply Forall2_length.
  - apply list_sort_perm.
Qed.

End ScoreFacts.

(** ** ISO strings are ordered as their dates *)

Section IsoformatFacts.
Import DateFacts.

Lemma digit_char_compare (a b : Z) :
  0 <= a < 10 → 0 <= b < 10 →
  Ascii.compare (Str.digit_char a) (Str.digit_char b) = (a ?= b).
Proof.
  intros Ha Hb.
  assert (a = 0 ∨ a = 1 ∨ a = 2 ∨ a = 3 ∨ a = 4 ∨ a = 5 ∨ a = 6 ∨ a = 7 ∨ a = 8 ∨ a = 9)
    as Ca by lia.
  assert (b = 0 ∨ b = 1 ∨ b = 2 ∨ b = 3 ∨ b = 4 ∨ b = 5 ∨ b = 6 ∨ b = 7 ∨ b = 8 ∨ b = 9)
    as Cb by lia.
  repeat (destruct Ca as [-> | Ca]); [.. | subst a];
    repeat (destruct Cb as [-> | Cb]); subst; reflexivity.
Qed.

(** Two numbers that agree above their [n] last digits compare as the
    strings of these digits do. *)
Lemma digits_compare (n : nat) :
  ∀ (a b : Z) (s t : string),
    0 <= a → 0 <= b → a / 10 ^ Z.of_nat n = b / 10 ^ Z.of_nat n →
    String.compare (Str.digits n a +:+ s) (Str.digits n b +:+ t) =
      match a ?= b with
      | Eq => String.compare s t
      | c => c
      end.
Proof.
  induction n as [| n IH]; intros a b s t Ha Hb Hq.
  - simpl in *. rewrite !Z.div_1_r in Hq. subst b. by rewrite Z.compare_refl.
  - change (Str.digits (S n) a) with
      (String (Str.digit_char ((a / 10 ^ Z.of_nat n) mod 10)) (Str.digits n a)).
    change (Str.digits (S n) b) with
      (String (Str.digit_char ((b / 10 ^ Z.of_nat n) mod 10)) (Str.digits n b)).
    simpl String.append. simpl String.compare.
    assert (0 < 10 ^ Z.of_nat n) as Hp by (apply Z.pow_pos_nonneg; lia).
    set (p := 10 ^ Z.of_nat n) in *.
    assert (10 ^ Z.of_nat (S n) = p * 10) as Hp10.
    { rewrite Nat2Z.inj_succ, Z.pow_succ_r by lia. unfold p. lia. }
    rewrite Hp10 in Hq. rewrite <- !Z.div_div in Hq by lia.
    set (qa := a / p) in *. set (qb := b / p) in *.
    rewrite digit_char_compare by (apply Z.mod_pos_bound; lia).
    destruct (Z.compare_spec (qa mod 10) (qb mod 10)) as [He | Hl | Hg].
    + assert (qa = qb) as Hqq.
      { rewrite (Z.div_mod qa 10), (Z.div_mod qb 10) by lia. lia. }
      apply IH; done.
    + assert (qa < qb) as Hqq.
      { rewrite (Z.div_mod qa 10), (Z.div_mod qb 10) by lia. lia. }
      assert (a < b) as Hab.
      { destruct (Z.lt_ge_cases a b) as [| Hge]; [done |].
        pose proof (Z.div_le_mono b a p Hp Hge). unfold qa, qb in Hqq. lia. }
      by apply Z.compare_lt_iff in Hab as ->.
    + assert (qb < qa) as Hqq.
      { rewrite (Z.div_mod qa 10), (Z.div_mod qb 10) by lia. lia. }
      assert (b < a) as Hab.
      { destruct (Z.lt_ge_cases b a) as [| Hge]; [done |].
        pose proof (Z.div_le_mono a b p Hp Hge). unfold qa, qb in Hqq. lia. }
      by apply Z.compare_gt_iff in Hab as ->.
Qed.

Lemma string_compare_refl (s : string) : String.compare s s = Eq.
Proof.
  induction s as [| c s IH]; [done |]. simpl.
  unfold Ascii.compare. by rewrite N.compare_refl.
Qed.

Lemma string_append_nil (s : string) : s +:+ "" = s.
Proof.
  induction s as [| c s IH]; [done |].
  change (String c s +:+ "") with (String c (s +:+ "")). by rewrite IH.
Qed.

Lemma dash_compare (s t : string) :
  String.compare ("-" +:+ s) ("-" +:+ t) = String.compare s t.
Proof. reflexivity. Qed.

(** The (year, month, day) comparison behind [<] on dates. *)
Definition date_compare (a b : date) : comparison :=
  match Date.year a ?= Date.year b with
  | Eq => match Date.month a ?= Date.month b with
          | Eq => Date.day a ?= Date.day b
          | c => c
          end
  | c => c
  end.

Lemma isoformat_compare (a b : date) :
  String.compare (isoformat a) (isoformat b) = date_compare a b.
Proof.
  pose proof (date_bounds a) as (Hya & Hma & Hda).
  pose proof (date_bounds b) as (Hyb & Hmb & Hdb).
  pose proof (days_in_month_pos (Date.year a) _ Hma).
  pose proof (days_in_month_pos (Date.year b) _ Hmb).
  unfold isoformat, date_compare.
  rewrite digits_compare; [| lia | lia |].
  2:{ rewrite !Z.div_small; [done | simpl; lia | simpl; lia]. }
  destruct (Date.year a ?= Date.year b); [| done | done].
  rewrite !dash_compare.
  rewrite digits_compare; [| lia | lia |].
  2:{ rewrite !Z.div_small; [done | simpl; lia | simpl; lia]. }
  destruct (Date.month a ?= Date.month b); [| done | done].
  rewrite !dash_compare.
  rewrite <- (string_append_nil (Str.digits 2 (Date.day a))).
  rewrite <- (string_append_nil (Str.digits 2 (Date.day b))).
  rewrite digits_compare; [| lia | lia |].
  2:{ rewrite !Z.div_small; [done | simpl; lia | simpl; lia]. }
  by destruct (Date.day a ?= Date.day b).
Qed.

Lemma date_compare_lt (a b : date) : date_compare a b = Lt ↔ Date.lt a b.
Proof.
  unfold Date.lt. rewrite ltb_spec. unfold date_compare.
  destruct (Z.compare_spec (Date.year a) (Date.year b));
    destruct (Z.compare_spec (Date.month a) (Date.month b));
    destruct (Z.compare_spec (Date.day a) (Date.day b));
    split; intros; try done; try lia.
Qed.

Lemma date_compare_eq (a b : date) : date_compare a b = Eq ↔ a = b.
Proof.
  split; [| intros ->; unfold date_compare; by rewrite !Z.compare_refl].
  unfold date_compare.
  destruct (Z.compare_spec (Date.year a) (Date.year b)); try done.
  destruct (Z.compare_spec (Date.month a) (Date.month b)); try done.
  destruct (Z.compare_spec (Date.day a) (Date.day b)); try done.
  intros _. by apply date_eq.
Qed.

Lemma isoformat_ltb (a b : date) : String.ltb (isoformat a) (isoformat b) = Date.ltb a b.
Proof.
  unfold String.ltb. rewrite isoformat_compare.
  destruct (date_compare a b) eqn:E.
  - apply date_compare_eq in E as ->. symmetry. apply not_true_is_false.
    intros Hlt%Is_true_true%lt_toordinal. lia.
  - apply date_compare_lt, Is_true_true in E. done.
  - symmetry. apply not_true_is_false. intros Hlt%Is_true_true%date_compare_lt. congruence.
Qed.

Lemma isoformat_eqb (a b : date) :
  String.eqb (isoformat a) (isoformat b) = bool_decide (a = b).
Proof.
  destruct (String.eqb_spec (isoformat a) (isoformat b)) as [He | Hne].
  - symmetry. apply bool_decide_eq_true, date_compare_eq.
    by rewrite <- isoformat_compare, He, string_compare_refl.
  - symmetry. apply bool_decide_eq_false. by intros ->.
Qed.

Lemma isoformat_nonempty (a : date) : String.eqb (isoformat a) "" = false.
Proof. reflexivity. Qed.

End IsoformatFacts.

Section RankingFacts.
Context `{Builtins}.
Import DateFacts Spec.

Lemma zip_with_record_of strategy_key tasks fs :
  zip_with (scored_record strategy_key) tasks fs = record_of strategy_key <$> zip tasks fs.
Proof.
  revert fs. induction tasks as [| t tasks IH]; intros [| f fs]; simpl; try done.
  by rewrite IH.
Qed.

Lemma record_score strategy_key (a : Ranked) :
  s_score (record_of strategy_key a) = rank_score a.
Proof. reflexivity. Qed.

Lemma record_due_date strategy_key (a : Ranked) :
  s_due_date (record_of strategy_key a) = isoformat <$> Task.due_date a.1.
Proof. reflexivity. Qed.

Lemma record_importance strategy_key (a : Ranked) :
  s_importance (record_of strategy_key a) = rank_importance a.
Proof. reflexivity. Qed.

Lemma sort_key_record strategy_key (a : Ranked) :
  task_ok a.1 →
  _sort_key (record_of strategy_key a) =
    ((- rank_score a)%R, isoformat (due_or_max a), - rank_importance a).
Proof.
  intros [_ Hi]. unfold _sort_key.
  rewrite record_score, record_due_date, record_importance.
  f_equal; [f_equal |].
  - unfold due_or_max. destruct (Task.due_date a.1) as [d |]; [| done].
    change (isoformat <$> Some d) with (Some (isoformat d)). cbv iota beta.
    by rewrite isoformat_nonempty.
  - unfold rank_importance.
    destruct (Task.importance a.1) as [v |] eqn:E; [| done].
    specialize (Hi v eq_refl). change (default 5 (Some v)) with v.
    destruct (Z.eqb_spec v 0); [lia | done].
Qed.

Lemma key_ltb_asym (a b : R * string * Z) : key_ltb a b = true → key_ltb b a = false.
Proof.
  destruct a as [[a1 a2] a3], b as [[b1 b2] b3]. unfold key_ltb.
  destruct (decide (a1 = b1)) as [-> | Hne].
  - rewrite !bool_decide_eq_true_2 by done. simpl.
    rewrite (String.eqb_sym b2 a2).
    destruct (String.eqb a2 b2) eqn:E; simpl.
    + intros ?%Z.ltb_lt. apply Z.ltb_ge. lia.
    + unfold String.ltb. rewrite (String.compare_antisym b2 a2).
      by destruct (String.compare a2 b2).
  - assert (b1 ≠ a1) as Hne' by congruence.
    rewrite (bool_decide_eq_false_2 (a1 = b1)), (bool_decide_eq_false_2 (b1 = a1)) by done.
    simpl. intros ?%bool_decide_eq_true. apply bool_decide_eq_false. lra.
Qed.

Lemma key_ltb_outranks strategy_key (a b : Ranked) :
  task_ok a.1 → task_ok b.1 →
  key_ltb (_sort_key (record_of strategy_key a)) (_sort_key (record_of strategy_key b)) = true
  ↔ outranks a b.
Proof.
  intros Ha Hb. rewrite !sort_key_record by done. unfold key_ltb, outranks.
  rewrite isoformat_eqb, isoformat_ltb.
  destruct (decide (- rank_score a = - rank_score b)%R) as [He | Hne].
  - rewrite bool_decide_eq_true_2 by done. simpl.
    destruct (decide (due_or_max a = due_or_max b)) as [Hd | Hd].
    + rewrite bool_decide_eq_true_2 by done. simpl. rewrite Z.ltb_lt. split.
      * intros ?. right. split; [lra |]. right. split; [done | lia].
      * intros [? | [_ [Hlt | [_ ?]]]]; [lra | | lia].
        rewrite Hd in Hlt. apply lt_toordinal in Hlt. lia.
    + rewrite bool_decide_eq_false_2 by done. simpl. split.
      * intros Hlt. right. split; [lra |]. left. by apply Is_true_true.
      * intros [? | [_ [Hlt | [? _]]]]; [lra | by apply Is_true_true | done].
  - rewrite bool_decide_eq_false_2 by done. simpl. rewrite bool_decide_eq_true. split.
    + intros ?. left. lra.
    + intros [? | [? _]]; lra.
Qed.

(** [a] may come before [b]. *)
Definition rank_le (a b : Ranked) : Prop := ¬ outranks b a.

Lemma rank_le_iff (a b : Ranked) :
  rank_le a b ↔
  (rank_score b < rank_score a)%R ∨
  (rank_score a = rank_score b ∧
   (Date.toordinal (due_or_max a) < Date.toordinal (due_or_max b) ∨
    (Date.toordinal (due_or_max a) = Date.toordinal (due_or_max b) ∧
     rank_importance b <= rank_importance a))).
Proof.
  unfold rank_le, outranks. rewrite lt_toordinal.
  assert (due_or_max b = due_or_max a ↔
          Date.toordinal (due_or_max b) = Date.toordinal (due_or_max a)) as ->.
  { split; [by intros -> | apply toordinal_inj]. }
  split.
  - intros Hn.
    destruct (Rtotal_order (rank_score a) (rank_score b)) as [Hlt | [Heq | Hgt]].
    + exfalso. apply Hn. by left.
    + right. split; [done |].
      destruct (Z.lt_trichotomy (Date.toordinal (due_or_max a))
                  (Date.toordinal (due_or_max b))) as [? | [? | ?]].
      * by left.
      * right. split; [done |].
        destruct (Z.le_gt_cases (rank_importance b) (rank_importance a)); [done |].
        exfalso. apply Hn. right. split; [done |]. right. split; [done | lia].
      * exfalso. apply Hn. right. split; [done |]. by left.
    + left. lra.
  - intros [? | [? [? | [? ?]]]] [? | [? [? | [? ?]]]]; first [lra | lia].
Qed.

Lemma rank_le_trans : Transitive rank_le.
Proof.
  intros a b c. rewrite !rank_le_iff.
  intros [? | [? [? | [? ?]]]] [? | [? [? | [? ?]]]];
    first [ left; lra | right; split; [lra |]; first [left; lia | right; split; lia] ].
Qed.

End RankingFacts.

#[global] Instance outranks_dec (a b : Spec.Ranked) : Decision (Spec.outranks a b).
Proof. unfold Spec.outranks, Date.lt. apply _. Defined.

#[global] Instance due_before_claimed_dec (d1 d2 : option date) :
  Decision (Spec.due_before_claimed d1 d2).
Proof. unfold Spec.due_before_claimed, Date.lt. destruct d1, d2; apply _. Defined.

#[global] Instance outranks_claimed_dec (a b : Spec.Ranked) :
  Decision (Spec.outranks_claimed a b).
Proof. unfold Spec.outranks_claimed. apply _. Defined.

Lemma filter_ext_in {A : Type} (P Q : A → Prop)
    `{∀ x, Decision (P x)} `{∀ x, Decision (Q x)} (l : list A) :
  (∀ x, x ∈ l → P x ↔ Q x) → filter P l = filter Q l.
Proof.
  induction l as [| x l IH]; intros Hext; [done |].
  rewrite !filter_cons, IH by (intros y ?; apply Hext; by right).
  destruct (decide (P x)) as [HP | HP], (decide (Q x)) as [HQ | HQ]; try done.
  - exfalso. apply HQ, Hext; [by left | done].
  - exfalso. apply HP, Hext; [by left | done].
Qed.

Section RankedOutput.
Context `{Builtins}.
Import DateFacts Spec.

Lemma unordered_key strategy_key (a b : Ranked) :
  task_ok b.1 →
  unordered outranks a b ↔
  _sort_key (record_of strategy_key b) =
    ((- rank_score a)%R, isoformat (due_or_max a), - rank_importance a).
Proof.
  intros Hb. rewrite sort_key_record by done. unfold unordered.
  change (¬ outranks a b) with (rank_le b a). change (¬ outranks b a) with (rank_le a b).
  rewrite !rank_le_iff. split.
  - intros [[? | [? [? | [? ?]]]] [? | [? [? | [? ?]]]]]; try lra; try lia.
    f_equal; [f_equal |]; [lra | | lia].
    f_equal. apply toordinal_inj. lia.
  - intros Heq.
    pose proof (f_equal (fun k : R * string * Z => k.1.1) Heq) as Hs.
    pose proof (f_equal (fun k : R * string * Z => k.1.2) Heq) as Hd.
    pose proof (f_equal (fun k : R * string * Z => k.2) Heq) as Hi.
    cbn [fst snd] in Hs, Hd, Hi. clear Heq.
    assert (due_or_max b = due_or_max a) as Hd'.
    { apply date_compare_eq. by rewrite <- isoformat_compare, Hd, string_compare_refl. }
    rewrite Hd'. split; right; (split; [lra |]); right; (split; [done | lia]).
Qed.

Lemma ranked_output_coded (tasks : list NormalizedTask) (strategy : string)
    (today : option date) :
  Forall task_ok tasks → ranked_output outranks tasks strategy today.
Proof.
  intros Hok.
  destruct (score_tasks_run tasks strategy today Hok) as (out & reverse & fs & Hrun).
  pose proof Hrun as (_ & _ & _ & _ & _ & Hout).
  set (key := strategy_key_of strategy) in *.
  set (ranked := list_sort (_sort_key ∘ record_of key) key_ltb (zip tasks fs)).
  assert (ranked ≡ₚ zip tasks fs) as Hperm by apply list_sort_perm.
  assert (Forall (fun a : Ranked => task_ok a.1) (zip tasks fs)) as Hzip.
  { apply Forall_forall. intros [t f] Ht%elem_of_zip_l.
    by eapply Forall_forall in Hok. }
  exists out, reverse, fs, ranked.
  split_and!; try done.
  - rewrite Hout. unfold sort_scored. by rewrite zip_with_record_of, list_sort_fmap.
  - apply Sorted_StronglySorted; [apply rank_le_trans |].
    eapply Sorted_impl_in; [| apply (list_sort_sorted _ _ key_ltb_asym)].
    intros a b Ha Hb Hab. unfold not_after, compose in Hab.
    intros Hout'. apply (key_ltb_outranks key) in Hout'; [congruence | |].
    + rewrite Hperm in Hb. by eapply Forall_forall in Hzip.
    + rewrite Hperm in Ha. by eapply Forall_forall in Hzip.
  - intros a.
    rewrite (filter_ext_in _
               (fun b => (_sort_key ∘ record_of key) b =
                           ((- rank_score a)%R, isoformat (due_or_max a), - rank_importance a))
               ranked).
    2:{ intros b Hb. apply unordered_key. rewrite Hperm in Hb.
        by eapply Forall_forall in Hzip. }
    rewrite (filter_ext_in (unordered outranks a)
               (fun b => (_sort_key ∘ record_of key) b =
                           ((- rank_score a)%R, isoformat (due_or_max a), - rank_importance a))
               (zip tasks fs)).
    2:{ intros b Hb. apply unordered_key. by eapply Forall_forall in Hzip. }
    apply (list_sort_stable _ _ key_ltb_asym).
Qed.

End RankedOutput.

(** ** Evaluation on the concrete batches *)

Module ExampleFacts.
Import Spec Examples.

Lemma tie_batch_ok : Forall task_ok tie_batch.
Proof.
  repeat first [apply Forall_nil_2 | apply Forall_cons_2];
    split; simpl; intros ? [=].
Qed.

(** The two scenarios of the repository's holiday test: 2 October is a
    holiday, so one working day lies between 1 and 3 October 2025, and two
    lie between 5 and 7 November 2025. *)
Example holiday_working_days :
  @_working_days_until env d_2025_10_03 (Some d_2025_10_01) = Ok 1 ∧
  @_working_days_until env d_2025_11_07 (Some d_2025_11_05) = Ok 2.
Proof. split; vm_compute; reflexivity. Qed.

Example isoformat_examples :
  isoformat d_2025_10_01 = "2025-10-01" ∧
  @fromisoformat env "2025-10-01" = Ok d_2025_10_01 ∧
  @fromisoformat env "2025-02-30" = Raise ValueError ∧
  @fromisoformat env "Tomorrow" = Raise ValueError ∧
  Date.weekday d_2025_10_01 = 2 ∧
  Date.weekday date_max = 4.
Proof. repeat split; vm_compute; reflexivity. Qed.

Example to_int_examples :
  Str.to_int "100" = Ok 100 ∧
  Str.to_int " -1_000 " = Ok (-1000) ∧
  Str.to_int "High" = Raise ValueError ∧
  Str.to_int "1__0" = Raise ValueError ∧
  Str.to_int "" = Raise ValueError.
Proof. repeat split; vm_compute; reflexivity. Qed.

Example tie_working_days : Spec.working_days d_9999_12_10 date_max = 15.
Proof. vm_compute. reflexivity. Qed.

Example tie_graph :
  _build_graph tie_batch =
    Ok (tasks_by_id_of tie_batch, forward_of tie_batch, {[1 := []; 2 := []]}).
Proof. vm_compute. reflexivity. Qed.

Example tie_cycles : detect_cycles (tasks_by_id_of tie_batch) = Ok [].
Proof. vm_compute. reflexivity. Qed.

Example tie_seen (i : Z) :
  downstream_seen i ({[1 := []; 2 := []]} : gmap Z (list Z)) = Ok ∅.
Proof.
  unfold downstream_seen.
  assert (reverse_get ({[1 := []; 2 := []]} : gmap Z (list Z)) i = []) as ->; [| done].
  unfold reverse_get.
  destruct (decide (i = 1)) as [-> | ?]; [done |].
  destruct (decide (i = 2)) as [-> | ?]; [done |].
  by rewrite lookup_insert_ne, lookup_singleton_ne by done.
Qed.

(** On 9999-12-10 the two tasks of [tie_batch] get the same score, and
    [score_tasks] returns them in input order: the undated one first. *)
Lemma tie_output (out : ScoreOutput) reverse fs :
  @scoring_run env tie_batch "" (Some d_9999_12_10) out reverse fs →
  ∃ f1 f2,
    fs = [f1; f2] ∧
    out_tasks out = [scored_record "smart_balance" (task 1 None []) f1;
                     scored_record "smart_balance" (task 2 (Some date_max) []) f2] ∧
    f_final f1 = f_final f2.
Proof.
  intros (_ & Hg & Hc & _ & Hfs & Hs).
  rewrite tie_graph in Hg. injection Hg as <-.
  rewrite tie_cycles in Hc. injection Hc as Hc. rewrite <- Hc in Hfs. clear Hc.
  change (strategy_key_of "") with "smart_balance" in *.
  apply Forall2_cons_inv_l in Hfs as (f1 & fs1 & H1 & Hfs & ->).
  apply Forall2_cons_inv_l in Hfs as (f2 & fs2 & H2 & Hfs & ->).
  apply Forall2_nil_inv_l in Hfs as ->.
  assert (f_final f1 = f_final f2) as Hfinal.
  { destruct (@task_factors_ok env (Spec.weights_for "smart_balance")
                (Spec.batch_max_hours tie_batch) {[1 := []; 2 := []]} (_cycle_nodes [])
                (Some d_9999_12_10) (task 1 None [])) as (u1 & qw1 & seen1 & Hu1 & Hq1 & Hs1 & Hf1).
    { split; simpl; intros ? [=]. }
    destruct (@task_factors_ok env (Spec.weights_for "smart_balance")
                (Spec.batch_max_hours tie_batch) {[1 := []; 2 := []]} (_cycle_nodes [])
                (Some d_9999_12_10) (task 2 (Some date_max) []))
      as (u2 & qw2 & seen2 & Hu2 & Hq2 & Hs2 & Hf2).
    { split; simpl; intros ? [=]. }
    rewrite Hf1 in H1. injection H1 as <-. rewrite Hf2 in H2. injection H2 as <-.
    rewrite tie_seen in Hs1, Hs2. injection Hs1 as <-. injection Hs2 as <-.
    rewrite urgency_total in Hu1, Hu2. injection Hu1 as <-. injection Hu2 as <-.
    cbn [Task.estimated_hours task] in Hq1, Hq2. rewrite Hq1 in Hq2. injection Hq2 as <-.
    cbn [f_final Task.due_date Task.importance Task.id task default].
    change (Date.ltb date_max d_9999_12_10) with false. cbv iota.
    rewrite tie_working_days. unfold Spec.urgency_decay.
    replace (1 / (1 + IZR 15 / 5))%R with 0.25%R by lra. reflexivity. }
  exists f1, f2. split_and!; [done | | done].
  rewrite Hs. unfold sort_scored, list_sort, tie_batch.
  cbn [zip_with foldr sort_insert].
  assert (key_ltb (_sort_key (scored_record "smart_balance" (task 2 (Some date_max) []) f2))
            (_sort_key (scored_record "smart_balance" (task 1 None []) f1)) = false) as ->; [| done].
  apply not_true_is_false. intros Hlt.
  apply (key_ltb_outranks "smart_balance" (task 2 (Some date_max) [], f2) (task 1 None [], f1))
    in Hlt; [| split; simpl; intros ? [=] ..].
  unfold outranks, rank_score, due_or_max, rank_importance in Hlt. simpl in Hlt.
  rewrite Hfinal in Hlt.
  destruct Hlt as [? | [_ [Hlt | [_ ?]]]]; [lra | | lia].
  apply DateFacts.lt_toordinal in Hlt. lia.
Qed.

Example two_cycles_detected :
  detect_cycles (tasks_by_id_of two_cycles_through_1) = Ok [[1; 2; 1]; [1; 3; 1]].
Proof. vm_compute. reflexivity. Qed.

End ExampleFacts.

(** * The claims *)

Section FactorInversion.
Context `{Builtins}.

(** What [task_factors] has computed when it returns. *)
Lemma task_factors_inv weights max_hours reverse cycle_set today t f :
  task_factors weights max_hours reverse cycle_set today t = Ok f →
  _urgency (Task.due_date t) today = Ok (f_u f) ∧
  f_im f = _importance (Task.importance t) ∧
  _quickwin (Task.estimated_hours t) max_hours = Ok (f_qw f) ∧
  _downstream_block_count (Task.id t) reverse = Ok (f_downstream f) ∧
  _blocker_score (f_downstream f) 8 = Ok (f_bl f) ∧
  f_base f = (w_urgency weights * f_u f + w_importance weights * f_im f
              + w_quickwin weights * f_qw f + w_blocker weights * f_bl f)%R ∧
  f_cycle_penalty f = (if bool_decide (Task.id t ∈ cycle_set) then 0.15 else 0)%R ∧
  f_final f = (f_base f * (1 - f_cycle_penalty f))%R.
Proof.
  unfold task_factors.
  destruct (_urgency _ _) as [u |]; [| done]. simpl.
  destruct (_quickwin _ _) as [qw |]; [| done]. simpl.
  destruct (_downstream_block_count _ _) as [ds |]; [| done]. simpl.
  destruct (_blocker_score _ _) as [bl |] eqn:Hbl; [| done]. simpl.
  intros [= <-]. simpl. by split_and!.
Qed.

Lemma elem_of_cycle_nodes (x : Z) (cycles : list (list Z)) :
  x ∈ _cycle_nodes cycles ↔ ∃ c, c ∈ cycles ∧ x ∈ c.
Proof.
  unfold _cycle_nodes.
  assert (∀ (c : list Z) (s : gset Z),
            x ∈ foldl (fun s y => {[y]} ∪ s) s c ↔ x ∈ s ∨ x ∈ c) as Hinner.
  { induction c as [| y c IH]; intros s; simpl.
    - rewrite elem_of_nil. tauto.
    - rewrite IH, elem_of_union, elem_of_singleton, elem_of_cons. tauto. }
  assert (∀ (cs : list (list Z)) (s : gset Z),
            x ∈ foldl (fun s c => foldl (fun s y => {[y]} ∪ s) s c) s cs ↔
            x ∈ s ∨ ∃ c, c ∈ cs ∧ x ∈ c) as Houter.
  { induction cs as [| c cs IH]; intros s; simpl.
    - split; [by left |]. intros [? | (? & []%elem_of_nil & _)]. done.
    - rewrite IH, Hinner. split.
      + intros [[? | ?] | (c' & ? & ?)]; [by left | |].
        * right. exists c. split; [by left | done].
        * right. exists c'. split; [by right | done].
      + intros [? | (c' & [-> | ?]%elem_of_cons & ?)]; [by left; left | by left; right |].
        right. by exists c'. }
  rewrite Houter, elem_of_empty. split; [by intros [[] | ?] | by right].
Qed.

Lemma cycle_count_pos (x : Z) (cycles : list (list Z)) :
  x ∈ _cycle_nodes cycles ↔ (0 < length (filter (fun c => x ∈ c) cycles))%nat.
Proof.
  rewrite elem_of_cycle_nodes. split.
  - intros (c & Hc & Hx).
    assert (c ∈ filter (fun c => x ∈ c) cycles) as Hin by (by apply list_elem_of_filter).
    destruct (filter _ cycles); [by apply elem_of_nil in Hin | simpl; lia].
  - intros Hlen. destruct (filter (fun c => x ∈ c) cycles) as [| c l] eqn:E; [simpl in Hlen; lia |].
    assert (c ∈ filter (fun c => x ∈ c) cycles) as Hin by (rewrite E; by left).
    apply list_elem_of_filter in Hin as [? ?]. by exists c.
Qed.

End FactorInversion.

(** C1: the urgency factor is 0.25 without a due date, 1.0 when the due
    date is strictly before the reference date, and otherwise
    [1 / (1 + w/5)], where [w] counts the calendar days from the reference
    date up to, but not including, the due date that are neither a
    Saturday or Sunday nor one of the fixed holidays; 0 working days give
    1.0 and 5 working days give 0.5. *)
Theorem C1_urgency `{Builtins} (due : option date) (today : option date) :
  _urgency due today =
    Ok (match due with
        | None => 0.25
        | Some d =>
            if Date.ltb d (default date_today today) then 1
            else Spec.urgency_decay (Spec.working_days (default date_today today) d)
        end)%R ∧
  Spec.urgency_decay 0 = 1%R ∧
  Spec.urgency_decay 5 = 0.5%R.
Proof.
  split; [apply urgency_total |].
  unfold Spec.urgency_decay. split; lra.
Qed.

(** C4: every raw record yields exactly one normalised task and every
    normalised task exactly one scored record: the three lists have the
    same length and the result holds the scored records of the tasks,
    rearranged. *)
Theorem C4_one_record_per_input `{Builtins} (raw : list RawTask) (strategy : string)
    (today : option date) :
  ∃ tasks warnings out reverse fs,
    normalize_tasks raw = Ok (tasks, warnings) ∧
    scoring_run tasks strategy today out reverse fs ∧
    length tasks = length raw ∧
    length (out_tasks out) = length tasks ∧
    out_tasks out ≡ₚ zip_with (scored_record (strategy_key_of strategy)) tasks fs ∧
    length fs = length tasks.
Proof.
  destruct (normalize_tasks_ok raw) as (tasks & warnings & Hn & _ & Hok).
  destruct (score_tasks_run tasks strategy today Hok) as (out & reverse & fs & Hrun).
  destruct (scoring_run_length _ _ _ _ _ _ Hrun) as [Hlen Hperm].
  exists tasks, warnings, out, reverse, fs. split_and!; try done.
  - by eapply normalize_tasks_length.
  - rewrite Hperm, length_zip_with. lia.
Qed.

(** C5: in a run of [score_tasks] the quick-win factor of every task is
    [max(0, min(1, 1 - ln(1+h)/ln(1+max_hours)))], with [h] the estimated
    hours of the task or 4.0, and [max_hours] the maximum of the estimated
    hours of the batch floored at 1.0; the factor lies in [0,1] and
    [max_hours <= 0] does not hold. *)
Theorem C5_quickwin `{Builtins} (tasks : list NormalizedTask) (strategy : string)
    (today : option date) :
  Forall task_ok tasks →
  ∃ out reverse fs,
    scoring_run tasks strategy today out reverse fs ∧
    max_hours_of tasks = Ok (Spec.batch_max_hours tasks) ∧
    ¬ (Spec.batch_max_hours tasks <= 0)%R ∧
    Forall2 (fun t f =>
               _quickwin (Task.estimated_hours t) (Spec.batch_max_hours tasks) = Ok (f_qw f) ∧
               f_qw f = Spec.quickwin_formula (default 4%R (Task.estimated_hours t))
                          (Spec.batch_max_hours tasks) ∧
               (0 <= f_qw f <= 1)%R) tasks fs.
Proof.
  intros Hok.
  destruct (score_tasks_run tasks strategy today Hok) as (out & reverse & fs & Hrun).
  destruct (max_hours_of_spec tasks) as [HM HM1].
  exists out, reverse, fs. split_and!; [done | done | lra |].
  destruct Hrun as (_ & _ & _ & _ & Hfs & _). clear HM.
  revert Hfs HM1. generalize (Spec.batch_max_hours tasks) as M. intros M Hfs HM1.
  revert Hok. induction Hfs as [| t f tasks' fs' Hf _ IH]; intros Hok; [constructor |].
  apply Forall_cons in Hok as [[Ht _] Hok]. constructor; [| by apply IH].
  apply task_factors_inv in Hf as (_ & _ & Hq & _).
  rewrite quickwin_ok in Hq; [| intros h Hh; apply Ht in Hh; lra | lra].
  injection Hq as <-. split_and!; [| done | apply quickwin_formula_range ..].
  apply quickwin_ok; [intros h Hh; apply Ht in Hh; lra | lra].
Qed.

(** C2: in a run of [score_tasks] the base score of every task is the
    weighted sum of its four factors; a task whose id appears in one or
    more of the detected cycles gets the final score [base * 0.85], however
    many cycles hold its id, and a task in no cycle gets [final = base];
    the score of the record is the final score times 100, rounded to two
    decimals. *)
Theorem C2_cycle_penalty `{Builtins} (tasks : list NormalizedTask) (strategy : string)
    (today : option date) :
  Forall task_ok tasks →
  ∃ out reverse fs,
    scoring_run tasks strategy today out reverse fs ∧
    out_tasks out ≡ₚ zip_with (scored_record (strategy_key_of strategy)) tasks fs ∧
    Forall2 (fun t f =>
               let weights := Spec.weights_for (strategy_key_of strategy) in
               let n := length (filter (fun c => Task.id t ∈ c) (out_cycles out)) in
               f_base f = (w_urgency weights * f_u f + w_importance weights * f_im f
                           + w_quickwin weights * f_qw f + w_blocker weights * f_bl f)%R ∧
               ((0 < n)%nat → f_final f = (f_base f * 0.85)%R) ∧
               (n = 0%nat → f_final f = f_base f) ∧
               s_score (scored_record (strategy_key_of strategy) t f) =
                 Float.round2 (f_final f * 100)) tasks fs.
Proof.
  intros Hok.
  destruct (score_tasks_run tasks strategy today Hok) as (out & reverse & fs & Hrun).
  destruct (scoring_run_length _ _ _ _ _ _ Hrun) as [_ Hperm].
  exists out, reverse, fs. split_and!; [done | done |].
  destruct Hrun as (_ & _ & _ & _ & Hfs & _).
  eapply Forall2_impl; [exact Hfs |]. intros t f Hf. simpl.
  apply task_factors_inv in Hf as (_ & _ & _ & _ & _ & Hbase & Hpen & Hfinal).
  rewrite Hfinal, Hpen. split_and!; [done | | | done].
  - intros Hn. apply cycle_count_pos in Hn.
    rewrite bool_decide_eq_true_2 by done. lra.
  - intros Hn. rewrite bool_decide_eq_false_2; [lra |].
    intros Hin%cycle_count_pos. lia.
Qed.

Section Monotonicity.
Context `{Builtins}.

Lemma urgency_decay_antitone (w1 w2 : Z) :
  0 <= w1 < w2 → (Spec.urgency_decay w2 < Spec.urgency_decay w1)%R.
Proof.
  intros [H0 Hlt]. apply IZR_le in H0. apply IZR_lt in Hlt.
  unfold Spec.urgency_decay, Rdiv at 1 3. rewrite !Rmult_1_l.
  apply Rinv_lt_contravar; [| lra].
  apply Rmult_lt_0_compat; lra.
Qed.

Lemma urgency_of_working_days (d today : date) (w : Z) :
  _working_days_until d (Some today) = Ok w → 0 <= w →
  _urgency (Some d) (Some today) = Ok (Spec.urgency_decay w).
Proof.
  intros Hw H0. unfold _urgency. simpl. rewrite Hw. simpl.
  destruct (Z.ltb_spec w 0); [lia |].
  unfold Float.div. apply IZR_le in H0. rewrite decide_False by lra. done.
Qed.

Lemma with_due_ok (t : NormalizedTask) (d : date) : task_ok t → task_ok (Spec.with_due t d).
Proof. intros [? ?]. by split. Qed.

End Monotonicity.

(** C6: of two tasks that are identical except for their due dates, both
    due on or after the reference date, the one with strictly fewer
    working days until its due date has an urgency factor and, under
    weights with a positive urgency weight, an unrounded final score that
    are greater than or equal to those of the other. *)
Theorem C6_urgency_monotone `{Builtins} (weights : StrategyWeights) (max_hours : R)
    (reverse : gmap Z (list Z)) (cycle_set : gset Z) (today1 today2 : date)
    (t : NormalizedTask) (d1 d2 : date) (w1 w2 : Z) :
  task_ok t →
  (0 < w_urgency weights)%R →
  _working_days_until d1 (Some today1) = Ok w1 →
  _working_days_until d2 (Some today2) = Ok w2 →
  0 <= w1 < w2 →
  ∃ f1 f2,
    task_factors weights max_hours reverse cycle_set (Some today1) (Spec.with_due t d1) = Ok f1 ∧
    task_factors weights max_hours reverse cycle_set (Some today2) (Spec.with_due t d2) = Ok f2 ∧
    (f_u f2 <= f_u f1)%R ∧
    (f_final f2 <= f_final f1)%R.
Proof.
  intros Hok Hw Hd1 Hd2 Hlt.
  destruct (task_factors_ok weights max_hours reverse cycle_set (Some today1)
              (Spec.with_due t d1) (with_due_ok t d1 Hok))
    as (u1 & qw1 & seen1 & Hu1 & Hq1 & Hs1 & Hf1).
  destruct (task_factors_ok weights max_hours reverse cycle_set (Some today2)
              (Spec.with_due t d2) (with_due_ok t d2 Hok))
    as (u2 & qw2 & seen2 & Hu2 & Hq2 & Hs2 & Hf2).
  cbn [Spec.with_due Task.due_date Task.estimated_hours Task.id Task.importance] in *.
  rewrite (urgency_of_working_days d1 today1 w1) in Hu1 by (done || lia).
  rewrite (urgency_of_working_days d2 today2 w2) in Hu2 by (done || lia).
  injection Hu1 as <-. injection Hu2 as <-.
  rewrite Hq1 in Hq2. injection Hq2 as <-. rewrite Hs1 in Hs2. injection Hs2 as <-.
  pose proof (urgency_decay_antitone w1 w2 Hlt) as Hu.
  eexists _, _. split_and!; [exact Hf1 | exact Hf2 | simpl; lra |].
  simpl. destruct (bool_decide (Task.id t ∈ cycle_set)); nra.
Qed.

(** C3, as stated: [score_tasks] ranks every batch by descending score,
    then ascending due date with the tasks without a due date after all
    dated tasks, then descending importance. This fails on 9999-12-10 for
    an undated task followed by a task due on 9999-12-31: both get the same
    score and the same key, and the undated task stays first. *)
Lemma C3_counterexample :
  ¬ (∀ (B : Builtins) (tasks : list NormalizedTask) (strategy : string) (today : option date),
       Forall task_ok tasks →
       @ranked_output B Spec.outranks_claimed _ tasks strategy today).
Proof.
  intros Hclaim.
  destruct (Hclaim Examples.env Examples.tie_batch "" (Some Examples.d_9999_12_10)
              ExampleFacts.tie_batch_ok)
    as (out & reverse & fs & ranked & Hrun & Hout & _ & Hsorted & _).
  destruct (ExampleFacts.tie_output out reverse fs Hrun) as (f1 & f2 & -> & Hout' & Hfinal).
  rewrite Hout' in Hout. clear Hout' Hrun.
  destruct ranked as [| a [| b [| c ranked]]]; try discriminate Hout.
  pose proof (f_equal (fun l => s_score <$> head l) Hout) as Hsa.
  pose proof (f_equal (fun l => s_score <$> head (tail l)) Hout) as Hsb.
  pose proof (f_equal (fun l => s_due_date <$> head l) Hout) as Hda.
  pose proof (f_equal (fun l => s_due_date <$> head (tail l)) Hout) as Hdb.
  cbn [head tail fmap option_fmap option_map list_fmap] in Hsa, Hsb, Hda, Hdb.
  apply (inj Some) in Hsa, Hsb, Hda, Hdb.
  rewrite record_score in Hsa, Hsb. rewrite record_due_date in Hda, Hdb.
  cbn [s_score s_due_date scored_record Examples.task Task.due_date fmap option_fmap option_map]
    in Hsa, Hsb, Hda, Hdb.
  apply StronglySorted_inv in Hsorted as [_ Hab].
  apply Forall_cons in Hab as [Hab _]. apply Hab.
  right. split.
  - rewrite <- Hsa, <- Hsb. by rewrite Hfinal.
  - left. destruct (Task.due_date a.1); [done |].
    by destruct (Task.due_date b.1).
Qed.

(** C3, amended: for every batch the result of [score_tasks] holds the
    scored records of the tasks sorted by descending score, then ascending
    due date with a missing due date taken as 9999-12-31 (so after every
    earlier date and tied with that date), then descending importance with
    a missing importance taken as 5; tasks that tie on the three keys keep
    their input order. *)
Theorem C3_ranking `{Builtins} (tasks : list NormalizedTask) (strategy : string)
    (today : option date) :
  Forall task_ok tasks → ranked_output Spec.outranks tasks strategy today.
Proof. apply ranked_output_coded. Qed.

Lemma C3_ranking_witness :
  @ranked_output Examples.env Spec.outranks _ Examples.tie_batch ""
    (Some Examples.d_9999_12_10).
Proof. apply (@C3_ranking Examples.env), ExampleFacts.tie_batch_ok. Defined.


(** C7: for the batch [1 -> [2], 2 -> [1]] [detect_cycles] reports the
    cycle [1, 2, 1], which holds both ids; for the batch without
    dependencies it reports no cycle. *)
Theorem C7_detect_cycles (title1 title2 : string) (due1 due2 : option date)
    (hours1 hours2 : option R) (imp1 imp2 : option Z) :
  (∃ tasks_by_id forward reverse cycles,
     _build_graph (Examples.two_cycle title1 title2 due1 due2 hours1 hours2 imp1 imp2) =
       Ok (tasks_by_id, forward, reverse) ∧
     detect_cycles tasks_by_id = Ok cycles ∧
     cycles = [[1; 2; 1]] ∧
     ∃ c, c ∈ cycles ∧ 1 ∈ c ∧ 2 ∈ c) ∧
  (∃ tasks_by_id forward reverse,
     _build_graph (Examples.no_edges title1 title2 due1 due2 hours1 hours2 imp1 imp2) =
       Ok (tasks_by_id, forward, reverse) ∧
     detect_cycles tasks_by_id = Ok []).
Proof.
  split.
  - eexists _, _, _, _. split_and!.
    + vm_compute. reflexivity.
    + vm_compute. reflexivity.
    + reflexivity.
    + exists [1; 2; 1]. split_and!; [by left | by left | right; by left].
  - eexists _, _, _. split.
    + vm_compute. reflexivity.
    + vm_compute. reflexivity.
Qed.

Section Malformed.
Context `{Builtins}.

Lemma parse_float_nonpositive_int (z : Z) : z <= 0 → _parse_float (PInt z) = Ok None.
Proof.
  intros Hz. unfold _parse_float. simpl. apply IZR_le in Hz.
  by rewrite decide_True by lra.
Qed.

Lemma garbage_normalized :
  normalize_tasks [Examples.garbage] = Ok ([Examples.garbage_task], Examples.garbage_warnings).
Proof.
  unfold normalize_tasks, normalize_from, normalize_one.
  change (raw_get Examples.garbage "estimated_hours") with (PInt (-5)).
  rewrite parse_float_nonpositive_int by lia.
  vm_compute. reflexivity.
Qed.

Lemma auto_assigned_id (idx : Z) (t : RawTask) :
  auto_assigned t → assigned_id idx t = idx + 1.
Proof.
  unfold auto_assigned, assigned_id. destruct (t !! "id") as [v |]; simpl; [| done].
  by intros [e ->].
Qed.

Lemma auto_assigned_ids (raw : list RawTask) :
  Forall auto_assigned raw →
  ∀ k : nat,
    imap (fun i t => assigned_id (Z.of_nat (k + i)) t) raw =
    (fun i => Z.of_nat i + 1) <$> seq k (length raw).
Proof.
  induction 1 as [| t raw Ht _ IH]; intros k; [done |].
  simpl. rewrite auto_assigned_id, Nat.add_0_r by done. f_equal.
  rewrite <- IH. apply imap_ext. intros i x _. simpl. do 2 f_equal. lia.
Qed.

End Malformed.

(** C8: [normalize_tasks] returns for every list of raw records; the
    malformed record normalises to the id 100 without a due date, without
    estimated hours and without an importance, which scoring takes as 5,
    with no dependencies, and one of the warnings contains
    "invalid due_date". *)
Theorem C8_normalize_malformed `{Builtins} :
  (∀ raw, ∃ tasks warnings, normalize_tasks raw = Ok (tasks, warnings)) ∧
  normalize_tasks [Examples.garbage] =
    Ok ([Task.mkTask 100 "Untitled Task 100" None None None []], Examples.garbage_warnings) ∧
  (∃ w, w ∈ Examples.garbage_warnings ∧ Str.contains "invalid due_date" w = true) ∧
  _importance None = (IZR (5 - 1) / 9)%R ∧
  (∀ strategy_key f, s_importance (scored_record strategy_key Examples.garbage_task f) = 5).
Proof.
  split_and!.
  - intros raw. destruct (normalize_tasks_ok raw) as (tasks & warnings & Hn & _).
    by exists tasks, warnings.
  - apply garbage_normalized.
  - exists "Task 100: invalid due_date -> treated as missing". split; [by left |].
    vm_compute. reflexivity.
  - reflexivity.
  - reflexivity.
Qed.

(** C9, as stated: no two normalised tasks share an id. This fails for a
    record with the id 2 followed by a record without an id, which is
    given the id 2 from its position. *)
Lemma C9_counterexample :
  ¬ (∀ (B : Builtins) (raw : list RawTask) tasks warnings,
       normalize_tasks raw = Ok (tasks, warnings) → NoDup (Task.id <$> tasks)).
Proof.
  intros Hclaim.
  destruct (@normalize_tasks_ok Examples.env Examples.clash) as (tasks & warnings & Hn & Hids & _).
  specialize (Hclaim Examples.env Examples.clash tasks warnings Hn).
  rewrite Hids in Hclaim.
  change (NoDup [2; 2]) in Hclaim.
  apply NoDup_cons in Hclaim as [Hnin _]. apply Hnin. by left.
Qed.

(** C9, amended: every normalised task has an integer id, the one of its
    record when [int()] accepts it and otherwise the 1-based position of
    the record; when every record is without an id or has one that
    [int()] rejects, the ids are 1, 2, ... and so pairwise distinct. *)
Theorem C9_assigned_ids `{Builtins} (raw : list RawTask) :
  ∃ tasks warnings,
    normalize_tasks raw = Ok (tasks, warnings) ∧
    Task.id <$> tasks = imap (fun i t => assigned_id (Z.of_nat i) t) raw ∧
    (Forall auto_assigned raw →
     Task.id <$> tasks = (fun i => Z.of_nat i + 1) <$> seq 0 (length raw) ∧
     NoDup (Task.id <$> tasks)).
Proof.
  destruct (normalize_tasks_ok raw) as (tasks & warnings & Hn & Hids & _).
  exists tasks, warnings. split_and!; [done | done |].
  intros Hauto. rewrite Hids.
  pose proof (auto_assigned_ids raw Hauto 0%nat) as Heq. simpl in Heq. rewrite Heq.
  split; [done |]. apply NoDup_fmap_2; [| apply NoDup_seq].
  intros i j ?. lia.
Qed.

Lemma tc_flip {A : Type} (R : relation A) (x y : A) : tc R x y → tc (flip R) y x.
Proof.
  induction 1 as [x y Hxy | x y z Hxy _ IH]; [by apply tc_once |].
  eapply tc_r; [exact IH | exact Hxy].
Qed.

Lemma blocker_score_2 : _blocker_score 2 8 = Ok 0.25%R.
Proof.
  rewrite blocker_score_ok. f_equal.
  unfold Rmax, Rmin. repeat destruct (Rle_dec _ _); lra.
Qed.

Lemma blocker_score_0 : _blocker_score 0 8 = Ok 0%R.
Proof.
  rewrite blocker_score_ok. f_equal.
  unfold Rmax, Rmin. repeat destruct (Rle_dec _ _); lra.
Qed.

(** C10: a task on a dependency cycle is one of its own transitive
    dependents, so it is counted by [_downstream_block_count]; in the
    batch [1 -> [2], 2 -> [1]] the count is 2 for each task, which gives
    the blocker factor 0.25, where a task without dependents has 0. *)
Theorem C10_cycle_counts_itself (tasks : list NormalizedTask) (task_id : Z)
    (title1 title2 : string) (due1 due2 : option date)
    (hours1 hours2 : option R) (imp1 imp2 : option Z) :
  (∃ reverse,
     _build_graph tasks = Ok (tasks_by_id_of tasks, forward_of tasks, reverse) ∧
     (tc (Spec.depends (forward_of tasks)) task_id task_id →
      ∃ seen,
        downstream_seen task_id reverse = Ok seen ∧
        task_id ∈ seen ∧
        _downstream_block_count task_id reverse = Ok (Z.of_nat (size seen)))) ∧
  (∃ tasks_by_id forward reverse,
     _build_graph (Examples.two_cycle title1 title2 due1 due2 hours1 hours2 imp1 imp2) =
       Ok (tasks_by_id, forward, reverse) ∧
     _downstream_block_count 1 reverse = Ok 2 ∧
     _downstream_block_count 2 reverse = Ok 2) ∧
  _blocker_score 2 8 = Ok 0.25%R ∧
  _blocker_score 0 8 = Ok 0%R.
Proof.
  split_and!; [| | apply blocker_score_2 | apply blocker_score_0].
  - destruct (build_graph_ok tasks) as (reverse & Hg & Hrev).
    exists reverse. split; [done |]. intros Hcycle.
    destruct (downstream_seen_spec reverse task_id) as (seen & Hseen & Hspec).
    exists seen. split_and!; [done | |].
    + apply Hspec. apply tc_flip in Hcycle.
      eapply tc_congruence with (f := fun x => x); [| exact Hcycle].
      intros x y Hxy. unfold Spec.dependent_of. by apply Hrev.
    + unfold _downstream_block_count. by rewrite Hseen.
  - eexists _, _, _. split_and!; vm_compute; reflexivity.
Qed.

(** ** The theorems with hypotheses at concrete inputs *)

Lemma sample_task_ok : task_ok Examples.sample_task.
Proof.
  split; simpl; intros ? [= <-]; [lra | lia].
Defined.

Lemma C2_cycle_penalty_witness :
  ∃ out reverse fs,
    @scoring_run Examples.env Examples.two_cycles_through_1 "" None out reverse fs ∧
    out_tasks out ≡ₚ
      zip_with (scored_record (strategy_key_of "")) Examples.two_cycles_through_1 fs ∧
    Forall2 (fun t f =>
               let weights := Spec.weights_for (strategy_key_of "") in
               let n := length (filter (fun c => Task.id t ∈ c) (out_cycles out)) in
               f_base f = (w_urgency weights * f_u f + w_importance weights * f_im f
                           + w_quickwin weights * f_qw f + w_blocker weights * f_bl f)%R ∧
               ((0 < n)%nat → f_final f = (f_base f * 0.85)%R) ∧
               (n = 0%nat → f_final f = f_base f) ∧
               s_score (scored_record (strategy_key_of "") t f) =
                 Float.round2 (f_final f * 100)) Examples.two_cycles_through_1 fs.
Proof.
  apply (@C2_cycle_penalty Examples.env).
  repeat first [apply Forall_nil_2 | apply Forall_cons_2]; split; simpl; intros ? [=].
Defined.

Lemma C5_quickwin_witness :
  ∃ out reverse fs,
    @scoring_run Examples.env [Examples.sample_task] "" None out reverse fs ∧
    max_hours_of [Examples.sample_task] = Ok (Spec.batch_max_hours [Examples.sample_task]) ∧
    ¬ (Spec.batch_max_hours [Examples.sample_task] <= 0)%R ∧
    Forall2 (fun t f =>
               _quickwin (Task.estimated_hours t) (Spec.batch_max_hours [Examples.sample_task]) =
                 Ok (f_qw f) ∧
               f_qw f = Spec.quickwin_formula (default 4%R (Task.estimated_hours t))
                          (Spec.batch_max_hours [Examples.sample_task]) ∧
               (0 <= f_qw f <= 1)%R) [Examples.sample_task] fs.
Proof.
  apply (@C5_quickwin Examples.env).
  apply Forall_cons_2; [apply sample_task_ok | apply Forall_nil_2].
Defined.

Lemma C6_urgency_monotone_witness :
  ∃ f1 f2,
    @task_factors Examples.env Spec.smart_balance_weights 2 ∅ ∅ (Some Examples.d_2025_10_01)
      (Spec.with_due Examples.sample_task Examples.d_2025_10_03) = Ok f1 ∧
    @task_factors Examples.env Spec.smart_balance_weights 2 ∅ ∅ (Some Examples.d_2025_11_05)
      (Spec.with_due Examples.sample_task Examples.d_2025_11_07) = Ok f2 ∧
    (f_u f2 <= f_u f1)%R ∧
    (f_final f2 <= f_final f1)%R.
Proof.
  apply (@C6_urgency_monotone Examples.env Spec.smart_balance_weights 2 ∅ ∅
           Examples.d_2025_10_01 Examples.d_2025_11_05 Examples.sample_task Examples.d_2025_10_03 Examples.d_2025_11_07 1 2).
  - apply sample_task_ok.
  - simpl. lra.
  - vm_compute. reflexivity.
  - vm_compute. reflexivity.
  - lia.
Defined.

(** * Further properties *)

(** ** What the cycle detector reports *)

Section CycleFacts.
Variable tasks_by_id : odict NormalizedTask.

(** The edge that [dfs] follows from [u] to [v]: [v] is a dependency of
    the task stored for [u] and is itself an id of the batch. *)
Definition dfs_edge (u v : Z) : Prop :=
  ∃ t, od_map tasks_by_id !! u = Some t ∧ v ∈ Task.dependencies t ∧
       is_Some (od_map tasks_by_id !! v).

(** Every id of [l] has an edge to the next one. *)
Definition chain (l : list Z) : Prop :=
  ∀ i a b, l !! i = Some a → l !! S i = Some b → dfs_edge a b.

(** A closed walk along the edges: at least one edge, ending where it
    starts. *)
Definition closed_walk (c : list Z) : Prop :=
  chain c ∧ (2 <= length c)%nat ∧ head c = last c.

Lemma chain_snoc (l : list Z) (u v : Z) :
  chain (l ++ [u]) → dfs_edge u v → chain ((l ++ [u]) ++ [v]).
Proof.
  intros Hc He i a b Ha Hb.
  destruct (decide (S i < length (l ++ [u]))%nat) as [Hlt | Hge].
  - rewrite lookup_app_l in Ha, Hb by lia. by eapply Hc.
  - assert (S i = length (l ++ [u])) as Hi.
    { apply lookup_lt_Some in Hb. rewrite length_app in Hb. simpl in Hb. lia. }
    rewrite lookup_app_r in Hb by lia. rewrite Hi, Nat.sub_diag in Hb.
    injection Hb as <-.
    rewrite lookup_app_l in Ha by lia.
    rewrite length_app in Hi. simpl in Hi.
    rewrite lookup_app_r in Ha by lia.
    replace (i - length l)%nat with 0%nat in Ha by lia. by injection Ha as <-.
Qed.

Lemma chain_drop (l : list Z) (n : nat) : chain l → chain (drop n l).
Proof.
  intros Hc i a b. rewrite !lookup_drop.
  replace (n + S i)%nat with (S (n + i)) by lia. apply Hc.
Qed.

Lemma chain_singleton (u : Z) : chain [u].
Proof. intros [| i] a b Ha Hb; done. Qed.

Lemma list_index_lookup (v : Z) (l : list Z) (i : nat) :
  list_index v l = Ok i → l !! i = Some v.
Proof.
  revert i. induction l as [| x l IH]; intros i; simpl; [done |].
  destruct (Z.eqb_spec x v) as [-> | _]; [by intros [= <-] |].
  destruct (list_index v l) as [j |]; simpl; [| done].
  intros [= <-]. by apply IH.
Qed.

(** The cycle that [dfs] records for a back edge from the top [u] of the
    stack to [v] is a closed walk. *)
Lemma recorded_cycle_closed (st : list Z) (u v : Z) (i : nat) :
  chain (st ++ [u]) → dfs_edge u v → list_index v (st ++ [u]) = Ok i →
  closed_walk (drop i (st ++ [u]) ++ [v]).
Proof.
  intros Hc He Hi%list_index_lookup.
  assert (i < length (st ++ [u]))%nat as Hlen by (by eapply lookup_lt_Some).
  rewrite length_app in Hlen. simpl in Hlen.
  assert (drop i (st ++ [u]) = drop i st ++ [u]) as Hdrop.
  { rewrite drop_app_le by lia. done. }
  split_and!.
  - rewrite Hdrop. apply chain_snoc; [| done]. rewrite <- Hdrop. by apply chain_drop.
  - rewrite Hdrop, !length_app. simpl. lia.
  - rewrite last_snoc.
    destruct (drop i (st ++ [u])) as [| x r] eqn:E.
    + apply (f_equal length) in E. rewrite length_drop, length_app in E. simpl in E. lia.
    + simpl. f_equal.
      assert ((x :: r) !! 0%nat = Some x) as H0 by done.
      rewrite <- E, lookup_drop, Nat.add_0_r, Hi in H0. by injection H0.
Qed.

Lemma dfs_edges_sound (rec : Z → dfs_state → result dfs_state) (u : Z) (t : NormalizedTask) :
  od_map tasks_by_id !! u = Some t →
  (∀ v s s', rec v s = Ok s' → chain (stack s ++ [v]) → Forall closed_walk (cycles s) →
             Forall closed_walk (cycles s') ∧ stack s' = stack s) →
  ∀ vs s s',
    vs ⊆ Task.dependencies t →
    dfs_edges rec tasks_by_id vs s = Ok s' →
    (∃ st, stack s = st ++ [u]) → chain (stack s) → Forall closed_walk (cycles s) →
    Forall closed_walk (cycles s') ∧ stack s' = stack s.
Proof.
  intros Ht Hrec. induction vs as [| v vs IH]; intros s s' Hsub Hrun Hst Hc Hcy; simpl in Hrun.
  - by injection Hrun as <-.
  - assert (vs ⊆ Task.dependencies t) as Hsub' by set_solver.
    destruct (od_mem v tasks_by_id) eqn:Hmem; simpl in Hrun; [| by eapply IH].
    assert (dfs_edge u v) as He.
    { exists t. split_and!; [done | set_solver |]. apply od_mem_spec. by rewrite Hmem. }
    destruct Hst as [st Hst].
    destruct (state_get s v =? 0).
    + destruct (rec v s) as [s1 |] eqn:Hr; simpl in Hrun; [| done].
      apply Hrec in Hr as [Hcy1 Hst1]; [| rewrite Hst; apply chain_snoc; by rewrite <- ?Hst | done].
      apply IH in Hrun as [? ?]; [| done | rewrite Hst1; by eexists | by rewrite Hst1 | done].
      split; [done | congruence].
    + destruct (bool_decide (state s !! v = Some 1) && list_mem v (stack s)); [| by eapply IH; eauto].
      destruct (list_index v (stack s)) as [i |] eqn:Hi; simpl in Hrun; [| done].
      apply IH in Hrun as [? ?]; simpl; [done | done | by eexists | done |].
      apply Forall_app. split; [done |]. apply Forall_singleton.
      rewrite Hst in *. by apply recorded_cycle_closed.
Qed.

Lemma dfs_sound (fuel : nat) :
  ∀ u s s',
    dfs fuel tasks_by_id u s = Ok s' →
    chain (stack s ++ [u]) → Forall closed_walk (cycles s) →
    Forall closed_walk (cycles s') ∧ stack s' = stack s.
Proof.
  induction fuel as [| fuel IH]; intros u s s' Hrun Hc Hcy; [done |].
  simpl in Hrun. unfold od_getitem in Hrun.
  destruct (od_map tasks_by_id !! u) as [t |] eqn:Ht; simpl in Hrun; [| done].
  destruct (dfs_edges _ _ _ _) as [s2 |] eqn:He; simpl in Hrun; [| done].
  apply (dfs_edges_sound _ u t Ht IH) in He as [Hcy2 Hst2]; simpl;
    [| done | by eexists | done | done].
  simpl in Hst2. rewrite Hst2, list_pop_snoc in Hrun. simpl in Hrun.
  injection Hrun as <-. by split.
Qed.

Lemma dfs_roots_sound (fuel : nat) (roots : list Z) :
  ∀ s s',
    foldM (fun s tid => if state_get s tid =? 0 then dfs fuel tasks_by_id tid s else Ok s)
      s roots = Ok s' →
    stack s = [] → Forall closed_walk (cycles s) →
    Forall closed_walk (cycles s') ∧ stack s' = [].
Proof.
  induction roots as [| r roots IH]; intros s s' Hrun Hst Hcy; simpl in Hrun.
  - by injection Hrun as <-.
  - destruct (state_get s r =? 0); simpl in Hrun; [| by eapply IH].
    destruct (dfs fuel tasks_by_id r s) as [s1 |] eqn:Hd; simpl in Hrun; [| done].
    apply dfs_sound in Hd as [Hcy1 Hst1]; [| rewrite Hst; apply chain_singleton | done].
    eapply IH; [exact Hrun | congruence | done].
Qed.

(** Every cycle that [detect_cycles] reports is a closed walk along
    dependency edges between ids of the batch. *)
Lemma detect_cycles_sound (cs : list (list Z)) :
  detect_cycles tasks_by_id = Ok cs → Forall closed_walk cs.
Proof.
  unfold detect_cycles.
  destruct (foldM _ _ _) as [s |] eqn:Hrun; simpl; [| done].
  intros [= <-]. by apply dfs_roots_sound in Hrun as [? _].
Qed.

(** A closed walk shows that its first id depends on itself. *)
Lemma closed_walk_tc (c : list Z) : closed_walk c → ∃ v, head c = Some v ∧ tc dfs_edge v v.
Proof.
  intros (Hc & Hlen & Hhl).
  destruct c as [| v c]; [simpl in Hlen; lia |]. exists v. split; [done |].
  simpl in Hhl.
  assert (∀ (l : list Z) (a : Z), l ≠ [] → chain (a :: l) → ∀ b, last (a :: l) = Some b →
            tc dfs_edge a b) as Hwalk.
  { clear. induction l as [| x l IH]; intros a Hne Hc b Hb; [done |].
    assert (dfs_edge a x) as Hax by (by apply (Hc 0%nat)).
    destruct l as [| y l].
    - simpl in Hb. injection Hb as <-. by apply tc_once.
    - eapply tc_l; [exact Hax |]. apply IH; [done | | done].
      intros i p q Hp Hq. by apply (Hc (S i)). }
  apply (Hwalk c v); [| done | done].
  destruct c; [simpl in Hlen; lia | done].
Qed.

(** Two ids of a chain, the first before the second, are linked by edges. *)
Lemma chain_tc (l : list Z) :
  chain l → ∀ j i a b, (i < j)%nat → l !! i = Some a → l !! j = Some b → tc dfs_edge a b.
Proof.
  intros Hc. induction j as [| j IH]; intros i a b Hij Ha Hb; [lia |].
  destruct (lookup_lt_is_Some_2 l j) as [m Hm].
  { apply lookup_lt_Some in Hb. lia. }
  assert (dfs_edge m b) as Hmb by (by apply (Hc j)).
  destruct (decide (i = j)) as [-> | Hne].
  - rewrite Ha in Hm. injection Hm as ->. by apply tc_once.
  - eapply tc_r; [| exact Hmb]. apply (IH i); [lia | done | done].
Qed.

(** Every id of a closed walk depends on itself. *)
Lemma closed_walk_all (c : list Z) (x : Z) : closed_walk c → x ∈ c → tc dfs_edge x x.
Proof.
  intros (Hc & Hlen & Hhl) [i Hi]%list_elem_of_lookup.
  pose proof (lookup_lt_Some _ _ _ Hi) as Hlt.
  destruct (lookup_lt_is_Some_2 c 0) as [v Hv]; [lia |].
  assert (c !! (length c - 1)%nat = Some v) as Hlast.
  { replace (length c - 1)%nat with (Init.Nat.pred (length c)) by lia.
    by rewrite <- last_lookup, <- Hhl, head_lookup. }
  destruct (decide (i = 0%nat)) as [-> | Hi0].
  { rewrite Hi in Hv. injection Hv as ->.
    apply (chain_tc c Hc (length c - 1) 0); [lia | done | done]. }
  destruct (decide (i = (length c - 1)%nat)) as [-> | Hil].
  { rewrite Hi in Hlast. injection Hlast as ->.
    apply (chain_tc c Hc (length c - 1) 0); [lia | done | done]. }
  eapply tc_transitive.
  - apply (chain_tc c Hc (length c - 1) i); [lia | done | exact Hlast].
  - apply (chain_tc c Hc i 0); [lia | done | done].
Qed.

(** *** No cycle reported means no cycle *)

(** The ids that [dfs] has entered and not left are on the stack. *)
Definition visiting_on_stack (s : dfs_state) : Prop :=
  ∀ x, state s !! x = Some 1 → x ∈ stack s.

Definition state_values (s : dfs_state) : Prop :=
  ∀ x c, state s !! x = Some c → c = 1 ∨ c = 2.

Definition finished (s : dfs_state) (x : Z) : Prop := state s !! x = Some 2.

(** The stack holds distinct ids, all of them being visited. *)
Definition stack_visiting (s : dfs_state) : Prop :=
  NoDup (stack s) ∧ ∀ x, x ∈ stack s → state s !! x = Some 1.

(** A recorded cycle [v; ...; v] repeats no id but its first. *)
Definition simple_cycle (c : list Z) : Prop :=
  ∃ v l, c = l ++ [v] ∧ head l = Some v ∧ NoDup l.

(** The finished ids can be numbered so that every edge from a finished id
    leads to a finished id with a smaller number. *)
Definition ranked (s : dfs_state) : Prop :=
  ∃ rank : Z → nat,
    ∀ x y, finished s x → dfs_edge x y → finished s y ∧ (rank y < rank x)%nat.

(** What a call of [dfs], or the loop over the dependencies, does to the
    state. *)
Definition dfs_step (s s' : dfs_state) : Prop :=
  (∀ x, state_get s x ≠ 0 → state s' !! x = state s !! x) ∧
  (∀ x, state s' !! x = Some 1 → state s !! x = Some 1) ∧
  state_values s' ∧
  stack s' = stack s ∧
  (cycles s' = [] → cycles s = []) ∧
  (cycles s' = [] → ranked s → ranked s') ∧
  (stack_visiting s → Forall simple_cycle (cycles s) → Forall simple_cycle (cycles s')).

Lemma dfs_step_refl (s : dfs_state) : state_values s → dfs_step s s.
Proof. intros Hv. by split_and!. Qed.

Lemma dfs_step_stack (s s' : dfs_state) :
  dfs_step s s' → stack_visiting s → stack_visiting s'.
Proof.
  intros (Hf & _ & _ & Hs & _) [Hnd Hst]. unfold stack_visiting. rewrite Hs. split; [done |].
  intros x Hx. rewrite Hf; [by apply Hst |]. unfold state_get. by rewrite (Hst x Hx).
Qed.

Lemma dfs_step_trans (s1 s2 s3 : dfs_state) :
  dfs_step s1 s2 → dfs_step s2 s3 → dfs_step s1 s3.
Proof.
  intros Hstep1 Hstep2. pose proof (dfs_step_stack _ _ Hstep1) as Hst.
  destruct Hstep1 as (Hf1 & Hn1 & Hv1 & Hs1 & Hc1 & Hr1 & Hp1).
  destruct Hstep2 as (Hf2 & Hn2 & Hv2 & Hs2 & Hc2 & Hr2 & Hp2).
  split_and!; [| by auto | done | congruence | by auto | by auto | by auto].
  intros x Hx. rewrite Hf2, Hf1; [done | done |].
  unfold state_get. by rewrite Hf1.
Qed.

Lemma dfs_step_visiting (s s' : dfs_state) :
  dfs_step s s' → visiting_on_stack s → visiting_on_stack s'.
Proof.
  intros (_ & Hn & _ & Hs & _) Hvis x Hx. rewrite Hs. by apply Hvis, Hn.
Qed.

Lemma state_get_finished (s : dfs_state) (x : Z) :
  visiting_on_stack s → state_values s →
  state_get s x ≠ 0 → ¬ (state s !! x = Some 1 ∧ x ∈ stack s) → finished s x.
Proof.
  intros Hvis Hval Hnz Hnot. unfold state_get in Hnz. unfold finished.
  destruct (state s !! x) as [c |] eqn:E; [| done].
  destruct (Hval x c E) as [-> | ->]; [| done].
  exfalso. apply Hnot. split; [done |]. by apply Hvis.
Qed.

Lemma dfs_edges_complete (rec : Z → dfs_state → result dfs_state) :
  (∀ v s s', rec v s = Ok s' → state_get s v = 0 → visiting_on_stack s → state_values s →
             dfs_step s s' ∧ finished s' v) →
  ∀ vs s s',
    dfs_edges rec tasks_by_id vs s = Ok s' →
    visiting_on_stack s → state_values s →
    dfs_step s s' ∧
    (cycles s' = [] → ∀ v, v ∈ vs → is_Some (od_map tasks_by_id !! v) → finished s' v).
Proof.
  intros Hrec. induction vs as [| v vs IH]; intros s s' Hrun Hvis Hval; simpl in Hrun.
  - injection Hrun as <-. split; [by apply dfs_step_refl |]. by intros _ v ?%elem_of_nil.
  - destruct (od_mem v tasks_by_id) eqn:Hmem; simpl in Hrun.
    2:{ apply IH in Hrun as [Hstep Hfin]; [| done | done]. split; [done |].
        intros Hc w [-> | Hw]%elem_of_cons Hsome; [| by apply Hfin].
        apply od_mem_spec in Hsome. by rewrite Hmem in Hsome. }
    destruct (Z.eqb_spec (state_get s v) 0) as [Hz | Hnz].
    + destruct (rec v s) as [s1 |] eqn:Hr; simpl in Hrun; [| done].
      apply Hrec in Hr as [Hstep1 Hfin1]; [| done | done | done].
      apply IH in Hrun as [Hstep2 Hfin2];
        [| by eapply dfs_step_visiting | by destruct Hstep1 as (_ & _ & ? & _)].
      split; [by eapply dfs_step_trans |].
      intros Hc w [-> | Hw]%elem_of_cons Hsome; [| by apply Hfin2].
      destruct Hstep2 as (Hf2 & _). unfold finished in *. rewrite Hf2; [done |].
      unfold state_get. by rewrite Hfin1.
    + destruct (bool_decide (state s !! v = Some 1) && list_mem v (stack s)) eqn:Hcond.
      * destruct (list_index v (stack s)) as [i |] eqn:Hi; simpl in Hrun; [| done].
        apply IH in Hrun as [Hstep Hfin]; [| done | done].
        destruct Hstep as (Hf & Hn & Hv & Hs & Hc & Hr & Hp). simpl in *.
        assert (cycles s' = [] → False) as Hne.
        { intros Hnil%Hc. by destruct (cycles s). }
        split; [split_and!; try done; try (intros ?; by exfalso) |].
        2:{ intros ?. by exfalso. }
        intros Hst Hsimple. apply Hp; [done |].
        apply Forall_app. split; [done |]. apply Forall_singleton.
        exists v, (drop i (stack s)). split_and!; [done | |].
        -- apply list_index_lookup in Hi. rewrite head_lookup, lookup_drop.
           by rewrite Nat.add_0_r.
        -- destruct Hst as [Hnd _]. eapply sublist_NoDup; [exact Hnd | apply sublist_drop].
      * apply IH in Hrun as [Hstep Hfin]; [| done | done]. split; [done |].
        intros Hc w [-> | Hw]%elem_of_cons Hsome; [| by apply Hfin].
        destruct Hstep as (Hf & _). unfold finished. rewrite Hf by done.
        apply state_get_finished; [done | done | done |].
        intros [H1 H2]. apply andb_false_iff in Hcond as [Hc1 | Hc2].
        -- by apply bool_decide_eq_false in Hc1.
        -- by apply bool_decide_eq_false in Hc2.
Qed.

Lemma dfs_complete (fuel : nat) :
  ∀ u s s',
    dfs fuel tasks_by_id u s = Ok s' →
    state_get s u = 0 → visiting_on_stack s → state_values s →
    dfs_step s s' ∧ finished s' u.
Proof.
  induction fuel as [| fuel IH]; intros u s s' Hrun Hz Hvis Hval; [done |].
  simpl in Hrun. unfold od_getitem in Hrun.
  destruct (od_map tasks_by_id !! u) as [t |] eqn:Ht; simpl in Hrun; [| done].
  set (s1 := mkDfs (<[u:=1]> (state s)) (stack s ++ [u]) (cycles s)) in *.
  destruct (dfs_edges _ _ _ _) as [s2 |] eqn:He; simpl in Hrun; [| done].
  assert (visiting_on_stack s1) as Hvis1.
  { intros x Hx. simpl in *. apply elem_of_app.
    destruct (decide (u = x)) as [-> | Hne]; [right; by left |].
    rewrite lookup_insert_ne in Hx by done. left. by apply Hvis. }
  assert (state_values s1) as Hval1.
  { intros x c Hx. simpl in Hx.
    destruct (decide (u = x)) as [-> | Hne].
    - rewrite lookup_insert_eq in Hx. injection Hx as <-. by left.
    - rewrite lookup_insert_ne in Hx by done. by eapply Hval. }
  apply (dfs_edges_complete _ IH) in He as [(Hf & Hn & Hv & Hs & Hc & Hr & Hp) Hfin];
    [| done | done].
  simpl in Hs. rewrite Hs, list_pop_snoc in Hrun. simpl in Hrun. injection Hrun as <-.
  assert (state s2 !! u = Some 1) as Hu2.
  { rewrite Hf; [apply lookup_insert_eq |]. unfold state_get. simpl.
    by rewrite lookup_insert_eq. }
  split; [| apply lookup_insert_eq].
  split_and!; simpl.
  - intros x Hx. assert (u ≠ x) as Hne by (intros ->; done).
    rewrite lookup_insert_ne by done. rewrite Hf.
    + simpl. by rewrite lookup_insert_ne.
    + unfold state_get in *. simpl. by rewrite lookup_insert_ne.
  - intros x Hx. destruct (decide (u = x)) as [-> | Hne].
    + by rewrite lookup_insert_eq in Hx.
    + rewrite lookup_insert_ne in Hx by done. apply Hn in Hx. simpl in Hx.
      by rewrite lookup_insert_ne in Hx.
  - intros x c Hx. simpl in Hx. destruct (decide (u = x)) as [-> | Hne].
    + rewrite lookup_insert_eq in Hx. injection Hx as <-. by right.
    + rewrite lookup_insert_ne in Hx by done. by eapply Hv.
  - done.
  - done.
  - intros Hnil [rank Hrank].
    assert (ranked s1) as Hr1.
    { exists rank. intros x y Hx Hxy. unfold finished in *. simpl in *.
      assert (u ≠ x) as Hne by (intros ->; by rewrite lookup_insert_eq in Hx).
      rewrite lookup_insert_ne in Hx by done.
      destruct (Hrank x y Hx Hxy) as [Hy Hlt]. split; [| done].
      rewrite lookup_insert_ne; [done |]. intros ->.
      unfold state_get in Hz. by rewrite Hy in Hz. }
    destruct (Hr Hnil Hr1) as [rank2 Hrank2].
    exists (fun x => if decide (x = u) then S (max_list (rank2 <$> Task.dependencies t))
                     else rank2 x).
    assert (∀ y, finished s2 y → y ≠ u) as Hnu.
    { intros y Hy ->. unfold finished in Hy. congruence. }
    intros x y Hx Hxy. unfold finished in Hx |- *. simpl in *.
    destruct (decide (x = u)) as [-> | Hne].
    + destruct Hxy as (t' & Ht' & Hin & Hsome).
      rewrite Ht in Ht'. injection Ht' as <-.
      pose proof (Hfin Hnil y Hin Hsome) as Hy.
      pose proof (Hnu y Hy) as Hyu.
      rewrite lookup_insert_ne by done. split; [done |].
      rewrite decide_False by done.
      assert (rank2 y ≤ max_list (rank2 <$> Task.dependencies t))%nat; [| lia].
      apply max_list_elem_of_le, list_elem_of_fmap. by exists y.
    + rewrite lookup_insert_ne in Hx by done.
      destruct (Hrank2 x y Hx Hxy) as [Hy Hlt].
      pose proof (Hnu y Hy) as Hyu.
      rewrite lookup_insert_ne by done. split; [done |].
      by rewrite decide_False by done.
  - intros [Hnd Hst] Hsimple. apply Hp; [| done]. split; simpl.
    + apply NoDup_app. split_and!; [done | | apply NoDup_singleton].
      intros x Hx ->%list_elem_of_singleton. apply Hst in Hx.
      unfold state_get in Hz. by rewrite Hx in Hz.
    + intros x [Hx | ->%list_elem_of_singleton]%elem_of_app.
      * rewrite lookup_insert_ne; [by apply Hst |]. intros ->. apply Hst in Hx.
        unfold state_get in Hz. by rewrite Hx in Hz.
      * apply lookup_insert_eq.
Qed.

Lemma dfs_roots_complete (fuel : nat) (roots : list Z) :
  ∀ s s',
    foldM (fun s tid => if state_get s tid =? 0 then dfs fuel tasks_by_id tid s else Ok s)
      s roots = Ok s' →
    visiting_on_stack s → state_values s →
    dfs_step s s' ∧ ∀ r, r ∈ roots → state_get s' r ≠ 0.
Proof.
  induction roots as [| r roots IH]; intros s s' Hrun Hvis Hval; simpl in Hrun.
  - injection Hrun as <-. split; [by apply dfs_step_refl |]. by intros r ?%elem_of_nil.
  - destruct (Z.eqb_spec (state_get s r) 0) as [Hz | Hnz]; simpl in Hrun.
    + destruct (dfs fuel tasks_by_id r s) as [s1 |] eqn:Hd; simpl in Hrun; [| done].
      apply dfs_complete in Hd as [Hstep1 Hfin1]; [| done | done | done].
      apply IH in Hrun as [Hstep2 Hroots];
        [| by eapply dfs_step_visiting | by destruct Hstep1 as (_ & _ & ? & _)].
      split; [by eapply dfs_step_trans |].
      intros x [-> | Hx]%elem_of_cons; [| by apply Hroots].
      destruct Hstep2 as (Hf & _). unfold state_get. rewrite Hf.
      * unfold finished in Hfin1. by rewrite Hfin1.
      * unfold state_get. unfold finished in Hfin1. by rewrite Hfin1.
    + apply IH in Hrun as [Hstep Hroots]; [| done | done]. split; [done |].
      intros x [-> | Hx]%elem_of_cons; [| by apply Hroots].
      destruct Hstep as (Hf & _). unfold state_get in *. by rewrite Hf.
Qed.

Hypothesis tb_wf : od_wf tasks_by_id.

(** When [detect_cycles] reports nothing, no id depends on itself. *)
Lemma detect_cycles_complete :
  detect_cycles tasks_by_id = Ok [] → ∀ x, ¬ tc dfs_edge x x.
Proof.
  unfold detect_cycles.
  destruct (foldM _ _ _) as [s |] eqn:Hrun; simpl; [| done].
  intros [= Hnil].
  apply dfs_roots_complete in Hrun as [(_ & Hn & Hv & Hs & _ & Hr & _) Hroots].
  2:{ by intros x. }
  2:{ by intros x c. }
  simpl in *.
  destruct (Hr Hnil) as [rank Hrank].
  { exists (fun _ => 0%nat). by intros x y. }
  assert (∀ x, is_Some (od_map tasks_by_id !! x) → finished s x) as Hall.
  { intros x Hx. apply state_get_finished; [| done | |].
    - intros y Hy%Hn. simpl in Hy. by rewrite lookup_empty in Hy.
    - apply Hroots. by apply tb_wf.
    - intros [_ Hin]. rewrite Hs in Hin. by apply elem_of_nil in Hin. }
  assert (∀ x y, tc dfs_edge x y → finished s x → finished s y ∧ (rank y < rank x)%nat)
    as Hdesc.
  { induction 1 as [x y Hxy | x y z Hxy _ IH]; intros Hx; [by apply Hrank |].
    destruct (Hrank x y Hx Hxy) as [Hy Hlt]. destruct (IH Hy) as [Hz Hlt']. split; [done | lia]. }
  intros x Hcyc.
  assert (finished s x) as Hx.
  { apply Hall. inversion Hcyc as [? ? (t & Ht & _) | ? ? ? (t & Ht & _)]; by exists t. }
  destruct (Hdesc x x Hcyc Hx) as [_ Hlt]. lia.
Qed.

(** Every reported cycle repeats no id but its first. *)
Lemma detect_cycles_simple (cs : list (list Z)) :
  detect_cycles tasks_by_id = Ok cs → Forall simple_cycle cs.
Proof.
  unfold detect_cycles.
  destruct (foldM _ _ _) as [s |] eqn:Hrun; simpl; [| done].
  intros [= <-].
  apply dfs_roots_complete in Hrun as [(_ & _ & _ & _ & _ & _ & Hp) _].
  - apply Hp; [| done]. split; [constructor | by intros x ?%elem_of_nil].
  - by intros x.
  - by intros x c.
Qed.

(** [detect_cycles] reports a cycle exactly when some task depends on
    itself through a chain of dependencies inside the batch. *)
Lemma detect_cycles_iff :
  ∃ cs, detect_cycles tasks_by_id = Ok cs ∧
        Forall closed_walk cs ∧
        (cs = [] ↔ ∀ x, ¬ tc dfs_edge x x).
Proof.
  destruct (detect_cycles_ok tasks_by_id tb_wf) as [cs Hcs].
  exists cs. split; [done |]. split; [by apply detect_cycles_sound |]. split.
  - intros ->. by apply detect_cycles_complete.
  - intros Hacyc. destruct cs as [| c cs]; [done |].
    apply detect_cycles_sound in Hcs. apply Forall_cons in Hcs as [Hc _].
    apply closed_walk_tc in Hc as (v & _ & Hv). by destruct (Hacyc v).
Qed.

End CycleFacts.

(** ** Duplicate ids and the edges of the graph *)

Section GraphLink.

(** A dict comprehension keeps, for every id, the value of the last task
    with that id. *)
Lemma comprehension_last {V : Type} (f : NormalizedTask → V) (tasks : list NormalizedTask) :
  ∀ (d0 : odict V) (k : Z),
    od_map (comprehension f d0 tasks) !! k =
      match last (filter (fun t => Task.id t = k) tasks) with
      | Some t => Some (f t)
      | None => od_map d0 !! k
      end.
Proof.
  induction tasks as [| t tasks IH]; intros d0 k; [done |].
  rewrite comprehension_cons, IH, filter_cons.
  destruct (decide (Task.id t = k)) as [<- | Hne].
  - rewrite last_cons. destruct (last _); [done |]. simpl. apply lookup_insert_eq.
  - destruct (last _); [done |]. simpl. by rewrite lookup_insert_ne.
Qed.

Lemma tasks_by_id_last (tasks : list NormalizedTask) (k : Z) :
  od_map (tasks_by_id_of tasks) !! k = last (filter (fun t => Task.id t = k) tasks).
Proof.
  unfold tasks_by_id_of. rewrite comprehension_last. by destruct (last _).
Qed.

Lemma forward_last (tasks : list NormalizedTask) (k : Z) :
  od_map (forward_of tasks) !! k =
    (fun t => filter (fun d => Is_true (od_mem d (tasks_by_id_of tasks))) (Task.dependencies t))
      <$> last (filter (fun t => Task.id t = k) tasks).
Proof.
  unfold forward_of. rewrite comprehension_last. by destruct (last _).
Qed.

(** The edges that [dfs] follows are the edges of [forward]. *)
Lemma dfs_edge_depends (tasks : list NormalizedTask) (u v : Z) :
  dfs_edge (tasks_by_id_of tasks) u v ↔ Spec.depends (forward_of tasks) u v.
Proof.
  unfold dfs_edge, Spec.depends. rewrite forward_last, tasks_by_id_last.
  destruct (last _) as [t |]; simpl.
  - split.
    + intros (t' & [= <-] & Hv & Hsome). eexists. split; [done |].
      apply list_elem_of_filter. split; [| done]. by apply od_mem_spec.
    + intros (l & [= <-] & [Hm Hv]%list_elem_of_filter).
      exists t. split_and!; [done | done |]. by apply od_mem_spec.
  - split; [by intros (? & ? & _) | by intros (? & ? & _)].
Qed.

Lemma tc_iff {A : Type} (R1 R2 : relation A) (x y : A) :
  (∀ a b, R1 a b ↔ R2 a b) → tc R1 x y ↔ tc R2 x y.
Proof.
  intros HR. split; apply (tc_congruence (fun a => a)); intros a b; apply HR.
Qed.

Lemma dfs_edge_tc (tasks : list NormalizedTask) (x y : Z) :
  tc (dfs_edge (tasks_by_id_of tasks)) x y ↔ tc (Spec.depends (forward_of tasks)) x y.
Proof. apply tc_iff, dfs_edge_depends. Qed.

End GraphLink.

(** X2: Every cycle that [detect_cycles] reports starts and ends with the same
    id, repeats no other id, follows dependency edges of the batch from
    each id to the next, and so consists of ids that depend on
    themselves. *)
Theorem detect_cycles_reports_cycles (tasks : list NormalizedTask) :
  ∃ cs,
    detect_cycles (tasks_by_id_of tasks) = Ok cs ∧
    ∀ c, c ∈ cs →
      (∃ v l, c = l ++ [v] ∧ head l = Some v ∧ NoDup l) ∧
      (∀ i a b, c !! i = Some a → c !! S i = Some b → Spec.depends (forward_of tasks) a b) ∧
      (∀ x, x ∈ c → tc (Spec.depends (forward_of tasks)) x x).
Proof.
  destruct (detect_cycles_ok _ (tasks_by_id_wf tasks)) as [cs Hcs].
  exists cs. split; [done |]. intros c Hc.
  pose proof (detect_cycles_sound _ _ Hcs) as Hsound.
  pose proof (detect_cycles_simple _ _ Hcs) as Hsimple.
  rewrite Forall_forall in Hsound, Hsimple.
  split_and!.
  - by apply Hsimple.
  - intros i a b Ha Hb. apply dfs_edge_depends.
    destruct (Hsound c Hc) as (Hchain & _). by apply (Hchain i).
  - intros x Hx. apply dfs_edge_tc. eapply closed_walk_all; [by apply Hsound | done].
Qed.

(** X3: [detect_cycles] reports no cycle exactly when no id of the batch
    depends on itself through a chain of dependencies. *)
Theorem detect_cycles_none_iff_acyclic (tasks : list NormalizedTask) :
  ∃ cs,
    detect_cycles (tasks_by_id_of tasks) = Ok cs ∧
    (cs = [] ↔ ∀ x, ¬ tc (Spec.depends (forward_of tasks)) x x).
Proof.
  destruct (detect_cycles_iff _ (tasks_by_id_wf tasks)) as (cs & Hcs & _ & Hiff).
  exists cs. split; [done |]. rewrite Hiff.
  split; intros Hac x Hx; apply (Hac x); by apply dfs_edge_tc.
Qed.

(** X4: A task on a dependency cycle need not be in any reported cycle: in
    [missed_cycle] the id 2 depends on itself and is not reported. *)
Theorem detect_cycles_misses_members :
  ¬ (∀ tasks cs x,
       detect_cycles (tasks_by_id_of tasks) = Ok cs →
       tc (Spec.depends (forward_of tasks)) x x → x ∈ _cycle_nodes cs).
Proof.
  intros Hall.
  assert (detect_cycles (tasks_by_id_of missed_cycle) = Ok [[1; 3; 1]]) as Hcs
    by (vm_compute; reflexivity).
  specialize (Hall missed_cycle _ 2 Hcs).
  assert (∀ a b l, od_map (forward_of missed_cycle) !! a = Some l → b ∈ l →
                   Spec.depends (forward_of missed_cycle) a b) as Hdep.
  { intros a b l Hl Hb. by exists l. }
  apply elem_of_cycle_nodes in Hall as (c & Hc & Hx).
  - apply list_elem_of_singleton in Hc as ->. set_solver.
  - eapply tc_l; [apply (Hdep 2 3 [3]); [vm_compute; reflexivity | set_solver] |].
    eapply tc_l; [apply (Hdep 3 1 [1]); [vm_compute; reflexivity | set_solver] |].
    apply tc_once. apply (Hdep 1 2 [3; 2]); [vm_compute; reflexivity | set_solver].
Qed.

(** ** Transitive dependents *)

Section DependentsFacts.

Lemma size_list_to_set_le (l : list Z) : (size (list_to_set l : gset Z) <= length l)%nat.
Proof.
  induction l as [| x l IH]; [rewrite list_to_set_nil, size_empty; simpl; lia |].
  rewrite list_to_set_cons, length_cons.
  destruct (decide (x ∈ (list_to_set l : gset Z))) as [Hin | Hnin].
  - replace ({[x]} ∪ list_to_set l : gset Z) with (list_to_set l : gset Z) by set_solver. lia.
  - rewrite size_union by set_solver. rewrite size_singleton. lia.
Qed.

Lemma tc_last_step {A : Type} (R : relation A) (x y : A) : tc R x y → ∃ z, R z y.
Proof. induction 1 as [x y Hxy | x y z _ _ IH]; [by exists x | done]. Qed.

Lemma tc_first_step {A : Type} (R : relation A) (x y : A) : tc R x y → ∃ z, R x z.
Proof. destruct 1 as [x y Hxy | x y z Hxy _]; by exists y. Qed.

(** The set [seen] of [_downstream_block_count], in terms of the forward
    edges of the batch. *)
Lemma downstream_seen_depends (tasks : list NormalizedTask) (task_id : Z) :
  ∃ reverse seen,
    _build_graph tasks = Ok (tasks_by_id_of tasks, forward_of tasks, reverse) ∧
    downstream_seen task_id reverse = Ok seen ∧
    ∀ x, x ∈ seen ↔ tc (Spec.depends (forward_of tasks)) x task_id.
Proof.
  destruct (build_graph_ok tasks) as (reverse & Hg & Hrev).
  destruct (downstream_seen_spec reverse task_id) as (seen & Hseen & Hspec).
  exists reverse, seen. split_and!; [done | done |].
  intros x. rewrite Hspec. split; intros Htc%tc_flip.
  - eapply (tc_congruence (fun a => a)); [| exact Htc].
    intros a b Hab. unfold flip, Spec.dependent_of in Hab. by apply Hrev.
  - eapply (tc_congruence (fun a => a)); [| exact Htc].
    intros a b Hab. unfold flip in Hab. unfold Spec.dependent_of. by apply Hrev.
Qed.

Lemma depends_in_batch (tasks : list NormalizedTask) (a b : Z) :
  Spec.depends (forward_of tasks) a b → a ∈ Task.id <$> tasks ∧ b ∈ Task.id <$> tasks.
Proof.
  intros (l & Hl & Hb). split.
  - assert (is_Some (od_map (forward_of tasks) !! a)) as Hs by (by eexists).
    apply comprehension_dom in Hs as [[? Hs] | ?]; [| done].
    simpl in Hs. by rewrite lookup_empty in Hs.
  - by eapply forward_lookup.
Qed.

Lemma downstream_seen_size (tasks : list NormalizedTask) (task_id : Z) (seen : gset Z) :
  (∀ x, x ∈ seen → tc (Spec.depends (forward_of tasks)) x task_id) →
  (size seen <= length tasks)%nat.
Proof.
  intros Hspec. transitivity (size (list_to_set (Task.id <$> tasks) : gset Z)).
  - apply subseteq_size. intros x Hx. apply elem_of_list_to_set.
    apply Hspec, tc_first_step in Hx as [z Hz]. by apply depends_in_batch in Hz as [? _].
  - rewrite <- (length_fmap Task.id tasks). apply size_list_to_set_le.
Qed.

Lemma downstream_count_bounds (tasks : list NormalizedTask) (task_id : Z) :
  ∃ reverse n,
    _build_graph tasks = Ok (tasks_by_id_of tasks, forward_of tasks, reverse) ∧
    _downstream_block_count task_id reverse = Ok n ∧
    0 <= n <= Z.of_nat (length tasks).
Proof.
  destruct (downstream_seen_depends tasks task_id) as (reverse & seen & Hg & Hseen & Hspec).
  exists reverse, (Z.of_nat (size seen)). split_and!; [done | | lia |].
  - unfold _downstream_block_count. by rewrite Hseen.
  - apply inj_le. apply (downstream_seen_size tasks task_id). intros x. apply Hspec.
Qed.

End DependentsFacts.

(** X5: [_downstream_block_count] returns the number of distinct ids that
    depend on [task_id] through one or more dependency edges of the batch.
    The count is at most the number of tasks, and it is 0 exactly when no
    task of the batch lists [task_id] among its dependencies. *)
Theorem downstream_count_transitive_dependents (tasks : list NormalizedTask) (task_id : Z) :
  ∃ reverse (seen : gset Z),
    _build_graph tasks = Ok (tasks_by_id_of tasks, forward_of tasks, reverse) ∧
    _downstream_block_count task_id reverse = Ok (Z.of_nat (size seen)) ∧
    (∀ x, x ∈ seen ↔ tc (Spec.depends (forward_of tasks)) x task_id) ∧
    0 <= Z.of_nat (size seen) <= Z.of_nat (length tasks) ∧
    (size seen = 0%nat ↔ ∀ x, ¬ Spec.depends (forward_of tasks) x task_id).
Proof.
  destruct (downstream_seen_depends tasks task_id) as (reverse & seen & Hg & Hseen & Hspec).
  exists reverse, seen. split_and!; [done | | done | lia | |].
  - unfold _downstream_block_count. by rewrite Hseen.
  - apply inj_le. apply (downstream_seen_size tasks task_id). intros x. apply Hspec.
  - rewrite size_empty_iff. split.
    + intros Hempty x Hx. apply (not_elem_of_empty (C := gset Z) x).
      rewrite <- Hempty. apply Hspec. by apply tc_once.
    + intros Hnone. apply set_equiv. intros x. rewrite elem_of_empty, Hspec.
      split; [| done]. intros [z Hz]%tc_last_step. by apply (Hnone z).
Qed.

(** X6: A task blocks at least as many tasks as any task that depends on it,
    and strictly more when that task is not on a cycle. *)
Theorem downstream_count_monotone (tasks : list NormalizedTask) (a b : Z) :
  tc (Spec.depends (forward_of tasks)) a b →
  ∃ reverse na nb,
    _build_graph tasks = Ok (tasks_by_id_of tasks, forward_of tasks, reverse) ∧
    _downstream_block_count a reverse = Ok na ∧
    _downstream_block_count b reverse = Ok nb ∧
    na <= nb ∧
    (¬ tc (Spec.depends (forward_of tasks)) a a → na < nb).
Proof.
  intros Hab.
  destruct (downstream_seen_depends tasks a) as (reverse & sa & Hg & Hsa & Ha).
  destruct (downstream_seen_depends tasks b) as (reverse' & sb & Hg' & Hsb & Hb).
  rewrite Hg in Hg'. injection Hg' as <-.
  exists reverse, (Z.of_nat (size sa)), (Z.of_nat (size sb)).
  unfold _downstream_block_count. rewrite Hsa, Hsb. simpl.
  assert (sa ⊆ sb) as Hsub.
  { intros x Hx. apply Hb. eapply tc_transitive; [by apply Ha | done]. }
  split_and!; [done | done | done | |].
  - apply inj_le. by apply subseteq_size.
  - intros Hna. apply inj_lt. apply subset_size. split; [done |].
    intros Hsub'. apply Hna, Ha, Hsub', Hb, Hab.
Qed.

(** ** Working days over adjacent periods *)

Section WorkingDaysFacts.
Context `{Builtins}.
Import DateFacts.

Lemma days_from_split (n m : nat) :
  ∀ d mid due : date,
    Date.toordinal mid - Date.toordinal d = Z.of_nat n →
    Date.toordinal due - Date.toordinal mid = Z.of_nat m →
    Spec.days_from (n + m) d = Spec.days_from n d ++ Spec.days_from m mid.
Proof.
  induction n as [| n IH]; intros d mid due Hn Hm.
  - assert (mid = d) as -> by (apply toordinal_inj; lia). done.
  - assert (Date.lt d due) as Hlt by (apply lt_toordinal; lia).
    destruct (add_one_day_ok d due Hlt) as (d' & Hd' & Hord).
    change (S n + m)%nat with (S (n + m)). simpl Spec.days_from. rewrite Hd'.
    rewrite (IH d' mid due) by lia. done.
Qed.

Lemma days_from_length (n : nat) (d due : date) :
  Date.toordinal due - Date.toordinal d = Z.of_nat n →
  length (Spec.days_from n d) = n.
Proof.
  intros Hn. rewrite <- (length_fmap Date.toordinal), (days_from_ordinals n d due Hn).
  by rewrite length_fmap, length_seq.
Qed.

Lemma working_days_split (today mid due : date) :
  Date.le today mid → Date.le mid due →
  Spec.working_days today due = Spec.working_days today mid + Spec.working_days mid due.
Proof.
  intros H1%le_toordinal H2%le_toordinal. unfold Spec.working_days, Spec.calendar_days.
  replace (Z.to_nat (Date.toordinal due - Date.toordinal today))
    with (Z.to_nat (Date.toordinal mid - Date.toordinal today)
          + Z.to_nat (Date.toordinal due - Date.toordinal mid))%nat by lia.
  rewrite (days_from_split _ _ today mid due) by lia.
  rewrite filter_app, length_app. lia.
Qed.

Lemma working_days_le_calendar (today due : date) :
  Date.le today due →
  Spec.working_days today due <= Date.toordinal due - Date.toordinal today.
Proof.
  intros Hle%le_toordinal. unfold Spec.working_days, Spec.calendar_days.
  pose proof (length_filter (fun d => Is_true (Spec.is_working_day d))
                (Spec.days_from (Z.to_nat (Date.toordinal due - Date.toordinal today)) today))
    as Hlen.
  rewrite (days_from_length _ today due) in Hlen by lia. lia.
Qed.

Lemma working_days_one (d d' : date) :
  Date.add_one_day d = Ok d' →
  Spec.working_days d d' = if Spec.is_working_day d then 1 else 0.
Proof.
  intros Hd.
  assert (Date.toordinal d' = Date.toordinal d + 1) as Hord.
  { unfold Date.add_one_day in Hd. pose proof (next_ymd_ord d) as Hn.
    destruct (Date.next_ymd d) as [[y m] dd]. unfold Date.make_date in Hd.
    destruct (decide _); [| done]. simpl in Hd. injection Hd as <-. exact Hn. }
  unfold Spec.working_days, Spec.calendar_days.
  replace (Z.to_nat (Date.toordinal d' - Date.toordinal d)) with 1%nat by lia.
  simpl Spec.days_from. rewrite Hd. rewrite filter_cons, filter_nil.
  by destruct (Spec.is_working_day d).
Qed.

Lemma urgency_decay_range (w : Z) : 0 <= w → (0 < Spec.urgency_decay w <= 1)%R.
Proof.
  intros Hw%IZR_le. unfold Spec.urgency_decay. split.
  - apply Rdiv_lt_0_compat; lra.
  - apply (Rmult_le_reg_r (1 + IZR w / 5)); [lra |].
    unfold Rdiv at 1. rewrite Rmult_assoc, Rinv_l by lra. lra.
Qed.

Lemma urgency_decay_antitone_le (w1 w2 : Z) :
  0 <= w1 <= w2 → (Spec.urgency_decay w2 <= Spec.urgency_decay w1)%R.
Proof.
  intros [H0 Hle]. destruct (decide (w1 = w2)) as [-> | Hne]; [lra |].
  apply Rlt_le, urgency_decay_antitone. lia.
Qed.

End WorkingDaysFacts.

(** X7: [_working_days_until] returns for every pair of dates: -1 exactly when
    the due date is before the reference date, and otherwise a count
    between 0 and the number of calendar days from the reference date to
    the due date. *)
Theorem working_days_until_range `{Builtins} (due : date) (today : option date) :
  ∃ w,
    _working_days_until due today = Ok w ∧
    (w = -1 ↔ Date.lt due (default date_today today)) ∧
    (Date.le (default date_today today) due →
     0 <= w <= Date.toordinal due - Date.toordinal (default date_today today)).
Proof.
  rewrite working_days_until_total. cbv zeta. eexists. split; [done |].
  set (t := default date_today today).
  pose proof (working_days_nonneg t due) as Hnn.
  destruct (Date.ltb due t) eqn:E.
  - split; [split; [intros _; by apply Is_true_true | done] |].
    intros Hle. exfalso. apply Hle. by apply Is_true_true.
  - split; [split; [lia | intros Hlt; apply Is_true_true in Hlt; congruence] |].
    intros Hle. split; [done |]. by apply working_days_le_calendar.
Qed.

(** X8: The working days up to a due date are those up to any date in between
    plus those from that date on. *)
Theorem working_days_until_additive `{Builtins} (today mid due : date) :
  Date.le today mid → Date.le mid due →
  ∃ a b,
    _working_days_until mid (Some today) = Ok a ∧
    _working_days_until due (Some mid) = Ok b ∧
    _working_days_until due (Some today) = Ok (a + b).
Proof.
  intros H1 H2. rewrite !working_days_until_total. cbv zeta. simpl default.
  assert (Date.le today due) as H3.
  { apply DateFacts.le_toordinal. apply DateFacts.le_toordinal in H1, H2. lia. }
  assert (∀ a b, Date.le a b → Date.ltb b a = false) as Hltb.
  { intros a b Hab. destruct (Date.ltb b a) eqn:E; [| done].
    exfalso. apply Hab. by apply Is_true_true. }
  rewrite !Hltb by done. eexists _, _. split_and!; [done | done |].
  f_equal. by apply working_days_split.
Qed.

(** X9: Moving a due date, on or after the reference date, to the next day adds
    one working day when the old due date is a working day, and none when
    it falls on a weekend or a fixed holiday. *)
Theorem working_days_until_next_day `{Builtins} (today due due' : date) :
  Date.le today due → Date.add_one_day due = Ok due' →
  ∃ w,
    _working_days_until due (Some today) = Ok w ∧
    _working_days_until due' (Some today) =
      Ok (if _is_non_working_day due then w else w + 1).
Proof.
  intros Hle Hnext.
  assert (Date.toordinal due' = Date.toordinal due + 1) as Hord.
  { unfold Date.add_one_day in Hnext. pose proof (DateFacts.next_ymd_ord due) as Hn.
    destruct (Date.next_ymd due) as [[y m] dd]. unfold Date.make_date in Hnext.
    destruct (decide _); [| done]. simpl in Hnext. injection Hnext as <-. exact Hn. }
  assert (Date.le due due') as Hle' by (apply DateFacts.le_toordinal; lia).
  assert (Date.le today due') as Hle''.
  { apply DateFacts.le_toordinal. apply DateFacts.le_toordinal in Hle. lia. }
  assert (∀ a b, Date.le a b → Date.ltb b a = false) as Hltb.
  { intros a b Hab. destruct (Date.ltb b a) eqn:E; [| done].
    exfalso. apply Hab. by apply Is_true_true. }
  rewrite !working_days_until_total. cbv zeta. simpl default. rewrite !Hltb by done.
  eexists. split; [done |]. f_equal.
  rewrite (working_days_split today due due') by done.
  rewrite (working_days_one due due' Hnext), is_non_working_day_spec.
  destruct (Spec.is_working_day due); simpl; lia.
Qed.

(** X10: The urgency factor lies in (0, 1], and a later due date never gives a
    higher urgency, whatever the reference date. *)
Theorem urgency_antitone_in_due `{Builtins} (today : option date) (d1 d2 : date) :
  Date.le d1 d2 →
  ∃ u1 u2,
    _urgency (Some d1) today = Ok u1 ∧
    _urgency (Some d2) today = Ok u2 ∧
    (0 < u2 <= u1)%R ∧ (u1 <= 1)%R.
Proof.
  intros Hle. rewrite !urgency_total. cbv zeta.
  set (t := default date_today today).
  eexists _, _. split; [done |]. split; [done |]. split.
  - destruct (Date.ltb d2 t) eqn:E2.
    + destruct (Date.ltb d1 t) eqn:E1; [lra |].
      exfalso. rewrite DateFacts.ltb_toordinal in E1, E2.
      apply DateFacts.le_toordinal in Hle. lia.
    + rewrite DateFacts.ltb_toordinal in E2. apply Z.ltb_ge in E2.
      pose proof (working_days_nonneg t d2) as Hn2.
      pose proof (urgency_decay_range _ Hn2).
      destruct (Date.ltb d1 t) eqn:E1; [lra |].
      rewrite DateFacts.ltb_toordinal in E1. apply Z.ltb_ge in E1.
      split; [lra |]. apply urgency_decay_antitone_le.
      pose proof (working_days_nonneg t d1) as Hn1.
      rewrite (working_days_split t d1 d2);
        [| by apply DateFacts.le_toordinal | done].
      pose proof (working_days_nonneg d1 d2). lia.
  - destruct (Date.ltb d1 t); [lra |].
    apply urgency_decay_range, working_days_nonneg.
Qed.

(** X11: A task without a due date is more urgent than a task due in more than
    15 working days, and less urgent than one due in fewer than 15. *)
Theorem urgency_undated_threshold `{Builtins} (today : option date) (due : date) (w : Z) :
  _working_days_until due today = Ok w → 0 <= w →
  ∃ u u0,
    _urgency (Some due) today = Ok u ∧
    _urgency None today = Ok u0 ∧
    (15 < w → (u < u0)%R) ∧ (w = 15 → u = u0) ∧ (w < 15 → (u0 < u)%R).
Proof.
  intros Hw H0. rewrite !urgency_total. cbv zeta.
  rewrite working_days_until_total in Hw. cbv zeta in Hw. injection Hw as Hw.
  destruct (Date.ltb due _); [lia |]. rewrite Hw.
  eexists _, _. split_and!; [done | done | | |]; unfold Spec.urgency_decay.
  - intros Hlt%IZR_lt. apply (Rmult_lt_reg_r (1 + IZR w / 5)); [apply IZR_le in H0; lra |].
    unfold Rdiv at 1. rewrite Rmult_assoc, Rinv_l by (apply IZR_le in H0; lra). lra.
  - intros ->. lra.
  - intros Hlt%IZR_lt. apply IZR_le in H0.
    apply (Rmult_lt_reg_r (1 + IZR w / 5)); [lra |].
    unfold Rdiv at 2. rewrite Rmult_assoc, Rinv_l by lra. lra.
Qed.

(** ** Ranges of the factors and of the score *)

Section RangeFacts.
Context `{Builtins}.

Lemma ln_1p_pos (M : R) : (0 < M)%R → (0 < ln (1 + M))%R.
Proof. intros HM. rewrite <- ln_1. apply ln_increasing; lra. Qed.

Lemma ln_1p_mono (a b : R) : (-1 < a <= b)%R → (ln (1 + a) <= ln (1 + b))%R.
Proof.
  intros [Ha Hab]. destruct (Req_dec a b) as [-> | Hne]; [lra |].
  apply Rlt_le, ln_increasing; lra.
Qed.

Lemma quickwin_formula_antitone (h1 h2 M : R) :
  (-1 < h1 <= h2)%R → (0 < M)%R →
  (Spec.quickwin_formula h2 M <= Spec.quickwin_formula h1 M)%R.
Proof.
  intros Hh HM. unfold Spec.quickwin_formula.
  pose proof (ln_1p_pos M HM) as Hpos. pose proof (ln_1p_mono h1 h2 Hh) as Hln.
  assert (ln (1 + h1) / ln (1 + M) <= ln (1 + h2) / ln (1 + M))%R as Hdiv.
  { unfold Rdiv. apply Rmult_le_compat_r; [| done]. apply Rlt_le. by apply Rinv_0_lt_compat. }
  unfold Rmax, Rmin. repeat destruct (Rle_dec _ _); lra.
Qed.



Lemma round_half_even_bounds (a b : Z) (x : R) :
  (IZR a <= x <= IZR b)%R → a <= Float.round_half_even x <= b.
Proof.
  intros [Ha Hb]. unfold Float.round_half_even, Float.floor.
  destruct (base_Int_part x) as [Hf1 Hf2].
  assert (a <= Int_part x) as Haf.
  { assert (IZR a < IZR (Int_part x + 1))%R as Hlt by (rewrite plus_IZR; lra).
    apply lt_IZR in Hlt. lia. }
  assert (Int_part x <= b) as Hfb by (apply le_IZR; lra).
  destruct (decide _) as [Hd | Hd]; [lia |].
  assert (Int_part x + 1 <= b) as Hfb'.
  { assert (IZR (Int_part x) < IZR b)%R as Hlt by lra. apply lt_IZR in Hlt. lia. }
  destruct (decide _); [lia |]. destruct (Z.even _); lia.
Qed.

Lemma round2_range (x : R) : (0 <= x <= 100)%R → (0 <= Float.round2 x <= 100)%R.
Proof.
  intros Hx. unfold Float.round2.
  destruct (round_half_even_bounds 0 10000 (x * 100)) as [Hlo Hhi]; [lra |].
  apply IZR_le in Hlo, Hhi. lra.
Qed.

(** The weights of every strategy, and so the weights used for any
    strategy key, are not negative and add up to 1. *)
Lemma weights_for_convex (strategy_key : string) :
  let w := Spec.weights_for strategy_key in
  (0 <= w_urgency w)%R ∧ (0 <= w_importance w)%R ∧ (0 <= w_quickwin w)%R ∧
  (0 <= w_blocker w)%R ∧
  (w_urgency w + w_importance w + w_quickwin w + w_blocker w = 1)%R.
Proof.
  unfold Spec.weights_for.
  destruct (STRATEGY_WEIGHTS !! strategy_key) as [w |] eqn:E; simpl.
  - unfold STRATEGY_WEIGHTS in E. apply elem_of_list_to_map_2 in E.
    repeat (apply elem_of_cons in E as [E | E];
            [apply (f_equal snd) in E; simpl in E; subst w; simpl; lra |]).
    by apply elem_of_nil in E.
  - lra.
Qed.

Lemma importance_range (imp : option Z) :
  (∀ v, imp = Some v → 1 <= v <= 10) → (0 <= _importance imp <= 1)%R.
Proof.
  intros Hv. unfold _importance.
  assert (1 <= default 5 imp <= 10) as [Hlo Hhi].
  { destruct imp as [v |]; simpl; [by apply Hv | lia]. }
  apply IZR_le in Hlo, Hhi. rewrite minus_IZR. lra.
Qed.

Lemma urgency_range (due today : option date) :
  ∃ u, _urgency due today = Ok u ∧ (0 < u <= 1)%R.
Proof.
  rewrite urgency_total. cbv zeta. eexists. split; [done |].
  destruct due as [d |]; [| lra].
  destruct (Date.ltb d _); [lra |]. apply urgency_decay_range, working_days_nonneg.
Qed.

Lemma Rmax_Rmin_range (x : R) : (0 <= Rmax 0 (Rmin 1 x) <= 1)%R.
Proof. unfold Rmax, Rmin. repeat destruct (Rle_dec _ _); lra. Qed.

(** The factors of a task whose hours are above -1 and whose importance is
    within 1..10. *)
Lemma task_factors_range weights max_hours reverse cycle_set today t f :
  task_factors weights max_hours reverse cycle_set today t = Ok f →
  (∀ h, Task.estimated_hours t = Some h → (-1 < h)%R) →
  (∀ v, Task.importance t = Some v → 1 <= v <= 10) →
  (0 < max_hours)%R →
  (0 < f_u f <= 1)%R ∧ (0 <= f_im f <= 1)%R ∧ (0 <= f_qw f <= 1)%R ∧ (0 <= f_bl f <= 1)%R.
Proof.
  intros (Hu & Him & Hqw & Hds & Hbl & _)%task_factors_inv Hh Hi HM.
  destruct (urgency_range (Task.due_date t) today) as (u & Hu' & Hur).
  rewrite Hu in Hu'. injection Hu' as <-.
  rewrite quickwin_ok in Hqw by done. injection Hqw as Hqw.
  rewrite blocker_score_ok in Hbl. injection Hbl as Hbl.
  split_and!; try lra.
  - rewrite Him. by apply importance_range.
  - rewrite Him. by apply importance_range.
  - rewrite <- Hqw. apply quickwin_formula_range.
  - rewrite <- Hqw. apply quickwin_formula_range.
  - rewrite <- Hbl. apply Rmax_Rmin_range.
  - rewrite <- Hbl. apply Rmax_Rmin_range.
Qed.

Lemma final_range weights max_hours reverse cycle_set today t f :
  task_factors weights max_hours reverse cycle_set today t = Ok f →
  (∀ h, Task.estimated_hours t = Some h → (-1 < h)%R) →
  (∀ v, Task.importance t = Some v → 1 <= v <= 10) →
  (0 < max_hours)%R →
  (0 <= w_urgency weights)%R → (0 <= w_importance weights)%R →
  (0 <= w_quickwin weights)%R → (0 <= w_blocker weights)%R →
  (w_urgency weights + w_importance weights + w_quickwin weights + w_blocker weights = 1)%R →
  (0 <= f_final f <= f_base f)%R ∧ (f_base f <= 1)%R.
Proof.
  intros Hf Hh Hi HM H1 H2 H3 H4 Hsum.
  destruct (task_factors_range _ _ _ _ _ _ _ Hf Hh Hi HM) as (Hu & Him & Hqw & Hbl).
  apply task_factors_inv in Hf as (_ & _ & _ & _ & _ & Hbase & Hpen & Hfinal).
  assert (0 <= f_base f <= 1)%R as Hb by (rewrite Hbase; nra).
  rewrite Hfinal, Hpen. destruct (bool_decide _); nra.
Qed.

End RangeFacts.

(** X12: Fewer estimated hours never give a lower quick-win factor: for hours
    above -1 and a positive scale the factor returned for the larger
    number of hours is at most the one for the smaller, and both lie in
    [0, 1]. *)
Theorem quickwin_antitone (h1 h2 max_hours : R) :
  (-1 < h1 <= h2)%R → (0 < max_hours)%R →
  ∃ q1 q2,
    _quickwin (Some h1) max_hours = Ok q1 ∧
    _quickwin (Some h2) max_hours = Ok q2 ∧
    (0 <= q2 <= q1)%R ∧ (q1 <= 1)%R.
Proof.
  intros Hh HM.
  rewrite !quickwin_ok; [| intros ? [= <-]; lra | done | intros ? [= <-]; lra | done].
  eexists _, _. split; [done |]. split; [done |]. simpl.
  pose proof (quickwin_formula_range h2 max_hours).
  pose proof (quickwin_formula_range h1 max_hours).
  pose proof (quickwin_formula_antitone h1 h2 max_hours Hh HM). lra.
Qed.


(** X14: The blocker factor is the number of dependents divided by the cap,
    cut off at 1: with the cap 8 it is [n/8] up to 8 dependents and 1 from
    8 dependents on. It never decreases with the number of dependents. A
    cap of 0 raises [ZeroDivisionError]. *)
Theorem blocker_score_saturates (n m : Z) :
  (∃ b b',
     _blocker_score n 8 = Ok b ∧ _blocker_score m 8 = Ok b' ∧
     (0 <= b <= 1)%R ∧
     (0 <= n <= 8 → b = (IZR n / 8)%R) ∧
     (8 <= n → b = 1%R) ∧
     (n <= m → (b <= b')%R)) ∧
  _blocker_score n 0 = Raise ZeroDivisionError.
Proof.
  split.
  - rewrite !blocker_score_ok. eexists _, _. split; [done |]. split; [done |].
    split_and!.
    + apply Rmax_Rmin_range.
    + apply Rmax_Rmin_range.
    + intros [Hlo%IZR_le Hhi%IZR_le]. unfold Rmax, Rmin. repeat destruct (Rle_dec _ _); lra.
    + intros Hn%IZR_le. unfold Rmax, Rmin. repeat destruct (Rle_dec _ _); lra.
    + intros Hnm%IZR_le. unfold Rmax, Rmin. repeat destruct (Rle_dec _ _); lra.
  - unfold _blocker_score, Float.div. by rewrite decide_True.
Qed.

(** X15: Every record returned by [score_tasks] has a score between 0 and 100,
    an importance between 1 and 10 and a number of dependents between 0
    and the number of tasks. *)
Theorem score_tasks_ranges `{Builtins} (tasks : list NormalizedTask) (strategy : string)
    (today : option date) :
  Forall task_ok tasks →
  ∃ out,
    score_tasks tasks strategy today = Ok out ∧
    ∀ x, x ∈ out_tasks out →
      (0 <= s_score x <= 100)%R ∧
      1 <= s_importance x <= 10 ∧
      0 <= s_dependents x <= Z.of_nat (length tasks).
Proof.
  intros Hok.
  destruct (score_tasks_run tasks strategy today Hok) as (out & reverse & fs & Hrun).
  pose proof (scoring_run_length _ _ _ _ _ _ Hrun) as [Hlen Hperm].
  destruct Hrun as (Hout & Hg & _ & _ & Hfs & _).
  exists out. split; [done |]. intros x Hx. rewrite Hperm in Hx.
  apply elem_of_lookup_zip_with in Hx as (i & t & f & -> & Ht & Hf).
  pose proof (Forall2_lookup_lr _ _ _ _ _ _ Hfs Ht Hf) as Htf. simpl in Htf.
  assert (task_ok t) as [Hh Hi].
  { eapply Forall_forall; [exact Hok |]. by eapply list_elem_of_lookup_2. }
  destruct (max_hours_of_spec tasks) as [_ HM].
  pose proof (weights_for_convex (strategy_key_of strategy)) as (W1 & W2 & W3 & W4 & Wsum).
  destruct (final_range _ _ _ _ _ _ _ Htf) as [Hfin Hbase];
    [intros h Hs; apply Hh in Hs; lra | done | lra | done | done | done | done | done |].
  split_and!.
  - simpl. apply round2_range. lra.
  - simpl. apply round2_range. lra.
  - simpl. destruct (Task.importance t) as [v |] eqn:E; simpl; [by apply Hi | lia].
  - simpl. destruct (Task.importance t) as [v |] eqn:E; simpl; [by apply Hi | lia].
  - simpl. apply task_factors_inv in Htf as (_ & _ & _ & Hd & _).
    destruct (downstream_count_bounds tasks (Task.id t)) as (rv & n & Hg' & Hn & Hb).
    rewrite Hg in Hg'. injection Hg' as <-. rewrite Hd in Hn. injection Hn as ->. lia.
  - simpl. apply task_factors_inv in Htf as (_ & _ & _ & Hd & _).
    destruct (downstream_count_bounds tasks (Task.id t)) as (rv & n & Hg' & Hn & Hb).
    rewrite Hg in Hg'. injection Hg' as <-. rewrite Hd in Hn. injection Hn as ->. lia.
Qed.

(** ** When [score_tasks] returns *)

Section TotalityFacts.
Context `{Builtins}.

Lemma task_factors_total weights max_hours reverse cycle_set today t :
  (∀ h, Task.estimated_hours t = Some h → (-1 < h)%R) →
  ∃ f, task_factors weights max_hours reverse cycle_set today t = Ok f.
Proof.
  intros Hh. unfold task_factors. rewrite urgency_total.
  destruct (quickwin_total (Task.estimated_hours t) max_hours Hh) as [qw ->].
  destruct (downstream_seen_ok reverse (Task.id t)) as [seen Hseen].
  unfold _downstream_block_count. rewrite Hseen. simpl.
  rewrite blocker_score_ok. simpl. by eexists.
Qed.

Lemma task_factors_domain_error weights max_hours reverse cycle_set today t h :
  Task.estimated_hours t = Some h → (h <= -1)%R → (0 < max_hours)%R →
  task_factors weights max_hours reverse cycle_set today t = Raise ValueError.
Proof.
  intros Hh Hle HM. unfold task_factors. rewrite urgency_total. cbv zeta. simpl.
  unfold _quickwin. rewrite Hh. simpl. rewrite decide_False by lra.
  unfold Float.log1p. by rewrite decide_True.
Qed.

Lemma score_loop_total strategy_key weights max_hours reverse cycle_set today tasks :
  (∀ t h, t ∈ tasks → Task.estimated_hours t = Some h → (-1 < h)%R) →
  ∃ scored, score_loop strategy_key weights max_hours reverse cycle_set today tasks = Ok scored.
Proof.
  induction tasks as [| t tasks IH]; intros Hh; simpl; [by eexists |].
  destruct (task_factors_total weights max_hours reverse cycle_set today t) as [f ->].
  { intros h. apply Hh. by left. }
  destruct IH as [scored ->]; [intros t' h Ht'; apply Hh; by right |].
  simpl. by eexists.
Qed.

Lemma score_loop_domain_error strategy_key weights max_hours reverse cycle_set today tasks :
  (0 < max_hours)%R →
  (∃ t h, t ∈ tasks ∧ Task.estimated_hours t = Some h ∧ (h <= -1)%R) →
  score_loop strategy_key weights max_hours reverse cycle_set today tasks = Raise ValueError.
Proof.
  intros HM. induction tasks as [| t tasks IH]; intros (t' & h & Hin & Hh & Hle).
  { by apply elem_of_nil in Hin. }
  simpl.
  assert ((∃ h, Task.estimated_hours t = Some h ∧ (h <= -1)%R) ∨
          (∀ h, Task.estimated_hours t = Some h → (-1 < h)%R)) as [(h0 & Hh0 & Hle0) | Hgood].
  { destruct (Task.estimated_hours t) as [h0 |]; [| by right].
    destruct (Rle_dec h0 (-1)); [left; by exists h0 | right; intros ? [= <-]; lra]. }
  - by rewrite (task_factors_domain_error _ _ _ _ _ _ h0).
  - destruct (task_factors_total weights max_hours reverse cycle_set today t Hgood) as [f ->].
    simpl. rewrite IH; [done |].
    apply elem_of_cons in Hin as [-> | Hin]; [| by exists t', h].
    apply Hgood in Hh. lra.
Qed.

Lemma factors_unique weights max_hours reverse cycle_set today (ts : list NormalizedTask)
    (fs fs' : list Factors) :
  Forall2 (fun t f => task_factors weights max_hours reverse cycle_set today t = Ok f) ts fs →
  Forall2 (fun t f => task_factors weights max_hours reverse cycle_set today t = Ok f) ts fs' →
  fs = fs'.
Proof.
  intros Hfs. revert fs'. induction Hfs as [| t f ts fs Hf _ IH]; intros fs' Hfs'.
  - by apply Forall2_nil_inv_l in Hfs'.
  - apply Forall2_cons_inv_l in Hfs' as (f' & fs'' & Hf' & Hfs'' & ->).
    f_equal; [congruence |]. by apply IH.
Qed.

Lemma sort_insert_ext {A K : Type} (key1 key2 : A → K) (ltb : K → K → bool) (x : A)
    (l : list A) :
  (∀ a, key1 a = key2 a) → sort_insert key1 ltb x l = sort_insert key2 ltb x l.
Proof.
  intros Hk. induction l as [| y l IH]; simpl; [done |].
  rewrite !Hk, IH. done.
Qed.

Lemma list_sort_ext {A K : Type} (key1 key2 : A → K) (ltb : K → K → bool) (l : list A) :
  (∀ a, key1 a = key2 a) → list_sort key1 ltb l = list_sort key2 ltb l.
Proof.
  intros Hk. unfold list_sort. induction l as [| x l IH]; simpl; [done |].
  rewrite IH. by apply sort_insert_ext.
Qed.

(** The ranking does not depend on the strategy key written into the
    explanations. *)
Lemma sort_scored_key (key1 key2 : string) (l : list Spec.Ranked) :
  without_explanation <$> sort_scored (Spec.record_of key1 <$> l) =
  without_explanation <$> sort_scored (Spec.record_of key2 <$> l).
Proof.
  unfold sort_scored. rewrite !list_sort_fmap, <- !list_fmap_compose.
  rewrite (list_sort_ext (_sort_key ∘ Spec.record_of key1) (_sort_key ∘ Spec.record_of key2))
    by done.
  by apply list_fmap_ext.
Qed.

End TotalityFacts.

(** X16: [score_tasks] returns for every batch in which all estimated hours are
    above -1, and raises [ValueError] (the domain error of [log1p]) for
    every batch with a task whose estimated hours are -1 or less. *)
Theorem score_tasks_raises_iff `{Builtins} (tasks : list NormalizedTask) (strategy : string)
    (today : option date) :
  ((∀ t h, t ∈ tasks → Task.estimated_hours t = Some h → (-1 < h)%R) →
   ∃ out, score_tasks tasks strategy today = Ok out) ∧
  ((∃ t h, t ∈ tasks ∧ Task.estimated_hours t = Some h ∧ (h <= -1)%R) →
   score_tasks tasks strategy today = Raise ValueError).
Proof.
  destruct (build_graph_ok tasks) as (reverse & Hg & _).
  destruct (detect_cycles_ok (tasks_by_id_of tasks) (tasks_by_id_wf tasks)) as [cycles Hc].
  destruct (max_hours_of_spec tasks) as [HM HM1].
  unfold score_tasks. rewrite weights_of_ok. simpl.
  rewrite Hg. simpl. rewrite Hc. simpl. rewrite HM. simpl.
  split.
  - intros Hh.
    destruct (score_loop_total (strategy_key_of strategy)
                (Spec.weights_for (strategy_key_of strategy)) (Spec.batch_max_hours tasks)
                reverse (_cycle_nodes cycles) today tasks Hh) as [scored ->].
    simpl. by eexists.
  - intros Hbad. rewrite score_loop_domain_error; [done | lra | done].
Qed.

(** X17: A strategy that names none of the four weightings is scored with the
    weights of [smart_balance]: the result has the same cycles and the
    same records in the same order as for [smart_balance], apart from the
    explanations, while [strategy_used] is the unknown name. *)
Theorem score_tasks_unknown_strategy `{Builtins} (tasks : list NormalizedTask)
    (strategy : string) (today : option date) :
  Forall task_ok tasks →
  STRATEGY_WEIGHTS !! strategy_key_of strategy = None →
  ∃ out out',
    score_tasks tasks strategy today = Ok out ∧
    score_tasks tasks DEFAULT_STRATEGY today = Ok out' ∧
    out_strategy_used out = strategy_key_of strategy ∧
    out_strategy_used out' = DEFAULT_STRATEGY ∧
    out_strategy_used out ≠ out_strategy_used out' ∧
    out_cycles out = out_cycles out' ∧
    without_explanation <$> out_tasks out = without_explanation <$> out_tasks out'.
Proof.
  intros Hok Hnone.
  assert (strategy_key_of DEFAULT_STRATEGY = DEFAULT_STRATEGY) as Hdef by (vm_compute; reflexivity).
  assert (Spec.weights_for (strategy_key_of strategy) = Spec.weights_for DEFAULT_STRATEGY) as Hw.
  { unfold Spec.weights_for. rewrite Hnone. reflexivity. }
  destruct (score_tasks_run tasks strategy today Hok) as (out & reverse & fs & Hrun).
  destruct (score_tasks_run tasks DEFAULT_STRATEGY today Hok) as (out' & reverse' & fs' & Hrun').
  destruct Hrun as (Hout & Hg & Hc & _ & Hfs & Htasks).
  destruct Hrun' as (Hout' & Hg' & Hc' & _ & Hfs' & Htasks').
  rewrite Hg in Hg'. injection Hg' as <-.
  assert (out_cycles out = out_cycles out') as Hcyc by congruence.
  rewrite Hdef in Hfs', Htasks'. rewrite Hw, Hcyc in Hfs.
  assert (fs = fs') as <- by (by eapply factors_unique).
  exists out, out'. split; [done |]. split; [done |].
  assert (out_strategy_used out = strategy_key_of strategy) as Hused.
  { clear -Hout. unfold score_tasks in Hout.
    repeat match type of Hout with
           | bind ?m _ = Ok _ => destruct m as [? |]; simpl in Hout; [| done]
           | (let '(_, _) := ?p in _) = Ok _ => destruct p as [[? ?] ?]; simpl in Hout
           end.
    by injection Hout as <-. }
  assert (out_strategy_used out' = DEFAULT_STRATEGY) as Hused'.
  { clear -Hout' Hdef. unfold score_tasks in Hout'. rewrite Hdef in Hout'.
    repeat match type of Hout' with
           | bind ?m _ = Ok _ => destruct m as [? |]; simpl in Hout'; [| done]
           | (let '(_, _) := ?p in _) = Ok _ => destruct p as [[? ?] ?]; simpl in Hout'
           end.
    by injection Hout' as <-. }
  split_and!; [done | done | | done |].
  - rewrite Hused, Hused'. intros Heq. rewrite Heq in Hnone. by vm_compute in Hnone.
  - rewrite Htasks, Htasks', !zip_with_record_of. apply sort_scored_key.
Qed.

(** X1: [_build_graph] never raises. Of several tasks with the same id the
    last one provides the entry of the id; dependencies on ids outside the
    batch are dropped from the forward edges; [reverse] has an entry for
    every id of the batch and lists for each id the ids that depend on
    it. *)
Theorem build_graph_total (tasks : list NormalizedTask) :
  ∃ reverse,
    _build_graph tasks = Ok (tasks_by_id_of tasks, forward_of tasks, reverse) ∧
    (∀ k, od_map (tasks_by_id_of tasks) !! k = last (filter (fun t => Task.id t = k) tasks)) ∧
    (∀ k, od_map (forward_of tasks) !! k =
            (fun t => filter (fun d => d ∈ Task.id <$> tasks) (Task.dependencies t))
              <$> last (filter (fun t => Task.id t = k) tasks)) ∧
    (∀ k, is_Some (reverse !! k) ↔ k ∈ Task.id <$> tasks) ∧
    (∀ u v, u ∈ reverse_get reverse v ↔
            ∃ l, od_map (forward_of tasks) !! u = Some l ∧ v ∈ l).
Proof.
  unfold _build_graph.
  destruct (reverse_loop (od_items (forward_of tasks)) (reverse_init tasks ∅))
    as (rv & Hrun & Hdom & Hrv).
  { intros tid deps d Hi Hd. apply od_items_spec in Hi; [| apply forward_wf].
    rewrite reverse_init_lookup, decide_True; [by eexists |].
    by eapply forward_lookup. }
  rewrite Hrun. simpl. exists rv. split_and!; [done | | | |].
  - apply tasks_by_id_last.
  - intros k. rewrite forward_last. destruct (last _) as [t |]; [| done]. simpl. f_equal.
    apply filter_ext_in. intros d _. rewrite od_mem_keys by apply tasks_by_id_wf.
    apply tasks_by_id_keys.
  - intros k. rewrite Hdom, reverse_init_lookup.
    destruct (decide _) as [Hin | Hnin]; [by split; [| eexists] |].
    rewrite lookup_empty. split; [by intros [? ?] | done].
  - destruct (build_graph_ok tasks) as (rv' & Hg & Hspec).
    unfold _build_graph in Hg. rewrite Hrun in Hg. simpl in Hg. injection Hg as <-.
    intros u v. apply Hspec.
Qed.

(** ** Stripped strings *)

Section StripFacts.

Lemma append_cons (x : ascii) (a b : string) : String x a +:+ b = String x (a +:+ b).
Proof. reflexivity. Qed.

Lemma append_nil (b : string) : "" +:+ b = b.
Proof. reflexivity. Qed.

Lemma string_app_assoc (a b c : string) : (a +:+ b) +:+ c = a +:+ (b +:+ c).
Proof. induction a as [| x a IH]; [done |]. by rewrite !append_cons, IH. Qed.

Lemma string_of_list_ascii_app (l k : list ascii) :
  string_of_list_ascii (l ++ k) = string_of_list_ascii l +:+ string_of_list_ascii k.
Proof. induction l as [| x l IH]; simpl; [done |]. by rewrite append_cons, IH. Qed.

Lemma list_ascii_of_string_app (a b : string) :
  list_ascii_of_string (a +:+ b) = list_ascii_of_string a ++ list_ascii_of_string b.
Proof. induction a as [| x a IH]; [done |]. rewrite append_cons. simpl. by rewrite IH. Qed.

Lemma str_rev_rev (s : string) : Str.rev (Str.rev s) = s.
Proof.
  unfold Str.rev. rewrite list_ascii_of_string_of_list_ascii, rev_involutive.
  apply string_of_list_ascii_of_string.
Qed.

Lemma str_rev_cons (c : ascii) (s : string) :
  Str.rev (String c s) = Str.rev s +:+ String c "".
Proof. unfold Str.rev. simpl. by rewrite string_of_list_ascii_app. Qed.

Lemma str_rev_snoc (c : ascii) (s : string) :
  Str.rev (s +:+ String c "") = String c (Str.rev s).
Proof.
  unfold Str.rev. rewrite list_ascii_of_string_app. simpl.
  by rewrite rev_app_distr.
Qed.

Lemma lstrip_cases (s : string) :
  Str.lstrip s = "" ∨ ∃ c r, Str.lstrip s = String c r ∧ Str.is_space c = false.
Proof.
  induction s as [| c s IH]; simpl; [by left |].
  destruct (Str.is_space c) eqn:E; [done |]. right. by exists c, s.
Qed.

Lemma lstrip_cons (c : ascii) (r : string) :
  Str.is_space c = false → Str.lstrip (String c r) = String c r.
Proof. intros E. simpl. by rewrite E. Qed.

Lemma lstrip_idem (s : string) : Str.lstrip (Str.lstrip s) = Str.lstrip s.
Proof.
  destruct (lstrip_cases s) as [-> | (c & r & -> & E)]; [done |]. by apply lstrip_cons.
Qed.

Lemma lstrip_snoc (s : string) (c : ascii) :
  Str.is_space c = false → Str.lstrip (s +:+ String c "") = Str.lstrip s +:+ String c "".
Proof.
  intros E. induction s as [| x s IH]; [rewrite append_nil; simpl; by rewrite E |].
  rewrite append_cons. simpl. by destruct (Str.is_space x).
Qed.

Lemma rstrip_cons (c : ascii) (r : string) :
  Str.is_space c = false → Str.rstrip (String c r) = String c (Str.rstrip r).
Proof.
  intros E. unfold Str.rstrip. by rewrite str_rev_cons, lstrip_snoc, str_rev_snoc.
Qed.

Lemma rstrip_snoc (s : string) (c : ascii) :
  Str.is_space c = false → Str.rstrip (s +:+ String c "") = s +:+ String c "".
Proof.
  intros E. unfold Str.rstrip.
  by rewrite str_rev_snoc, lstrip_cons, str_rev_cons, str_rev_rev.
Qed.

Lemma rstrip_idem (s : string) : Str.rstrip (Str.rstrip s) = Str.rstrip s.
Proof. unfold Str.rstrip. by rewrite str_rev_rev, lstrip_idem. Qed.

(** Stripping a stripped string changes nothing. *)
Lemma strip_idem (s : string) : Str.strip (Str.strip s) = Str.strip s.
Proof.
  unfold Str.strip.
  destruct (lstrip_cases s) as [-> | (c & r & -> & E)]; [done |].
  by rewrite (rstrip_cons c r E), lstrip_cons, <- (rstrip_cons c r E), rstrip_idem.
Qed.

Lemma pretty_N_char_not_space (n : N) : Str.is_space (pretty_N_char n) = false.
Proof.
  destruct n as [| p]; [done |].
  do 4 (try destruct p as [p | p |]); reflexivity.
Qed.

Lemma pretty_N_go_app (x : N) : ∀ s, ∃ p, pretty_N_go x s = p +:+ s.
Proof.
  induction (N.lt_wf_0 x) as [x _ IH]. intros s.
  destruct (decide (x = 0%N)) as [-> | Hne].
  - exists "". by rewrite pretty_N_go_0.
  - rewrite pretty_N_go_step by lia.
    destruct (IH (x `div` 10)%N) with (s := String (pretty_N_char (x `mod` 10)) s)
      as [p ->].
    { apply N.div_lt; lia. }
    exists (p +:+ String (pretty_N_char (x `mod` 10)) "").
    by rewrite string_app_assoc.
Qed.

(** The decimal representation of an integer ends with a digit. *)
Lemma of_Z_last (z : Z) : ∃ p c, Str.of_Z z = p +:+ String c "" ∧ Str.is_space c = false.
Proof.
  assert (∀ q : positive, ∃ p c, pretty (N.pos q) = p +:+ String c "" ∧
                                 Str.is_space c = false) as Hpos.
  { intros q. unfold pretty, pretty_N. rewrite decide_False by done.
    rewrite pretty_N_go_step by lia.
    destruct (pretty_N_go_app (N.pos q `div` 10)
                (String (pretty_N_char (N.pos q `mod` 10)) "")) as [p ->].
    eexists p, _. split; [done |]. apply pretty_N_char_not_space. }
  unfold Str.of_Z. destruct z as [| q | q].
  - by exists "", "0"%char.
  - apply Hpos.
  - destruct (Hpos q) as (p & c & Hp & Hc). exists ("-" +:+ p), c. split; [| done].
    change (pretty (Z.neg q)) with ("-" +:+ pretty (N.pos q)). by rewrite Hp.
Qed.

Lemma strip_untitled (z : Z) :
  Str.strip ("Untitled Task " +:+ Str.of_Z z) = "Untitled Task " +:+ Str.of_Z z.
Proof.
  destruct (of_Z_last z) as (p & c & -> & Hc).
  unfold Str.strip.
  change ("Untitled Task " +:+ (p +:+ String c ""))
    with (String "U" ("ntitled Task " +:+ (p +:+ String c ""))).
  rewrite lstrip_cons by done.
  change (String "U" ("ntitled Task " +:+ (p +:+ String c "")))
    with ("Untitled Task " +:+ (p +:+ String c "")).
  rewrite <- string_app_assoc. by apply rstrip_snoc.
Qed.

End StripFacts.

(** ** What every normalised task satisfies *)

Section NormalizedFacts.
Context `{Builtins}.

(** The title is stripped and not empty. *)
Definition title_ok (t : NormalizedTask) : Prop :=
  Str.strip (Task.title t) = Task.title t ∧ Task.title t ≠ "".

Lemma normalize_one_title (idx : Z) (t : RawTask) (task : NormalizedTask) (warns : list string) :
  normalize_one idx t = Ok (task, warns) → title_ok task.
Proof.
  unfold normalize_one.
  destruct (try_except _ _) as [[tid w_id] |]; simpl; [| done].
  destruct (_parse_date _) as [due |]; simpl; [| done].
  destruct (_parse_float _) as [hours |]; simpl; [| done].
  destruct (_clamp_int _ _ _) as [imp |]; simpl; [| done].
  repeat match goal with
         | |- context [let '(_, _) := ?x in _] => destruct x
         end.
  intros [= <- _]. unfold title_ok. simpl.
  destruct (String.eqb _ "") eqn:E.
  - split; [apply strip_untitled | done].
  - split; [apply strip_idem |]. by apply String.eqb_neq in E.
Qed.

Lemma normalize_from_title (raw : list RawTask) :
  ∀ idx tasks warns, normalize_from idx raw = Ok (tasks, warns) → Forall title_ok tasks.
Proof.
  induction raw as [| t raw IH]; intros idx tasks warns; simpl.
  - intros [= <- _]. constructor.
  - destruct (normalize_one idx t) as [[task w] |] eqn:E1; simpl; [| done].
    destruct (normalize_from (idx + 1) raw) as [[ts ws] |] eqn:E2; simpl; [| done].
    intros [= <- _]. constructor; [by eapply normalize_one_title | by eapply IH].
Qed.

End NormalizedFacts.


(** ** Reading back what [isoformat] writes *)

Section RoundTripFacts.
Context `{Builtins}.
Import DateFacts.

Lemma digit_char_digit (k : Z) :
  0 <= k < 10 → Str.is_digit (Str.digit_char k) = true ∧ Str.digit_val (Str.digit_char k) = k.
Proof.
  intros Hk.
  assert (k = 0 ∨ k = 1 ∨ k = 2 ∨ k = 3 ∨ k = 4 ∨ k = 5 ∨ k = 6 ∨ k = 7 ∨ k = 8 ∨ k = 9)
    as Ck by lia.
  repeat (destruct Ck as [-> | Ck]); [.. | subst k]; by split.
Qed.

Lemma digits4_value (y : Z) :
  0 <= y <= 9999 →
  100 * (10 * ((y / 1000) mod 10) + (y / 100) mod 10)
  + (10 * ((y / 10) mod 10) + (y / 1) mod 10) = y.
Proof. intros Hy. Z.to_euclidean_division_equations. lia. Qed.

Lemma digits2_value (y : Z) : 0 <= y <= 99 → 10 * ((y / 10) mod 10) + (y / 1) mod 10 = y.
Proof. intros Hy. Z.to_euclidean_division_equations. lia. Qed.

Lemma isoformat_chars (d : date) :
  list_ascii_of_string (isoformat d) =
    [ Str.digit_char ((Date.year d / 1000) mod 10);
      Str.digit_char ((Date.year d / 100) mod 10);
      Str.digit_char ((Date.year d / 10) mod 10);
      Str.digit_char ((Date.year d / 1) mod 10);
      "-"%char;
      Str.digit_char ((Date.month d / 10) mod 10);
      Str.digit_char ((Date.month d / 1) mod 10);
      "-"%char;
      Str.digit_char ((Date.day d / 10) mod 10);
      Str.digit_char ((Date.day d / 1) mod 10) ].
Proof. reflexivity. Qed.

Lemma fromisoformat_isoformat (d : date) : fromisoformat (isoformat d) = Ok d.
Proof.
  pose proof (date_bounds d) as (Hy & Hm & Hd).
  unfold fromisoformat. rewrite isoformat_chars.
  assert (∀ z, 0 <= z mod 10 < 10) as Hmod by (intros z; apply Z.mod_pos_bound; lia).
  set (y1 := (Date.year d / 1000) mod 10). set (y2 := (Date.year d / 100) mod 10).
  set (y3 := (Date.year d / 10) mod 10). set (y4 := (Date.year d / 1) mod 10).
  set (m1 := (Date.month d / 10) mod 10). set (m2 := (Date.month d / 1) mod 10).
  set (d1 := (Date.day d / 10) mod 10). set (d2 := (Date.day d / 1) mod 10).
  destruct (digit_char_digit y1 (Hmod _)) as [Iy1 Vy1].
  destruct (digit_char_digit y2 (Hmod _)) as [Iy2 Vy2].
  destruct (digit_char_digit y3 (Hmod _)) as [Iy3 Vy3].
  destruct (digit_char_digit y4 (Hmod _)) as [Iy4 Vy4].
  destruct (digit_char_digit m1 (Hmod _)) as [Im1 Vm1].
  destruct (digit_char_digit m2 (Hmod _)) as [Im2 Vm2].
  destruct (digit_char_digit d1 (Hmod _)) as [Id1 Vd1].
  destruct (digit_char_digit d2 (Hmod _)) as [Id2 Vd2].
  cbn [length take forallb Nat.leb andb negb].
  rewrite Iy1, Iy2, Iy3, Iy4. cbn [andb negb Nat.leb].
  change (Ascii.eqb "-" "-") with true. cbn [andb].
  rewrite Im1, Im2, Id1, Id2. cbn [andb].
  rewrite Vy1, Vy2, Vy3, Vy4, Vm1, Vm2, Vd1, Vd2.
  assert (100 * (10 * y1 + y2) + (10 * y3 + y4) = Date.year d) as ->.
  { apply digits4_value. lia. }
  assert (10 * m1 + m2 = Date.month d) as -> by (apply digits2_value; lia).
  assert (10 * d1 + d2 = Date.day d) as ->.
  { apply digits2_value.
    pose proof (days_in_month_pos (Date.year d) (Date.month d) Hm). lia. }
  unfold Date.make_date. destruct (decide _) as [Hv | Hv].
  - f_equal. by apply date_eq.
  - exfalso. apply Hv. apply (Date.date_ok d).
Qed.

Lemma parse_date_Some (d : date) : _parse_date (PStr (isoformat d)) = Ok (Some d).
Proof.
  unfold _parse_date. cbn [in_none_empty_list]. rewrite isoformat_nonempty.
  by rewrite fromisoformat_isoformat.
Qed.

End RoundTripFacts.

(** X20: A due date written by [isoformat], as in the output of [score_tasks],
    is read back by [_parse_date] as the same date; so is a [date]
    value. *)
Theorem parse_date_isoformat `{Builtins} (d : date) :
  _parse_date (PStr (isoformat d)) = Ok (Some d) ∧
  _parse_date (PDate d) = Ok (Some d).
Proof. split; [apply parse_date_Some | reflexivity]. Qed.

(** ** Normalising the output of [score_tasks] again *)

Section RenormalizeFacts.
Context `{Builtins}.

Lemma scored_dict_id x : scored_dict x !! "id" = Some (PInt (s_id x)).
Proof. reflexivity. Qed.
Lemma scored_dict_title x : scored_dict x !! "title" = Some (PStr (s_title x)).
Proof. reflexivity. Qed.
Lemma scored_dict_due_date x :
  scored_dict x !! "due_date" = Some (from_option PStr PNone (s_due_date x)).
Proof. reflexivity. Qed.
Lemma scored_dict_estimated_hours x :
  scored_dict x !! "estimated_hours" = Some (from_option PFloat PNone (s_estimated_hours x)).
Proof. reflexivity. Qed.
Lemma scored_dict_importance x : scored_dict x !! "importance" = Some (PInt (s_importance x)).
Proof. reflexivity. Qed.
Lemma scored_dict_dependencies x :
  scored_dict x !! "dependencies" = Some (PList (PInt <$> s_dependencies x)).
Proof. reflexivity. Qed.

Lemma convert_deps_ints (tid : Z) (deps : list Z) :
  convert_deps tid (PInt <$> deps) = (deps, []).
Proof. induction deps as [| d deps IH]; [done |]. rewrite fmap_cons. simpl. by rewrite IH. Qed.

Lemma parse_date_written (due : option date) :
  _parse_date (from_option PStr PNone (isoformat <$> due)) = Ok due ∧
  (negb (in_none_empty_list (from_option PStr PNone (isoformat <$> due)))
   && bool_decide (due = None)) = false.
Proof.
  destruct due as [d |]; [| done].
  change (from_option PStr PNone (isoformat <$> Some d)) with (PStr (isoformat d)).
  rewrite parse_date_Some. split; [done |].
  rewrite bool_decide_eq_false_2 by done. apply andb_false_r.
Qed.

Lemma parse_float_written (hours : option R) :
  (∀ h, hours = Some h → (0 < h)%R) →
  _parse_float (from_option PFloat PNone hours) = Ok hours ∧
  (negb (in_none_empty_list (from_option PFloat PNone hours))
   && bool_decide (hours = None)) = false.
Proof.
  intros Hh. destruct hours as [h |]; [| done].
  specialize (Hh h eq_refl). cbn [from_option]. unfold _parse_float.
  cbn [in_none_empty py_float bind try_except].
  rewrite decide_False by lra. split; [done |].
  rewrite bool_decide_eq_false_2 by done. apply andb_false_r.
Qed.

Lemma clamp_int_written (v : Z) :
  1 <= v <= 10 → _clamp_int (PInt v) 1 10 = Ok (Some v).
Proof. intros Hv. unfold _clamp_int. simpl. do 2 f_equal. lia. Qed.

(** A scored record is normalised to the task it was made from, without a
    warning. *)
Lemma normalize_one_scored (idx : Z) (strategy_key : string) (t : NormalizedTask)
    (f : Factors) :
  task_ok t → title_ok t →
  normalize_one idx (scored_dict (scored_record strategy_key t f)) =
    Ok (explicit_importance t, []).
Proof.
  intros [Hh Hi] [Hstrip Hne].
  assert (1 <= default 5 (Task.importance t) <= 10) as Himp.
  { destruct (Task.importance t) as [v |]; simpl; [by apply Hi | lia]. }
  unfold normalize_one, raw_get.
  rewrite scored_dict_id, scored_dict_title, scored_dict_due_date,
    scored_dict_estimated_hours, scored_dict_importance, scored_dict_dependencies.
  cbn [default Datatypes.id scored_record s_id s_title s_due_date s_estimated_hours
         s_importance s_dependencies py_int py_str try_except bind].
  rewrite Hstrip. apply String.eqb_neq in Hne. rewrite Hne.
  destruct (parse_date_written (Task.due_date t)) as [-> Hwd].
  destruct (parse_float_written (Task.estimated_hours t) Hh) as [-> Hwh].
  rewrite (clamp_int_written _ Himp).
  cbn [bind]. rewrite Hwd, Hwh.
  rewrite (bool_decide_eq_false_2 (Some (default 5 (Task.importance t)) = None)) by done.
  rewrite andb_false_r.
  assert ((if py_truthy (PList (PInt <$> Task.dependencies t))
           then PList (PInt <$> Task.dependencies t) else PList [])
          = PList (PInt <$> Task.dependencies t)) as ->.
  { by destruct (Task.dependencies t). }
  rewrite convert_deps_ints. reflexivity.
Qed.

Lemma normalize_from_scored (strategy_key : string) (ranked : list Spec.Ranked) :
  Forall (fun a : Spec.Ranked => task_ok a.1 ∧ title_ok a.1) ranked →
  ∀ idx,
    normalize_from idx (scored_dict <$> (Spec.record_of strategy_key <$> ranked)) =
      Ok ((explicit_importance ∘ fst) <$> ranked, []).
Proof.
  induction 1 as [| [t f] ranked [Hok Htitle] _ IH]; intros idx; [done |].
  rewrite !fmap_cons. cbn [normalize_from].
  unfold Spec.record_of at 1. cbn [fst snd].
  rewrite normalize_one_scored by done. cbn [bind]. rewrite IH. reflexivity.
Qed.

End RenormalizeFacts.

(** X21: Round trip: when a batch is normalised and scored and the scored
    records are given to [normalize_tasks] again, the result is the tasks of
    the first normalisation, in ranked order, with a missing importance
    replaced by 5, and there is no warning. *)
Theorem renormalize_scored `{Builtins} (raw : list RawTask) (strategy : string)
    (today : option date) :
  ∃ tasks warnings out tasks',
    normalize_tasks raw = Ok (tasks, warnings) ∧
    score_tasks tasks strategy today = Ok out ∧
    normalize_tasks (scored_dict <$> out_tasks out) = Ok (tasks', []) ∧
    tasks' ≡ₚ explicit_importance <$> tasks ∧
    Task.id <$> tasks' = s_id <$> out_tasks out.
Proof.
  destruct (normalize_tasks_ok raw) as (tasks & warnings & Hn & _ & Hok).
  pose proof (normalize_from_title raw 0 tasks warnings Hn) as Htitle.
  destruct (score_tasks_run tasks strategy today Hok) as (out & reverse & fs & Hrun).
  pose proof (scoring_run_length _ _ _ _ _ _ Hrun) as [Hlen _].
  destruct Hrun as (Hout & _ & _ & _ & _ & Htasks).
  set (key := strategy_key_of strategy) in *.
  set (ranked := list_sort (_sort_key ∘ Spec.record_of key) key_ltb (zip tasks fs)).
  assert (ranked ≡ₚ zip tasks fs) as Hperm by apply list_sort_perm.
  assert (out_tasks out = Spec.record_of key <$> ranked) as Hranked.
  { rewrite Htasks. unfold sort_scored. by rewrite zip_with_record_of, list_sort_fmap. }
  exists tasks, warnings, out, ((explicit_importance ∘ fst) <$> ranked).
  split_and!; [done | done | | |].
  - rewrite Hranked. unfold normalize_tasks. apply normalize_from_scored.
    rewrite Hperm. apply Forall_forall. intros [t f] Ht%elem_of_zip_l.
    rewrite Forall_forall in Hok, Htitle. split; [by apply Hok | by apply Htitle].
  - rewrite list_fmap_compose, Hperm, fst_zip by lia. done.
  - rewrite Hranked, <- !list_fmap_compose. by apply list_fmap_ext.
Qed.

(** ** The REST views *)

Lemma StronglySorted_app_elem_of {A : Type} (R : relation A) (l1 l2 : list A) (x1 x2 : A) :
  StronglySorted R (l1 ++ l2) → x1 ∈ l1 → x2 ∈ l2 → R x1 x2.
Proof.
  induction l1 as [| y l1 IH]; intros Hs H1 H2; [by apply elem_of_nil in H1 |].
  apply StronglySorted_inv in Hs as [Hs Hall].
  apply elem_of_cons in H1 as [-> | H1]; [| by apply IH].
  rewrite Forall_forall in Hall. apply Hall, elem_of_app. by right.
Qed.

(** X27: After [analyze_tasks] has analysed a list of records, [suggest_tasks]
    returns the first three records of the ranking (all of them when there
    are fewer), and no record that is left out has to come before a
    returned one. After the analysis of an empty list it answers that no
    tasks were analysed. A request whose body is not a list is rejected
    and leaves the stored ranking as it was. *)
Theorem views_analyze_then_suggest `{Builtins} (raw : list RawTask)
    (strategy_param : option string) (last_scored : option (list ScoredTask)) :
  (∃ out warnings ranked,
     Views.analyze_tasks (Views.DataList raw) strategy_param last_scored =
       Ok (Views.Analyzed out warnings, Some (out_tasks out)) ∧
     length (out_tasks out) = length raw ∧
     out_tasks out =
       Spec.record_of (strategy_key_of (default DEFAULT_STRATEGY strategy_param)) <$> ranked ∧
     Views.suggest_tasks (Some (out_tasks out)) =
       (if decide (raw = [])
        then Views.BadRequest "No tasks analyzed yet. Call POST /api/tasks/analyze/ first."
        else Views.TopTasks
               (Spec.record_of (strategy_key_of (default DEFAULT_STRATEGY strategy_param))
                  <$> take 3 ranked)) ∧
     ∀ a b, a ∈ take 3 ranked → b ∈ drop 3 ranked → ¬ Spec.outranks b a) ∧
  Views.analyze_tasks Views.DataOther strategy_param last_scored =
    Ok (Views.BadRequest "Expected a JSON array (list) of tasks.", last_scored).
Proof.
  split; [| reflexivity].
  destruct (normalize_tasks_ok raw) as (tasks & warnings & Hn & _ & Hok).
  pose proof (normalize_tasks_length raw tasks warnings Hn) as Hlen.
  set (strategy := default DEFAULT_STRATEGY strategy_param).
  destruct (ranked_output_coded tasks strategy None Hok)
    as (out & reverse & fs & ranked & Hrun & Hout & Hperm & Hsorted & _).
  pose proof (scoring_run_length _ _ _ _ _ _ Hrun) as [Hfs Hperm'].
  destruct Hrun as (Hscore & _).
  assert (length (out_tasks out) = length raw) as Hlen'.
  { rewrite Hperm', length_zip_with. lia. }
  exists out, warnings, ranked. split_and!; [| done | done | |].
  - unfold Views.analyze_tasks. rewrite Hn. simpl. fold strategy. by rewrite Hscore.
  - destruct (decide (raw = [])) as [-> | Hne].
    + destruct (out_tasks out); [done | simpl in Hlen'; lia].
    + rewrite fmap_take, <- Hout.
      destruct (out_tasks out); [| done].
      destruct raw; [done | simpl in Hlen'; lia].
  - intros a b Ha Hb.
    rewrite <- (take_drop 3 ranked) in Hsorted.
    by apply (StronglySorted_app_elem_of _ _ _ a b Hsorted).
Qed.

(** ** The API layer *)

Section ApiFacts.
Context `{Builtins}.

(** The task and the warnings of the record at position [i]. *)
Lemma normalize_from_lookup (raw : list RawTask) :
  ∀ idx tasks ws (i : nat) t,
    normalize_from idx raw = Ok (tasks, ws) → raw !! i = Some t →
    ∃ task w,
      normalize_one (idx + Z.of_nat i) t = Ok (task, w) ∧
      tasks !! i = Some task ∧ ∀ x, x ∈ w → x ∈ ws.
Proof.
  induction raw as [| r raw IH]; intros idx tasks ws i t Hn Hi; [done |].
  simpl in Hn.
  destruct (normalize_one idx r) as [[task w] |] eqn:E1; simpl in Hn; [| done].
  destruct (normalize_from (idx + 1) raw) as [[ts ws'] |] eqn:E2; simpl in Hn; [| done].
  injection Hn as <- <-.
  destruct i as [| i]; simpl in Hi.
  - injection Hi as <-. exists task, w. rewrite Z.add_0_r.
    split_and!; [done | done |]. intros x Hx. apply elem_of_app. by left.
  - destruct (IH (idx + 1) ts ws' i t E2 Hi) as (task' & w' & Hone & Hts & Hw).
    exists task', w'. split_and!; [| done |].
    + rewrite <- Hone. f_equal. lia.
    + intros x Hx. apply elem_of_app. right. by apply Hw.
Qed.

Lemma dict_id (p : Api.TaskPayload) :
  Api.dict p !! "id" = Some (from_option PInt PNone (Api.id p)).
Proof. reflexivity. Qed.

Lemma dict_title (p : Api.TaskPayload) :
  Api.dict p !! "title" = Some (from_option PStr PNone (Api.title p)).
Proof. reflexivity. Qed.

(** A payload without an id is given its position as id, with a warning;
    a payload without a title is given the title [None]. *)
Lemma normalize_one_payload (idx : Z) (p : Api.TaskPayload) (task : NormalizedTask)
    (w : list string) :
  normalize_one idx (Api.dict p) = Ok (task, w) →
  Api.id p = None →
  Task.id task = idx + 1 ∧
  ("Task at index " +:+ Str.of_Z idx +:+ ": invalid id 'None' -> auto-assigned "
     +:+ Str.of_Z (idx + 1)) ∈ w ∧
  (Api.title p = None → Task.title task = "None").
Proof.
  intros Hn Hid. unfold normalize_one in Hn. rewrite dict_id, dict_title, Hid in Hn.
  cbn [default Datatypes.id from_option py_int py_str try_except bind] in Hn.
  destruct (_parse_date _) as [due |]; [| done]. cbn [bind] in Hn.
  destruct (_parse_float _) as [hours |]; [| done]. cbn [bind] in Hn.
  destruct (_clamp_int _ _ _) as [imp |]; [| done]. cbn [bind] in Hn.
  repeat match type of Hn with
         | context [let '(_, _) := ?x in _] => destruct x
         end.
  injection Hn as <- <-. split_and!; [done | by left |].
  intros ->. reflexivity.
Qed.

Lemma strategy_keys (v : string) (w : StrategyWeights) :
  STRATEGY_WEIGHTS !! v = Some w →
  v = "fastest_wins" ∨ v = "high_impact" ∨ v = "deadline_driven" ∨ v = "smart_balance".
Proof.
  intros E. unfold STRATEGY_WEIGHTS in E. apply elem_of_list_to_map_2 in E.
  repeat (apply elem_of_cons in E as [E | E]; [apply (f_equal fst) in E; simpl in E; tauto |]).
  by apply elem_of_nil in E.
Qed.

End ApiFacts.


(** X24: In the API a task that is sent without an id is not given one
    silently: the key [id] of its dict holds [None], so the normaliser
    warns about an invalid id and assigns the position. A task without a
    title gets the title [None] and not [Untitled Task n]. *)
Theorem api_analyze_missing_id `{Builtins} (payload : Api.AnalyzeRequest) (i : nat)
    (p : Api.TaskPayload) :
  Api.tasks payload !! i = Some p → Api.id p = None →
  ∃ resp x,
    Api.analyze_tasks payload = Ok resp ∧
    ("Task at index " +:+ Str.of_Z (Z.of_nat i) +:+ ": invalid id 'None' -> auto-assigned "
       +:+ Str.of_Z (Z.of_nat i + 1)) ∈ Api.warnings resp ∧
    x ∈ out_tasks (Api.scored resp) ∧
    s_id x = Z.of_nat i + 1 ∧
    (Api.title p = None → s_title x = "None").
Proof.
  intros Hi Hid.
  destruct (normalize_tasks_ok (Api.dict <$> Api.tasks payload))
    as (tasks & ws & Hn & _ & Hok).
  destruct (normalize_from_lookup _ 0 tasks ws i (Api.dict p) Hn) as (task & w & Hone & Ht & Hw).
  { by rewrite list_lookup_fmap, Hi. }
  rewrite Z.add_0_l in Hone.
  destruct (normalize_one_payload _ _ _ _ Hone Hid) as (Htid & Hwarn & Htitle).
  set (strategy := match Api.strategy payload with
                   | Some s => if String.eqb s "" then DEFAULT_STRATEGY else s
                   | None => DEFAULT_STRATEGY
                   end).
  destruct (score_tasks_run tasks strategy (Api.today payload) Hok)
    as (out & reverse & fs & Hrun).
  pose proof (scoring_run_length _ _ _ _ _ _ Hrun) as [Hfs Hperm].
  destruct Hrun as (Hscore & _).
  destruct (lookup_lt_is_Some_2 fs i) as [f Hf].
  { rewrite Hfs. by eapply lookup_lt_Some. }
  eexists _, (scored_record (strategy_key_of strategy) task f). split.
  { unfold Api.analyze_tasks. rewrite Hn. cbn [bind]. fold strategy. rewrite Hscore.
    cbn [bind]. reflexivity. }
  cbn [Api.scored Api.warnings]. split_and!.
  - destruct (out_cycles out); [by apply Hw |]. apply elem_of_app. left. by apply Hw.
  - rewrite Hperm. apply elem_of_lookup_zip_with. by exists i, task, f.
  - done.
  - done.
Qed.

(** X22: A strategy that passes the validator of the request model names one
    of the four weightings and is already in the form that [score_tasks]
    looks up, so [score_tasks] uses the weights of that strategy. *)
Theorem validate_strategy_sound (value : option string) (v : string) :
  Api.validate_strategy value = Ok v →
  ∃ w,
    STRATEGY_WEIGHTS !! v = Some w ∧
    strategy_key_of v = v ∧
    weights_of (strategy_key_of v) = Ok w.
Proof.
  intros Hv.
  assert (is_Some (STRATEGY_WEIGHTS !! v)) as [w Hw].
  { unfold Api.validate_strategy in Hv. destruct value as [s |].
    - destruct (bool_decide _) eqn:E; [| done]. injection Hv as <-.
      by apply bool_decide_eq_true in E.
    - injection Hv as <-. by eexists. }
  exists w. split; [done |].
  assert (strategy_key_of v = v) as Hkey.
  { destruct (strategy_keys v w Hw) as [-> | [-> | [-> | ->]]]; vm_compute; reflexivity. }
  split; [done |]. rewrite Hkey. unfold weights_of, Spec.weights_for.
  rewrite Hw. reflexivity.
Qed.

(** ** Suggestions *)

Section SuggestFacts.
Context `{Builtins}.




End SuggestFacts.


Section ReasonFacts.
Context `{Builtins}.

Lemma filter_nonempty_cons (c : ascii) (s : string) (l : list string) :
  filter (fun p : string => p ≠ "") (String c s :: l) =
    String c s :: filter (fun p : string => p ≠ "") l.
Proof. by rewrite filter_cons_True. Qed.

End ReasonFacts.

(** X26: For a scored record of a task with a due date, the reason given with
    a suggestion starts with the priority and goes on with the due date
    read back from the record: [overdue since] that date when it is before
    today, and otherwise the number of working days until it. *)
Theorem reason_reports_due `{Builtins} (strategy_key : string) (t : NormalizedTask)
    (f : Factors) (d : date) :
  Task.due_date t = Some d →
  ∃ w rest,
    _working_days_until d None = Ok w ∧
    (w < 0 ↔ Date.lt d date_today) ∧
    Api._reason_for_task (scored_record strategy_key t f) =
      Ok (Api.join "; "
            (("Priority " +:+ py_str (PFloat (Float.round2 (f_final f * 100))) +:+ "/100")
             :: (if w <? 0 then "overdue since " +:+ isoformat d
                 else "due in " +:+ Str.of_Z w
                        +:+ " working day(s) (weekends and India holidays skipped)")
             :: rest)).
Proof.
  intros Hd.
  pose proof (working_days_until_total d None) as Hw. cbv zeta in Hw. simpl default in Hw.
  set (w := if Date.ltb d date_today then -1 else Spec.working_days date_today d) in Hw.
  exists w. unfold Api._reason_for_task.
  cbn [scored_record s_due_date s_score s_importance s_estimated_hours s_dependents
         s_dependencies s_explanation].
  rewrite Hd. cbn [fmap option_fmap option_map]. rewrite isoformat_nonempty.
  rewrite fromisoformat_isoformat. cbn [bind try_except]. rewrite Hw. cbn [bind].
  assert (w < 0 ↔ Date.lt d date_today) as Hlt.
  { pose proof (working_days_nonneg date_today d). unfold w, Date.lt.
    destruct (Date.ltb d date_today); simpl; [split; [done | lia] |].
    split; [lia | done]. }
  set (p1 := "Priority " +:+ py_str (PFloat (Float.round2 (f_final f * 100))) +:+ "/100").
  set (p2 := if w <? 0 then "overdue since " +:+ isoformat d
             else "due in " +:+ Str.of_Z w
                    +:+ " working day(s) (weekends and India holidays skipped)").
  assert (∃ c s, p1 = String c s) as (c1 & s1 & Hp1) by (by eexists _, _).
  assert (∃ c s, p2 = String c s) as (c2 & s2 & Hp2).
  { unfold p2. destruct (w <? 0); by eexists _, _. }
  assert (∀ parts : list string,
            (∃ tail, parts = p1 :: p2 :: tail) →
            ∃ rest, filter (fun p : string => p ≠ "") parts = p1 :: p2 :: rest) as Hfilter.
  { intros parts [tail ->]. rewrite Hp1, Hp2, !filter_nonempty_cons. by eexists. }
  assert (∀ (parts : list string) (x : string),
            (∃ tail, parts = p1 :: p2 :: tail) → ∃ tail, parts ++ [x] = p1 :: p2 :: tail)
    as Hsnoc.
  { intros parts x [tail ->]. by eexists. }
  match goal with
  | |- ∃ rest, _ ∧ _ ∧ ?m = _ =>
      assert (∃ parts, m = Ok (Api.join "; " (filter (fun p : string => p ≠ "") parts)) ∧
                       ∃ tail, parts = p1 :: p2 :: tail) as (parts & -> & Hparts)
  end.
  { fold p1. unfold p2. destruct (w <? 0) eqn:E; cbn [bind];
      (eexists; split; [reflexivity |]);
      repeat match goal with
             | |- ∃ tail, (if ?c then _ else _) = _ => destruct c
             | |- ∃ tail, match ?o with Some _ => _ | None => _ end = _ => destruct o
             | |- ∃ tail, match ?l with [] => _ | _ :: _ => _ end = _ => destruct l
             | |- ∃ tail, [_] ++ [_] = _ => by exists []
             | |- ∃ tail, _ ++ [_] = _ => apply Hsnoc
             end. }
  destruct (Hfilter parts Hparts) as [rest ->].
  exists rest. by split_and!.
Qed.

(** X18: [score_tasks] lowers the score of a task below its weighted factor sum
    only if the task depends on itself through dependencies of the batch;
    in a batch without such a cycle every final score is the weighted
    sum. *)
Theorem cycle_penalty_only_on_cycles `{Builtins} (tasks : list NormalizedTask)
    (strategy : string) (today : option date) :
  Forall task_ok tasks →
  ∃ out reverse fs,
    scoring_run tasks strategy today out reverse fs ∧
    Forall2 (fun t f =>
               f_final f ≠ f_base f →
               tc (Spec.depends (forward_of tasks)) (Task.id t) (Task.id t)) tasks fs ∧
    ((∀ x, ¬ tc (Spec.depends (forward_of tasks)) x x) →
     Forall (fun f => f_final f = f_base f) fs).
Proof.
  intros Hok.
  destruct (score_tasks_run tasks strategy today Hok) as (out & reverse & fs & Hrun).
  exists out, reverse, fs. split; [done |].
  destruct Hrun as (_ & _ & Hc & _ & Hfs & _).
  pose proof (detect_cycles_sound _ _ Hc) as Hsound. rewrite Forall_forall in Hsound.
  assert (Forall2 (fun t f =>
                     f_final f ≠ f_base f →
                     tc (Spec.depends (forward_of tasks)) (Task.id t) (Task.id t)) tasks fs)
    as Hpen.
  { eapply Forall2_impl; [exact Hfs |]. intros t f Hf Hne. simpl in Hf.
    apply task_factors_inv in Hf as (_ & _ & _ & _ & _ & _ & Hp & Hfinal).
    destruct (bool_decide (Task.id t ∈ _cycle_nodes (out_cycles out))) eqn:E.
    - apply bool_decide_eq_true, elem_of_cycle_nodes in E as (c & Hcin & Hx).
      apply dfs_edge_tc. eapply closed_walk_all; [by apply Hsound | done].
    - exfalso. apply Hne. rewrite Hfinal, Hp. lra. }
  split; [done |]. intros Hac.
  clear -Hpen Hac. induction Hpen as [| t f ts fs Hf _ IH]; constructor; [| done].
  destruct (Req_dec (f_final f) (f_base f)) as [| Hne]; [done |].
  exfalso. by apply (Hac (Task.id t)), Hf.
Qed.

Lemma cycle_penalty_only_on_cycles_witness :
  ∃ out reverse fs,
    @scoring_run Examples.env Examples.two_cycles_through_1 "" None out reverse fs ∧
    Forall2 (fun t f =>
               f_final f ≠ f_base f →
               tc (Spec.depends (forward_of Examples.two_cycles_through_1))
                 (Task.id t) (Task.id t)) Examples.two_cycles_through_1 fs ∧
    ((∀ x, ¬ tc (Spec.depends (forward_of Examples.two_cycles_through_1)) x x) →
     Forall (fun f => f_final f = f_base f) fs).
Proof.
  apply (@cycle_penalty_only_on_cycles Examples.env).
  repeat first [apply Forall_nil_2 | apply Forall_cons_2]; split; simpl; intros ? [=].
Defined.

(** X28: The set of penalised ids depends on the order of the tasks in the
    batch: for the tasks of [missed_cycle] in the order 1, 2, 3 the ids 1
    and 3 are reported, and in the order 2, 3, 1 all three ids are. *)
Theorem cycle_nodes_depend_on_order :
  ¬ (∀ tasks tasks' cs cs',
       tasks ≡ₚ tasks' →
       detect_cycles (tasks_by_id_of tasks) = Ok cs →
       detect_cycles (tasks_by_id_of tasks') = Ok cs' →
       _cycle_nodes cs = _cycle_nodes cs').
Proof.
  intros Hall.
  assert (detect_cycles (tasks_by_id_of missed_cycle) = Ok [[1; 3; 1]]) as Hcs
    by (vm_compute; reflexivity).
  assert (detect_cycles (tasks_by_id_of missed_cycle_rotated) = Ok [[3; 1; 3]; [2; 3; 1; 2]])
    as Hcs' by (vm_compute; reflexivity).
  assert (missed_cycle ≡ₚ missed_cycle_rotated) as Hperm.
  { unfold missed_cycle, missed_cycle_rotated.
    apply (Permutation_cons_append [_; _]). }
  pose proof (Hall _ _ _ _ Hperm Hcs Hcs') as Heq.
  assert (2 ∈ _cycle_nodes [[3; 1; 3]; [2; 3; 1; 2]]) as H2.
  { apply elem_of_cycle_nodes. exists [2; 3; 1; 2]. set_solver. }
  rewrite <- Heq in H2. apply elem_of_cycle_nodes in H2 as (c & Hc & Hx).
  apply list_elem_of_singleton in Hc as ->. set_solver.
Qed.

(** ** The further theorems with hypotheses at concrete inputs *)

Lemma downstream_count_monotone_witness :
  ∃ reverse na nb,
    _build_graph chain_batch =
      Ok (tasks_by_id_of chain_batch, forward_of chain_batch, reverse) ∧
    _downstream_block_count 1 reverse = Ok na ∧
    _downstream_block_count 2 reverse = Ok nb ∧
    na <= nb ∧
    (¬ tc (Spec.depends (forward_of chain_batch)) 1 1 → na < nb).
Proof.
  apply (downstream_count_monotone chain_batch 1 2).
  apply tc_once. exists [2]. split; [vm_compute; reflexivity | by left].
Defined.

Lemma working_days_until_additive_witness :
  ∃ a b,
    @_working_days_until Examples.env Examples.d_2025_10_03 (Some Examples.d_2025_10_01) = Ok a ∧
    @_working_days_until Examples.env Examples.d_2025_11_05 (Some Examples.d_2025_10_03) = Ok b ∧
    @_working_days_until Examples.env Examples.d_2025_11_05 (Some Examples.d_2025_10_01)
      = Ok (a + b).
Proof.
  apply (@working_days_until_additive Examples.env Examples.d_2025_10_01
           Examples.d_2025_10_03 Examples.d_2025_11_05).
  - vm_compute. exact (fun x => x).
  - vm_compute. exact (fun x => x).
Defined.

Lemma working_days_until_next_day_witness :
  ∃ w,
    @_working_days_until Examples.env Examples.d_2025_10_03 (Some Examples.d_2025_10_01) = Ok w ∧
    @_working_days_until Examples.env (Date.mkDate 2025 10 4 I) (Some Examples.d_2025_10_01) =
      Ok (if _is_non_working_day Examples.d_2025_10_03 then w else w + 1).
Proof.
  apply (@working_days_until_next_day Examples.env Examples.d_2025_10_01
           Examples.d_2025_10_03 (Date.mkDate 2025 10 4 I)).
  - vm_compute. exact (fun x => x).
  - vm_compute. reflexivity.
Defined.

Lemma urgency_antitone_in_due_witness :
  ∃ u1 u2,
    @_urgency Examples.env (Some Examples.d_2025_10_03) (Some Examples.d_2025_10_01) = Ok u1 ∧
    @_urgency Examples.env (Some Examples.d_2025_11_05) (Some Examples.d_2025_10_01) = Ok u2 ∧
    (0 < u2 <= u1)%R ∧ (u1 <= 1)%R.
Proof.
  apply (@urgency_antitone_in_due Examples.env (Some Examples.d_2025_10_01)
           Examples.d_2025_10_03 Examples.d_2025_11_05).
  vm_compute. exact (fun x => x).
Defined.

Lemma urgency_undated_threshold_witness :
  ∃ u u0,
    @_urgency Examples.env (Some Examples.d_2025_10_03) (Some Examples.d_2025_10_01) = Ok u ∧
    @_urgency Examples.env None (Some Examples.d_2025_10_01) = Ok u0 ∧
    (15 < 1 → (u < u0)%R) ∧ (1 = 15 → u = u0) ∧ (1 < 15 → (u0 < u)%R).
Proof.
  apply (@urgency_undated_threshold Examples.env (Some Examples.d_2025_10_01)
           Examples.d_2025_10_03 1).
  - vm_compute. reflexivity.
  - lia.
Defined.

Lemma quickwin_antitone_witness :
  ∃ q1 q2,
    _quickwin (Some 1%R) 2 = Ok q1 ∧
    _quickwin (Some 2%R) 2 = Ok q2 ∧
    (0 <= q2 <= q1)%R ∧ (q1 <= 1)%R.
Proof. apply (quickwin_antitone 1 2 2); lra. Defined.


Lemma score_tasks_ranges_witness :
  ∃ out,
    @score_tasks Examples.env [Examples.sample_task] "" None = Ok out ∧
    ∀ x, x ∈ out_tasks out →
      (0 <= s_score x <= 100)%R ∧
      1 <= s_importance x <= 10 ∧
      0 <= s_dependents x <= Z.of_nat (length [Examples.sample_task]).
Proof.
  apply (@score_tasks_ranges Examples.env).
  apply Forall_cons_2; [| apply Forall_nil_2].
  split; simpl; [intros ? [= <-]; lra | intros ? [= <-]; lia].
Defined.

Lemma score_tasks_unknown_strategy_witness :
  ∃ out out',
    @score_tasks Examples.env [Examples.sample_task] "fastest" None = Ok out ∧
    @score_tasks Examples.env [Examples.sample_task] DEFAULT_STRATEGY None = Ok out' ∧
    out_strategy_used out = strategy_key_of "fastest" ∧
    out_strategy_used out' = DEFAULT_STRATEGY ∧
    out_strategy_used out ≠ out_strategy_used out' ∧
    out_cycles out = out_cycles out' ∧
    without_explanation <$> out_tasks out = without_explanation <$> out_tasks out'.
Proof.
  apply (@score_tasks_unknown_strategy Examples.env).
  - apply Forall_cons_2; [| apply Forall_nil_2].
    split; simpl; [intros ? [= <-]; lra | intros ? [= <-]; lia].
  - vm_compute. reflexivity.
Defined.

Lemma api_analyze_missing_id_witness :
  ∃ resp x,
    @Api.analyze_tasks Examples.env (Api.mkRequest [Api.mkPayload None None None None [] None]
                                       None None) = Ok resp ∧
    ("Task at index " +:+ Str.of_Z (Z.of_nat 0) +:+ ": invalid id 'None' -> auto-assigned "
       +:+ Str.of_Z (Z.of_nat 0 + 1)) ∈ Api.warnings resp ∧
    x ∈ out_tasks (Api.scored resp) ∧
    s_id x = Z.of_nat 0 + 1 ∧
    (Api.title (Api.mkPayload None None None None [] None) = None → s_title x = "None").
Proof.
  apply (@api_analyze_missing_id Examples.env
           (Api.mkRequest [Api.mkPayload None None None None [] None] None None) 0
           (Api.mkPayload None None None None [] None)); reflexivity.
Defined.

Lemma validate_strategy_sound_witness :
  ∃ w,
    STRATEGY_WEIGHTS !! "high_impact" = Some w ∧
    strategy_key_of "high_impact" = "high_impact" ∧
    weights_of (strategy_key_of "high_impact") = Ok w.
Proof.
  apply (validate_strategy_sound (Some " High_Impact ") "high_impact").
  vm_compute. reflexivity.
Defined.

Lemma reason_reports_due_witness :
  ∃ w rest,
    @_working_days_until Examples.env Examples.d_2025_10_03 None = Ok w ∧
    (w < 0 ↔ Date.lt Examples.d_2025_10_03 (@date_today Examples.env)) ∧
    @Api._reason_for_task Examples.env
      (scored_record "smart_balance"
         (Spec.with_due Examples.sample_task Examples.d_2025_10_03)
         (mkFactors 0 0 0 0 0 0 0 0)) =
      Ok (Api.join "; "
            (("Priority " +:+ @py_str Examples.env
                                 (PFloat (Float.round2 (f_final (mkFactors 0 0 0 0 0 0 0 0) * 100)))
                +:+ "/100")
             :: (if w <? 0 then "overdue since " +:+ isoformat Examples.d_2025_10_03
                 else "due in " +:+ Str.of_Z w
                        +:+ " working day(s) (weekends and India holidays skipped)")
             :: rest)).
Proof.
  apply (@reason_reports_due Examples.env "smart_balance"
           (Spec.with_due Examples.sample_task Examples.d_2025_10_03)
           (mkFactors 0 0 0 0 0 0 0 0) Examples.d_2025_10_03).
  reflexivity.
Defined.
